(** * Design System Studio: token generation, export and component formatting

    A shallow embedding of the pure logic of
    [src/components/DesignSystemGenerator.tsx],
    [src/components/ComponentGenerator.tsx] and the export dialog of
    [src/App.tsx], together with the properties stated about them.

    Conventions of the embedding.
    - A JavaScript number is an integer [Z]: every call site passes the result
      of [Math.floor] or an integer literal.  Its rendering inside a template
      literal is the decimal numeral, with a leading minus sign when negative.
    - A JavaScript string is a [string] (a sequence of bytes).
    - A JavaScript object used as a dictionary is the list of its own
      properties in the order [Object.entries] enumerates them.
    - [Math.random] is an entropy source of doubles held in the state of the
      world; the product of a draw with an integer is rounded to a double
      before [Math.floor] is taken.
    - The exporters are given twice: as functions of the design system
      record, and as programs on a store of mutable objects that receive the
      record by reference. *)

From Stdlib Require Import ZArith List Bool Lia.
From Stdlib Require Import Ascii String DecimalString DecimalZ DecimalN.
Import ListNotations.

Set Warnings "-register-all".

Open Scope Z_scope.
Open Scope string_scope.

(** ** Strings *)

Module Str.

(** Every character of [s] satisfies [p]. *)
Fixpoint all (p : ascii -> bool) (s : string) : bool :=
  match s with
  | EmptyString => true
  | String a r => p a && all p r
  end.

(** [s] with the prefix [p] removed, when [s] starts with [p]. *)
Fixpoint strip_prefix (p s : string) : option string :=
  match p, s with
  | EmptyString, _ => Some s
  | String a p', String b s' => if Ascii.eqb a b then strip_prefix p' s' else None
  | String _ _, EmptyString => None
  end.

(** The text before the first occurrence of [c] and the text after it. *)
Fixpoint split_at (c : ascii) (s : string) : option (string * string) :=
  match s with
  | EmptyString => None
  | String a r =>
      if Ascii.eqb a c then Some (EmptyString, r)
      else match split_at c r with
           | Some (u, v) => Some (String a u, v)
           | None => None
           end
  end.

(** [s.startsWith(p)]. *)
Fixpoint starts_with (p s : string) : bool :=
  match p, s with
  | EmptyString, _ => true
  | String a p', String b s' => Ascii.eqb a b && starts_with p' s'
  | String _ _, EmptyString => false
  end.

(** [s.includes(sub)]: [sub] occurs in [s] as a contiguous run of characters. *)
Fixpoint contains (sub s : string) : bool :=
  if starts_with sub s then true
  else match s with
       | EmptyString => false
       | String _ r => contains sub r
       end.

(** [Array.prototype.join]. *)
Definition join (sep : string) (l : list string) : string := concat sep l.

(** Concatenation of a list of fragments, left to right. *)
Fixpoint cat (l : list string) : string :=
  match l with
  | [] => EmptyString
  | x :: r => x ++ cat r
  end.

End Str.

(** ** Numbers inside template literals *)

(** [String(n)] for an integer [n]: what [`${n}`] interpolates. *)
Definition num_to_string (n : Z) : string :=
  NilEmpty.string_of_int (Z.to_int n).

(** The integer a decimal numeral denotes; the reading of [num_to_string]. *)
Definition string_to_num (s : string) : option Z :=
  option_map Z.of_int (NilEmpty.int_of_string s).

(** ** Palette generator (DesignSystemGenerator.tsx) *)

Record ColorShade := mkColorShade {
  s50 : string; s100 : string; s200 : string; s300 : string; s400 : string;
  s500 : string; s600 : string; s700 : string; s800 : string; s900 : string
}.

(** [Object.entries] of a [ColorShade]: its keys are integer-like, so they are
    enumerated in ascending numeric order, which is also the order in which
    [generateColorShade] writes them. *)
Definition ColorShade_entries (c : ColorShade) : list (string * string) :=
  [("50", s50 c); ("100", s100 c); ("200", s200 c); ("300", s300 c);
   ("400", s400 c); ("500", s500 c); ("600", s600 c); ("700", s700 c);
   ("800", s800 c); ("900", s900 c)].

Definition generateColorShade (baseHue saturation : Z) : ColorShade :=
  {| s50 := "hsl(" ++ num_to_string baseHue ++ ", "
            ++ num_to_string (Z.max (saturation - 40) 10) ++ "%, 95%)";
     s100 := "hsl(" ++ num_to_string baseHue ++ ", "
            ++ num_to_string (Z.max (saturation - 30) 15) ++ "%, 90%)";
     s200 := "hsl(" ++ num_to_string baseHue ++ ", "
            ++ num_to_string (Z.max (saturation - 20) 20) ++ "%, 80%)";
     s300 := "hsl(" ++ num_to_string baseHue ++ ", "
            ++ num_to_string (Z.max (saturation - 10) 25) ++ "%, 70%)";
     s400 := "hsl(" ++ num_to_string baseHue ++ ", "
            ++ num_to_string saturation ++ "%, 60%)";
     s500 := "hsl(" ++ num_to_string baseHue ++ ", "
            ++ num_to_string saturation ++ "%, 50%)";
     s600 := "hsl(" ++ num_to_string baseHue ++ ", "
            ++ num_to_string saturation ++ "%, 40%)";
     s700 := "hsl(" ++ num_to_string baseHue ++ ", "
            ++ num_to_string (Z.min (saturation + 10) 100) ++ "%, 30%)";
     s800 := "hsl(" ++ num_to_string baseHue ++ ", "
            ++ num_to_string (Z.min (saturation + 20) 100) ++ "%, 20%)";
     s900 := "hsl(" ++ num_to_string baseHue ++ ", "
            ++ num_to_string (Z.min (saturation + 30) 100) ++ "%, 10%)" |}.

(** A colour read back from its [hsl(H, S%, L%)] text. *)
Record hsl := mkHsl { hue : Z; sat : Z; light : Z }.

Definition parse_hsl (s : string) : option hsl :=
  match Str.strip_prefix "hsl(" s with
  | None => None
  | Some r1 =>
    match Str.split_at "," r1 with
    | None => None
    | Some (h, r2) =>
      match Str.strip_prefix " " r2 with
      | None => None
      | Some r3 =>
        match Str.split_at "%" r3 with
        | None => None
        | Some (sa, r4) =>
          match Str.strip_prefix ", " r4 with
          | None => None
          | Some r5 =>
            match Str.split_at "%" r5 with
            | None => None
            | Some (l, r6) =>
              if String.eqb r6 ")" then
                match string_to_num h, string_to_num sa, string_to_num l with
                | Some h', Some s', Some l' => Some (mkHsl h' s' l')
                | _, _, _ => None
                end
              else None
            end
          end
        end
      end
    end
  end.

(** A colour a stylesheet accepts without clamping. *)
Definition valid_hsl (c : hsl) : Prop :=
  0 <= hue c < 360 /\ 0 <= sat c <= 100 /\ 0 <= light c <= 100.

(** ** JavaScript objects and arrays *)

(** Control characters and the double quote, which a literal cannot hold. *)
Definition nl : string := String "010"%char EmptyString.
Definition dq : string := String "034"%char EmptyString.

Module Obj.

(** An object as the list of its own properties, in enumeration order. *)
Definition t (V : Type) : Type := list (string * V).

(** An array index: a canonical numeral below [2^32 - 1].  Such keys are
    enumerated first, in ascending numeric order. *)
Definition array_index (k : string) : option N :=
  match NilEmpty.uint_of_string k with
  | Some d =>
      let n := N.of_uint d in
      if String.eqb (NilEmpty.string_of_uint (N.to_uint n)) k
         && (n <? 4294967295)%N
      then Some n else None
  | None => None
  end.

(** [o[k]]; [None] is [undefined]. *)
Fixpoint get {V} (k : string) (o : t V) : option V :=
  match o with
  | [] => None
  | (k', v) :: r => if String.eqb k k' then Some v else get k r
  end.

Definition has {V} (k : string) (o : t V) : bool :=
  match get k o with Some _ => true | None => false end.

(** Overwrite the value of an existing property; its position is kept. *)
Fixpoint update {V} (k : string) (v : V) (o : t V) : t V :=
  match o with
  | [] => []
  | (k', v') :: r =>
      if String.eqb k k' then (k', v) :: r else (k', v') :: update k v r
  end.

(** Place a new array-index property after the smaller indices. *)
Fixpoint insert_index {V} (n : N) (k : string) (v : V) (o : t V) : t V :=
  match o with
  | [] => [(k, v)]
  | (k', v') :: r =>
      match array_index k' with
      | Some m =>
          if (m <? n)%N then (k', v') :: insert_index n k v r
          else (k, v) :: o
      | None => (k, v) :: o
      end
  end.

(** [o[k] = v] (also a property [k: v] of an object literal or spread). *)
Definition set {V} (k : string) (v : V) (o : t V) : t V :=
  if has k o then update k v o
  else match array_index k with
       | Some n => insert_index n k v o
       | None => (o ++ [(k, v)])%list
       end.

Definition keys {V} (o : t V) : list string := map fst o.

(** No property is listed twice. *)
Definition wf {V} (o : t V) : Prop := NoDup (keys o).

End Obj.

(** [l.forEach(body)] where [body] updates the variables [S] it closes over. *)
Definition forEach {A S} (l : list A) (body : S -> A -> S) (s : S) : S :=
  fold_left body l s.

Fixpoint forEach_from {A S} (index : Z) (l : list A)
    (body : S -> A -> Z -> S) (s : S) : S :=
  match l with
  | [] => s
  | x :: r => forEach_from (index + 1) r body (body s x index)
  end.

(** [l.forEach((x, index) => ...)] and [l.reduce((acc, x, index) => ..., s)]. *)
Definition forEachIndexed {A S} (l : list A) (body : S -> A -> Z -> S) (s : S) : S :=
  forEach_from 0 l body s.

Definition reduce {A S} (l : list A) (body : S -> A -> Z -> S) (s : S) : S :=
  forEach_from 0 l body s.

(** ** JSON.stringify(value, null, 2) *)

Inductive json : Type :=
| JString (s : string)
| JArray (items : list json)
| JObject (props : list (string * json)).

Module JSON.

Definition hex_digit (n : N) : ascii :=
  if (n <? 10)%N then ascii_of_N (48 + n) else ascii_of_N (87 + n).

(** One character inside a quoted JSON string. *)
Definition escape (a : ascii) : string :=
  let n := N_of_ascii a in
  if (n =? 8)%N then "\b"
  else if (n =? 9)%N then "\t"
  else if (n =? 10)%N then "\n"
  else if (n =? 12)%N then "\f"
  else if (n =? 13)%N then "\r"
  else if (n =? 34)%N then "\" ++ dq
  else if (n =? 92)%N then "\\"
  else if (n <? 32)%N then
    "\u00" ++ String (hex_digit (n / 16)) (String (hex_digit (n mod 16)) EmptyString)
  else String a EmptyString.

Fixpoint escape_all (s : string) : string :=
  match s with
  | EmptyString => EmptyString
  | String a r => escape a ++ escape_all r
  end.

Definition quote (s : string) : string := dq ++ escape_all s ++ dq.

(** The value [j] written with two more spaces per nesting level; [indent] is
    the indentation of the line the value starts on. *)
Fixpoint serialize (indent : string) (j : json) {struct j} : string :=
  let inner := indent ++ "  " in
  match j with
  | JString s => quote s
  | JArray [] => "[]"
  | JArray items =>
      "[" ++ nl
      ++ Str.join ("," ++ nl) (map (fun x => inner ++ serialize inner x) items)
      ++ nl ++ indent ++ "]"
  | JObject [] => "{}"
  | JObject props =>
      "{" ++ nl
      ++ Str.join ("," ++ nl)
           (map (fun kv => match kv with
                           | (k, v) => inner ++ quote k ++ ": " ++ serialize inner v
                           end) props)
      ++ nl ++ indent ++ "}"
  end.

Definition stringify (j : json) : string := serialize EmptyString j.

(** The value reached from [j] by following property names. *)
Fixpoint at_path (path : list string) (j : json) : option json :=
  match path with
  | [] => Some j
  | k :: rest =>
      match j with
      | JObject props =>
          match Obj.get k props with
          | Some v => at_path rest v
          | None => None
          end
      | _ => None
      end
  end.

End JSON.

(** ** Design system model (DesignSystemGenerator.tsx) *)

Record ColorPalette := mkColorPalette {
  primary : ColorShade; secondary : ColorShade; accent : ColorShade;
  neutral : ColorShade; success : ColorShade; warning : ColorShade;
  error : ColorShade
}.

(** [Object.entries] of a palette.  Every palette of the program is built by
    [generateRandomPalette] or by a spread of one, which keeps this order. *)
Definition ColorPalette_entries (p : ColorPalette) : list (string * ColorShade) :=
  [("primary", primary p); ("secondary", secondary p); ("accent", accent p);
   ("neutral", neutral p); ("success", success p); ("warning", warning p);
   ("error", error p)].

Record TypographyEntry := mkTypographyEntry {
  size : string; lineHeight : string; weight : string
}.

Record TypographyScale := mkTypographyScale {
  xs : TypographyEntry; sm : TypographyEntry; base : TypographyEntry;
  lg : TypographyEntry; xl : TypographyEntry; t2xl : TypographyEntry;
  t3xl : TypographyEntry; t4xl : TypographyEntry; t5xl : TypographyEntry
}.

(** [Object.entries] of a typography scale, in the order of
    [defaultTypography], the only scale the program builds. *)
Definition TypographyScale_entries (t : TypographyScale)
  : list (string * TypographyEntry) :=
  [("xs", xs t); ("sm", sm t); ("base", base t); ("lg", lg t); ("xl", xl t);
   ("2xl", t2xl t); ("3xl", t3xl t); ("4xl", t4xl t); ("5xl", t5xl t)].

Record DesignSystem := mkDesignSystem {
  name : string;
  colors : ColorPalette;
  typography : TypographyScale;
  spacing : list string;
  borderRadius : list string;
  fontFamily : string
}.

Definition defaultTypography : TypographyScale :=
  {| xs := mkTypographyEntry "0.75rem" "1rem" "400";
     sm := mkTypographyEntry "0.875rem" "1.25rem" "400";
     base := mkTypographyEntry "1rem" "1.5rem" "400";
     lg := mkTypographyEntry "1.125rem" "1.75rem" "400";
     xl := mkTypographyEntry "1.25rem" "1.75rem" "500";
     t2xl := mkTypographyEntry "1.5rem" "2rem" "500";
     t3xl := mkTypographyEntry "1.875rem" "2.25rem" "600";
     t4xl := mkTypographyEntry "2.25rem" "2.5rem" "600";
     t5xl := mkTypographyEntry "3rem" "1" "700" |}.

Definition fontFamilies : list string :=
  ["Inter, sans-serif"; "Roboto, sans-serif"; "Open Sans, sans-serif";
   "Lato, sans-serif"; "Poppins, sans-serif"; "Montserrat, sans-serif";
   "Source Sans Pro, sans-serif"; "Nunito, sans-serif";
   "Playfair Display, serif"; "Merriweather, serif"].

(** ** The world: the entropy source and the React state *)

(** A finite double that is not negative: [mantissa * 2 ^ exponent], with a
    mantissa below [2 ^ 53] and an exponent of at least [-1074]. *)
Record double := mkDouble { mantissa : Z; exponent : Z }.

(** [M / 2 ^ s] rounded to the nearest integer, a tie going to the even one. *)
Definition round_half_even (M s : Z) : Z :=
  let q := M / 2 ^ s in
  let r := M mod 2 ^ s in
  let half := 2 ^ (s - 1) in
  if (r <? half)%Z then q
  else if (half <? r)%Z then q + 1
  else if Z.even q then q else q + 1.

(** [r * n] as IEEE 754 multiplies a double by an integer [n] with
    [0 <= n < 2 ^ 53]: the exact product, rounded to 53 significant bits when
    it has more.  (A rounded mantissa of [2 ^ 53] stands for [2 ^ 52] at the
    next exponent.) *)
Definition double_mul (r : double) (n : Z) : double :=
  let M := mantissa r * n in
  if (M <? 2 ^ 53)%Z then mkDouble M (exponent r)
  else
    let s := Z.log2 M - 52 in
    mkDouble (round_half_even M s) (exponent r + s).

(** [Math.floor] of a double. *)
Definition double_floor (r : double) : Z :=
  if (0 <=? exponent r)%Z then mantissa r * 2 ^ exponent r
  else mantissa r / 2 ^ (- exponent r).

Record World := mkWorld {
  entropy : nat -> double;   (* the values [Math.random()] returns, in order *)
  cursor : nat;              (* how many of them have been drawn *)
  designSystem : DesignSystem
}.

(** A computation that may draw random numbers and replace the state. *)
Definition M (A : Type) : Type := World -> A * World.

Definition ret {A} (a : A) : M A := fun w => (a, w).

Definition bind {A B} (m : M A) (k : A -> M B) : M B :=
  fun w => let (a, w') := m w in k a w'.

Notation "x <- m ;; k" := (bind m (fun x => k))
  (at level 61, m at next level, right associativity).

Definition Math_random : M double :=
  fun w => (entropy w (cursor w),
            mkWorld (entropy w) (S (cursor w)) (designSystem w)).

(** [Math.floor(Math.random() * n)]. *)
Definition random_below (n : Z) : M Z :=
  r <- Math_random ;; ret (double_floor (double_mul r n)).

Definition setDesignSystem (update : DesignSystem -> DesignSystem) : M unit :=
  fun w => (tt, mkWorld (entropy w) (cursor w) (update (designSystem w))).

(** The entropy source only yields doubles of [[0, 1)]. *)
Definition fair (w : World) : Prop :=
  forall n,
    0 <= mantissa (entropy w n) < 2 ^ 53
    /\ -1074 <= exponent (entropy w n)
    /\ mantissa (entropy w n) < 2 ^ (- exponent (entropy w n)).

Definition generateRandomPalette : M ColorPalette :=
  primaryHue <- random_below 360 ;;
  let secondaryHue := Z.rem (primaryHue + 180) 360 in
  let accentHue := Z.rem (primaryHue + 120) 360 in
  ret {| primary := generateColorShade primaryHue 70;
         secondary := generateColorShade secondaryHue 60;
         accent := generateColorShade accentHue 80;
         neutral := generateColorShade 0 5;
         success := generateColorShade 120 60;
         warning := generateColorShade 45 80;
         error := generateColorShade 0 70 |}.

Definition defaultSpacing : list string :=
  ["4px"; "8px"; "12px"; "16px"; "20px"; "24px"; "32px"; "40px"; "48px"; "64px"].

Definition defaultBorderRadius : list string :=
  ["0px"; "4px"; "8px"; "12px"; "16px"; "24px"].

(** The initial state of [DesignSystemGenerator]. *)
Definition initialDesignSystem : M DesignSystem :=
  palette <- generateRandomPalette ;;
  ret {| name := "My Design System";
         colors := palette;
         typography := defaultTypography;
         spacing := defaultSpacing;
         borderRadius := defaultBorderRadius;
         fontFamily := nth 0 fontFamilies "undefined" |}.

Definition generateRandomSystem : M unit :=
  n <- random_below 1000 ;;
  let randomName := "Design System " ++ num_to_string n in
  i <- random_below (Z.of_nat (List.length fontFamilies)) ;;
  let randomFont := nth (Z.to_nat i) fontFamilies "undefined" in
  palette <- generateRandomPalette ;;
  setDesignSystem (fun _ =>
    {| name := randomName;
       colors := palette;
       typography := defaultTypography;
       spacing := defaultSpacing;
       borderRadius := defaultBorderRadius;
       fontFamily := randomFont |}).

(** ** Exporters of DesignSystemGenerator.tsx *)

(** The [variables] object [generateFigmaVariables] fills. *)
Definition figmaVariables (designSystem : DesignSystem) : Obj.t json :=
  let variables : Obj.t json := [] in
  (* Colors *)
  let variables :=
    forEach (ColorPalette_entries (colors designSystem))
      (fun variables '(colorName, shades) =>
         forEach (ColorShade_entries shades)
           (fun variables '(shade, value) =>
              Obj.set ("color/" ++ colorName ++ "/" ++ shade) (JString value)
                variables)
           variables)
      variables in
  (* Typography *)
  let variables :=
    forEach (TypographyScale_entries (typography designSystem))
      (fun variables '(size_, props) =>
         let variables :=
           Obj.set ("typography/" ++ size_ ++ "/size") (JString (size props))
             variables in
         let variables :=
           Obj.set ("typography/" ++ size_ ++ "/lineHeight")
             (JString (lineHeight props)) variables in
         Obj.set ("typography/" ++ size_ ++ "/weight") (JString (weight props))
           variables)
      variables in
  (* Spacing *)
  let variables :=
    forEachIndexed (spacing designSystem)
      (fun variables space index =>
         Obj.set ("spacing/" ++ num_to_string (index + 1)) (JString space)
           variables)
      variables in
  (* Border Radius *)
  let variables :=
    forEachIndexed (borderRadius designSystem)
      (fun variables radius index =>
         Obj.set ("radius/" ++ num_to_string index) (JString radius) variables)
      variables in
  Obj.set "font/family" (JString (fontFamily designSystem)) variables.

Definition generateFigmaVariables (designSystem : DesignSystem) : string :=
  JSON.stringify (JObject (figmaVariables designSystem)).

Definition generateCSS (designSystem : DesignSystem) : string :=
  let css := ":root {" ++ nl in
  (* Colors *)
  let css :=
    forEach (ColorPalette_entries (colors designSystem))
      (fun css '(colorName, shades) =>
         forEach (ColorShade_entries shades)
           (fun css '(shade, value) =>
              css ++ ("  --" ++ colorName ++ "-" ++ shade ++ ": " ++ value
                      ++ ";" ++ nl))
           css)
      css in
  (* Typography *)
  let css :=
    forEach (TypographyScale_entries (typography designSystem))
      (fun css '(size_, props) =>
         let css := css ++ ("  --text-" ++ size_ ++ ": " ++ size props
                            ++ ";" ++ nl) in
         let css := css ++ ("  --leading-" ++ size_ ++ ": " ++ lineHeight props
                            ++ ";" ++ nl) in
         css ++ ("  --weight-" ++ size_ ++ ": " ++ weight props ++ ";" ++ nl))
      css in
  (* Spacing *)
  let css :=
    forEachIndexed (spacing designSystem)
      (fun css space index =>
         css ++ ("  --spacing-" ++ num_to_string (index + 1) ++ ": " ++ space
                 ++ ";" ++ nl))
      css in
  (* Border Radius *)
  let css :=
    forEachIndexed (borderRadius designSystem)
      (fun css radius index =>
         css ++ ("  --radius-" ++ num_to_string index ++ ": " ++ radius
                 ++ ";" ++ nl))
      css in
  let css := css ++ ("  --font-family: " ++ fontFamily designSystem ++ ";" ++ nl) in
  let css := css ++ ("}" ++ nl) in
  css.

(** ** Exporters of the export dialog (App.tsx) *)

Module ExportModal.

(** The JSON image of [designSystem.typography]. *)
Definition typography_json (t : TypographyScale) : json :=
  JObject (map (fun '(k, e) =>
                  (k, JObject [("size", JString (size e));
                               ("lineHeight", JString (lineHeight e));
                               ("weight", JString (weight e))]))
               (TypographyScale_entries t)).

(** The [colors] object of [generateTailwindConfig]. *)
Definition tailwindColors (designSystem : DesignSystem) : Obj.t json :=
  forEach (ColorPalette_entries (colors designSystem))
    (fun colors_ '(colorName, shades) =>
       let colors_ := Obj.set colorName (JObject []) colors_ in
       forEach (ColorShade_entries shades)
         (fun colors_ '(shade, value) =>
            match Obj.get colorName colors_ with
            | Some (JObject inner) =>
                Obj.update colorName (JObject (Obj.set shade (JString value) inner))
                  colors_
            | _ => colors_
            end)
         colors_)
    [].

Definition tailwindSpacing (designSystem : DesignSystem) : Obj.t json :=
  reduce (spacing designSystem)
    (fun acc space index => Obj.set (num_to_string (index + 1)) (JString space) acc)
    [].

Definition tailwindBorderRadius (designSystem : DesignSystem) : Obj.t json :=
  reduce (borderRadius designSystem)
    (fun acc radius index => Obj.set (num_to_string index) (JString radius) acc)
    [].

Definition tailwindConfig (designSystem : DesignSystem) : json :=
  JObject
    [("theme", JObject
       [("extend", JObject
          [("colors", JObject (tailwindColors designSystem));
           ("fontFamily", JObject
              [("sans", JArray [JString (fontFamily designSystem)])]);
           ("fontSize", typography_json (typography designSystem));
           ("spacing", JObject (tailwindSpacing designSystem));
           ("borderRadius", JObject (tailwindBorderRadius designSystem))])])].

Definition generateTailwindConfig (designSystem : DesignSystem) : string :=
  JSON.stringify (tailwindConfig designSystem).

Definition generateSCSSVariables (designSystem : DesignSystem) : string :=
  let scss := "// " ++ name designSystem ++ " - Design System Variables"
              ++ nl ++ nl in
  (* Colors *)
  let scss := scss ++ ("// Colors" ++ nl) in
  let scss :=
    forEach (ColorPalette_entries (colors designSystem))
      (fun scss '(colorName, shades) =>
         forEach (ColorShade_entries shades)
           (fun scss '(shade, value) =>
              scss ++ ("$" ++ colorName ++ "-" ++ shade ++ ": " ++ value
                       ++ ";" ++ nl))
           scss)
      scss in
  (* Typography *)
  let scss := scss ++ (nl ++ "// Typography" ++ nl) in
  let scss := scss ++ ("$font-family-base: " ++ fontFamily designSystem
                       ++ ";" ++ nl) in
  let scss :=
    forEach (TypographyScale_entries (typography designSystem))
      (fun scss '(size_, props) =>
         let scss := scss ++ ("$font-size-" ++ size_ ++ ": " ++ size props
                              ++ ";" ++ nl) in
         let scss := scss ++ ("$line-height-" ++ size_ ++ ": "
                              ++ lineHeight props ++ ";" ++ nl) in
         scss ++ ("$font-weight-" ++ size_ ++ ": " ++ weight props ++ ";" ++ nl))
      scss in
  (* Spacing *)
  let scss := scss ++ (nl ++ "// Spacing" ++ nl) in
  let scss :=
    forEachIndexed (spacing designSystem)
      (fun scss space index =>
         scss ++ ("$spacing-" ++ num_to_string (index + 1) ++ ": " ++ space
                  ++ ";" ++ nl))
      scss in
  (* Border Radius *)
  let scss := scss ++ (nl ++ "// Border Radius" ++ nl) in
  let scss :=
    forEachIndexed (borderRadius designSystem)
      (fun scss radius index =>
         scss ++ ("$border-radius-" ++ num_to_string index ++ ": " ++ radius
                  ++ ";" ++ nl))
      scss in
  scss.

(** The four namespaces of [tokens.global], each filled in turn. *)
Definition tokensColors (designSystem : DesignSystem) : Obj.t json :=
  forEach (ColorPalette_entries (colors designSystem))
    (fun colors_ '(colorName, shades) =>
       let colors_ := Obj.set colorName (JObject []) colors_ in
       forEach (ColorShade_entries shades)
         (fun colors_ '(shade, value) =>
            match Obj.get colorName colors_ with
            | Some (JObject inner) =>
                Obj.update colorName
                  (JObject (Obj.set shade
                              (JObject [("value", JString value);
                                        ("type", JString "color")]) inner))
                  colors_
            | _ => colors_
            end)
         colors_)
    [].

Definition tokensTypography (designSystem : DesignSystem) : Obj.t json :=
  forEach (TypographyScale_entries (typography designSystem))
    (fun typography_ '(size_, props) =>
       Obj.set size_
         (JObject
            [("value", JObject
                [("fontSize", JString (size props));
                 ("lineHeight", JString (lineHeight props));
                 ("fontWeight", JString (weight props));
                 ("fontFamily", JString (fontFamily designSystem))]);
             ("type", JString "typography")])
         typography_)
    [].

Definition tokensSpacing (designSystem : DesignSystem) : Obj.t json :=
  forEachIndexed (spacing designSystem)
    (fun spacing_ space index =>
       Obj.set (num_to_string (index + 1))
         (JObject [("value", JString space); ("type", JString "spacing")])
         spacing_)
    [].

Definition tokensBorderRadius (designSystem : DesignSystem) : Obj.t json :=
  forEachIndexed (borderRadius designSystem)
    (fun radius_ radius index =>
       Obj.set (num_to_string index)
         (JObject [("value", JString radius); ("type", JString "borderRadius")])
         radius_)
    [].

Definition tokens (designSystem : DesignSystem) : json :=
  JObject
    [("global", JObject
       [("colors", JObject (tokensColors designSystem));
        ("typography", JObject (tokensTypography designSystem));
        ("spacing", JObject (tokensSpacing designSystem));
        ("borderRadius", JObject (tokensBorderRadius designSystem))])].

Definition generateTokensStudio (designSystem : DesignSystem) : string :=
  JSON.stringify (tokens designSystem).

End ExportModal.

(** The five export formats. *)
Inductive format := Figma | CSS | Tailwind | SCSS | Tokens.

Definition exporter (f : format) : DesignSystem -> string :=
  match f with
  | Figma => generateFigmaVariables
  | CSS => generateCSS
  | Tailwind => ExportModal.generateTailwindConfig
  | SCSS => ExportModal.generateSCSSVariables
  | Tokens => ExportModal.generateTokensStudio
  end.


(** ** Component generator (ComponentGenerator.tsx) *)

Module ComponentGenerator.

(** [type] is the string the record holds at run time: the union type of the
    source is not checked there. *)
Record ComponentConfig := mkComponentConfig {
  type : string;
  variant : string;
  size : string;
  text : string;
  props : Obj.t bool
}.

Module Template.
Record t := mk {
  variants : list string;
  sizes : list string;
  defaultText : string;
  props : list string
}.
End Template.

Definition componentTemplates : Obj.t Template.t :=
  [("button", Template.mk ["primary"; "secondary"; "outline"; "destructive"]
                ["sm"; "md"; "lg"] "Click me" ["disabled"; "loading"]);
   ("card", Template.mk ["default"; "outlined"]
                ["sm"; "md"; "lg"] "Card Title" ["shadow"; "hover"]);
   ("input", Template.mk ["default"; "filled"]
                ["sm"; "md"; "lg"] "Enter text..." ["disabled"; "error"]);
   ("badge", Template.mk ["default"; "secondary"; "destructive"; "outline"]
                ["sm"; "md"; "lg"] "Badge" ["rounded"]);
   ("alert", Template.mk ["default"; "destructive"; "warning"; "success"]
                ["md"] "This is an alert message" ["dismissible"])].

(** The initial state of [selectedComponent]. *)
Definition initialComponent : ComponentConfig :=
  mkComponentConfig "button" "primary" "md" "Click me" [].

(** *** State updates *)

(** A functional update handed to [setSelectedComponent]. *)
Definition updater : Type := ComponentConfig -> ComponentConfig.

(** React applies the queued functional updates in the order of the calls. *)
Definition setSelectedComponent (queue : list updater) (prev : ComponentConfig)
  : ComponentConfig :=
  fold_left (fun state u => u state) queue prev.

Inductive field := f_type | f_variant | f_size | f_text | f_props.

Definition field_value (f : field) : Type :=
  match f with
  | f_props => Obj.t bool
  | _ => string
  end.

(** [{ ...prev, [field]: value }]. *)
Definition updateComponent (f : field) : field_value f -> updater :=
  match f with
  | f_type => fun value prev =>
      mkComponentConfig value (variant prev) (size prev) (text prev) (props prev)
  | f_variant => fun value prev =>
      mkComponentConfig (type prev) value (size prev) (text prev) (props prev)
  | f_size => fun value prev =>
      mkComponentConfig (type prev) (variant prev) value (text prev) (props prev)
  | f_text => fun value prev =>
      mkComponentConfig (type prev) (variant prev) (size prev) value (props prev)
  | f_props => fun value prev =>
      mkComponentConfig (type prev) (variant prev) (size prev) (text prev) value
  end.

(** [{ ...prev, props: { ...prev.props, [propName]: value } }]. *)
Definition updateProp (propName : string) (value : bool) : updater :=
  fun prev =>
    mkComponentConfig (type prev) (variant prev) (size prev) (text prev)
      (Obj.set propName value (props prev)).

(** The [onChange] handler of the type selector.  [None] is the [TypeError]
    raised when [componentTemplates[type]] is [undefined].  Every entry of the
    registry lists at least one variant and one size, so index [0] exists. *)
Definition onTypeChange (type_ : string) (prev : ComponentConfig)
  : option ComponentConfig :=
  match Obj.get type_ componentTemplates with
  | None => None
  | Some template =>
      Some (setSelectedComponent
              [updateComponent f_type type_;
               updateComponent f_variant (hd "undefined" (Template.variants template));
               updateComponent f_size (hd "undefined" (Template.sizes template));
               updateComponent f_text (Template.defaultText template);
               updateComponent f_props []]
              prev)
  end.

(** *** Source text of a component *)

(** The names of the properties whose value is truthy, joined by spaces. *)
Definition props_attributes (props_ : Obj.t bool) : string :=
  Str.join " "
    (map (fun '(key, _) => key)
         (filter (fun '(_, value) => value) props_)).

Definition generateComponentCode (component : ComponentConfig) : string :=
  let props_ := props_attributes (props component) in
  if String.eqb (type component) "button" then
    "<Button variant=" ++ dq ++ variant component ++ dq
    ++ " size=" ++ dq ++ size component ++ dq ++ " " ++ props_ ++ ">" ++ nl
    ++ "  " ++ text component ++ nl
    ++ "</Button>"
  else if String.eqb (type component) "card" then
    "<Card className=" ++ dq
    ++ (if String.eqb (size component) "lg" then "p-6" else "p-4") ++ dq
    ++ " " ++ props_ ++ ">" ++ nl
    ++ "  <CardHeader>" ++ nl
    ++ "    <CardTitle>" ++ text component ++ "</CardTitle>" ++ nl
    ++ "  </CardHeader>" ++ nl
    ++ "  <CardContent>" ++ nl
    ++ "    Card content goes here..." ++ nl
    ++ "  </CardContent>" ++ nl
    ++ "</Card>"
  else if String.eqb (type component) "input" then
    "<Input " ++ nl
    ++ "  placeholder=" ++ dq ++ text component ++ dq ++ nl
    ++ "  size=" ++ dq ++ size component ++ dq ++ nl
    ++ "  " ++ props_ ++ nl
    ++ "/>"
  else if String.eqb (type component) "badge" then
    "<Badge variant=" ++ dq ++ variant component ++ dq ++ " " ++ props_ ++ ">" ++ nl
    ++ "  " ++ text component ++ nl
    ++ "</Badge>"
  else if String.eqb (type component) "alert" then
    "<Alert variant=" ++ dq ++ variant component ++ dq ++ " " ++ props_ ++ ">" ++ nl
    ++ "  <AlertDescription>" ++ nl
    ++ "    " ++ text component ++ nl
    ++ "  </AlertDescription>" ++ nl
    ++ "</Alert>"
  else EmptyString.

(** *** Preview *)

(** A rendered element: its tag, class, remaining attributes and children. *)
Inductive vnode : Type :=
| Text (s : string)
| Elem (tag : string) (className : string)
       (attrs : list (string * option string)) (children : list vnode).

(** A looked-up style inside a template literal; a miss prints [undefined].
    Properties inherited from [Object.prototype] are not modelled. *)
Definition interpolate (v : option string) : string :=
  match v with Some s => s | None => "undefined" end.

Definition truthy (v : option bool) : bool :=
  match v with Some b => b | None => false end.

(** The value of a boolean attribute such as [disabled={...}]. *)
Definition bool_attr (v : option bool) : option string :=
  match v with
  | Some true => Some "true"
  | Some false => Some "false"
  | None => None
  end.

Definition baseClasses : string := "rounded-lg transition-all".

Definition buttonVariants : Obj.t string :=
  [("primary", "bg-primary text-primary-foreground hover:bg-primary/90");
   ("secondary", "bg-secondary text-secondary-foreground hover:bg-secondary/90");
   ("outline", "border border-border bg-background hover:bg-accent");
   ("destructive", "bg-destructive text-destructive-foreground hover:bg-destructive/90")].

Definition buttonSizes : Obj.t string :=
  [("sm", "px-3 py-1.5 text-sm"); ("md", "px-4 py-2"); ("lg", "px-6 py-3 text-lg")].

Definition cardSizes : Obj.t string :=
  [("sm", "p-3"); ("md", "p-4"); ("lg", "p-6")].

Definition inputSizes : Obj.t string :=
  [("sm", "px-2 py-1 text-sm"); ("md", "px-3 py-2"); ("lg", "px-4 py-3 text-lg")].

Definition badgeVariants : Obj.t string :=
  [("default", "bg-primary text-primary-foreground");
   ("secondary", "bg-secondary text-secondary-foreground");
   ("destructive", "bg-destructive text-destructive-foreground");
   ("outline", "border border-border text-foreground")].

Definition badgeSizes : Obj.t string :=
  [("sm", "px-2 py-0.5 text-xs"); ("md", "px-2.5 py-0.5 text-sm"); ("lg", "px-3 py-1")].

Definition alertVariants : Obj.t string :=
  [("default", "bg-accent text-accent-foreground border-border");
   ("destructive", "bg-destructive/10 text-destructive border-destructive/20");
   ("warning", "bg-yellow-50 text-yellow-800 border-yellow-200");
   ("success", "bg-green-50 text-green-800 border-green-200")].

(** [None] is [null]: nothing is rendered. *)
Definition renderPreview (component : ComponentConfig) : option vnode :=
  let prop p := Obj.get p (props component) in
  if String.eqb (type component) "button" then
    Some (Elem "button"
            (baseClasses ++ " "
             ++ interpolate (Obj.get (variant component) buttonVariants) ++ " "
             ++ interpolate (Obj.get (size component) buttonSizes) ++ " "
             ++ (if truthy (prop "disabled") then "opacity-50 cursor-not-allowed" else EmptyString))
            [("disabled", bool_attr (prop "disabled"))]
            [Text (if truthy (prop "loading") then "Loading..." else text component)])
  else if String.eqb (type component) "card" then
    Some (Elem "div"
            (baseClasses ++ " border border-border bg-card "
             ++ interpolate (Obj.get (size component) cardSizes) ++ " "
             ++ (if truthy (prop "hover") then "hover:shadow-md" else EmptyString) ++ " "
             ++ (if truthy (prop "shadow") then "shadow-sm" else EmptyString))
            []
            [Elem "h4" "mb-2 text-card-foreground" [] [Text (text component)];
             Elem "p" "text-sm text-muted-foreground" []
               [Text "This is a sample card component with customizable content."]])
  else if String.eqb (type component) "input" then
    Some (Elem "input"
            (baseClasses ++ " border border-border bg-background "
             ++ interpolate (Obj.get (size component) inputSizes) ++ " "
             ++ (if truthy (prop "error") then "border-destructive" else EmptyString) ++ " "
             ++ (if truthy (prop "disabled") then "opacity-50 cursor-not-allowed" else EmptyString))
            [("placeholder", Some (text component));
             ("disabled", bool_attr (prop "disabled"))]
            [])
  else if String.eqb (type component) "badge" then
    Some (Elem "span"
            ("inline-flex items-center " ++ baseClasses ++ " "
             ++ interpolate (Obj.get (variant component) badgeVariants) ++ " "
             ++ interpolate (Obj.get (size component) badgeSizes) ++ " "
             ++ (if truthy (prop "rounded") then "rounded-full" else EmptyString))
            []
            [Text (text component)])
  else if String.eqb (type component) "alert" then
    Some (Elem "div"
            (baseClasses ++ " border p-4 "
             ++ interpolate (Obj.get (variant component) alertVariants))
            []
            (Elem "p" EmptyString [] [Text (text component)]
             :: (if truthy (prop "dismissible")
                 then [Elem "button" "ml-2 text-sm underline" [] [Text "Dismiss"]]
                 else [])))
  else None.

(** The five component kinds of the registry. *)
Definition known_type (t : string) : Prop :=
  In t ["button"; "card"; "input"; "badge"; "alert"].

(** The names of the properties of [ps] whose value is [true], in the
    enumeration order of [ps]. *)
Definition true_props (ps : Obj.t bool) : list string :=
  filter (fun k => truthy (Obj.get k ps)) (Obj.keys ps).

(** The snippet spells out the variant, the size and the text. *)
Definition interpolates_all (c : ComponentConfig) : Prop :=
  Str.contains (variant c) (generateComponentCode c) = true
  /\ Str.contains (size c) (generateComponentCode c) = true
  /\ Str.contains (text c) (generateComponentCode c) = true.

(** The configuration of the example of section 8. *)
Definition example_button : ComponentConfig :=
  mkComponentConfig "button" "primary" "md" "Click me"
    (Obj.set "loading" false (Obj.set "disabled" true [])).

(** A button whose text spells the name of a prop that is switched off. *)
Definition loading_text_button : ComponentConfig :=
  mkComponentConfig "button" "primary" "md" "Now loading"
    (Obj.set "loading" false (Obj.set "loading" true [])).

End ComponentGenerator.

(** ** Observations the statements are written with *)

(** The characters a numeral is made of. *)
Definition numeral_char (a : ascii) : bool :=
  let n := N_of_ascii a in ((48 <=? n) && (n <=? 57) || (n =? 45))%N.

(** The colours of a shade, read back from its entries in step order. *)
Definition ColorShade_colors (c : ColorShade) : list (option hsl) :=
  map (fun kv => parse_hsl (snd kv)) (ColorShade_entries c).

(** The ten steps, the lightness table and the per-step saturation of
    section 4.1. *)
Definition step_keys : list string :=
  ["50"; "100"; "200"; "300"; "400"; "500"; "600"; "700"; "800"; "900"].

Definition step_lightness : list Z := [95; 90; 80; 70; 60; 50; 40; 30; 20; 10].

Definition step_saturation (s : Z) : list Z :=
  [Z.max (s - 40) 10; Z.max (s - 30) 15; Z.max (s - 20) 20; Z.max (s - 10) 25;
   s; s; s; Z.min (s + 10) 100; Z.min (s + 20) 100; Z.min (s + 30) 100].

(** The seven roles of a palette. *)
Definition role_names : list string :=
  ["primary"; "secondary"; "accent"; "neutral"; "success"; "warning"; "error"].

(** The palette [generateRandomPalette] returns in world [w], and the primary
    hue it draws there. *)
Definition drawn_palette (w : World) : ColorPalette := fst (generateRandomPalette w).

Definition drawn_hue (w : World) : Z := fst (random_below 360 w).

(** The properties other than [k], in enumeration order. *)
Definition others {V} (k : string) (o : Obj.t V) : Obj.t V :=
  filter (fun kv => negb (String.eqb (fst kv) k)) o.

(** ** The layout of the line-oriented exports, as section 4.3 words it *)

(** The elements of an array with their 0-based positions, from [i] on. *)
Fixpoint indexed_from {A} (i : Z) (l : list A) : list (Z * A) :=
  match l with
  | [] => []
  | x :: r => (i, x) :: indexed_from (i + 1) r
  end.

Definition indexed {A} (l : list A) : list (Z * A) := indexed_from 0 l.

(** One declaration of the stylesheet, on a line of its own. *)
Definition css_declaration (property value : string) : string :=
  "  --" ++ property ++ ": " ++ value ++ ";" ++ nl.

(** Colours: role in the outer loop, step in the inner loop. *)
Definition css_colors (ds : DesignSystem) : list string :=
  flat_map (fun '(role, shades) =>
              map (fun '(step, value) => css_declaration (role ++ "-" ++ step) value)
                  (ColorShade_entries shades))
           (ColorPalette_entries (colors ds)).

(** Typography: three declarations for each size. *)
Definition css_typography (ds : DesignSystem) : list string :=
  flat_map (fun '(size_, e) =>
              [css_declaration ("text-" ++ size_) (size e);
               css_declaration ("leading-" ++ size_) (lineHeight e);
               css_declaration ("weight-" ++ size_) (weight e)])
           (TypographyScale_entries (typography ds)).

(** Spacing in array order, position [n] under the key [n + 1]. *)
Definition css_spacing (ds : DesignSystem) : list string :=
  map (fun '(n, space) => css_declaration ("spacing-" ++ num_to_string (n + 1)) space)
      (indexed (spacing ds)).

(** Radius in array order, position [n] under the key [n]. *)
Definition css_radius (ds : DesignSystem) : list string :=
  map (fun '(n, radius) => css_declaration ("radius-" ++ num_to_string n) radius)
      (indexed (borderRadius ds)).

Definition css_font (ds : DesignSystem) : string :=
  css_declaration "font-family" (fontFamily ds).

Definition css_declarations (ds : DesignSystem) : list string :=
  (css_colors ds ++ css_typography ds ++ css_spacing ds ++ css_radius ds
   ++ [css_font ds])%list.

(** One variable of the preprocessor export, on a line of its own. *)
Definition scss_variable (variable value : string) : string :=
  "$" ++ variable ++ ": " ++ value ++ ";" ++ nl.

Definition scss_colors (ds : DesignSystem) : list string :=
  flat_map (fun '(role, shades) =>
              map (fun '(step, value) => scss_variable (role ++ "-" ++ step) value)
                  (ColorShade_entries shades))
           (ColorPalette_entries (colors ds)).

Definition scss_typography (ds : DesignSystem) : list string :=
  scss_variable "font-family-base" (fontFamily ds)
  :: flat_map (fun '(size_, e) =>
                 [scss_variable ("font-size-" ++ size_) (size e);
                  scss_variable ("line-height-" ++ size_) (lineHeight e);
                  scss_variable ("font-weight-" ++ size_) (weight e)])
              (TypographyScale_entries (typography ds)).

Definition scss_spacing (ds : DesignSystem) : list string :=
  map (fun '(n, space) => scss_variable ("spacing-" ++ num_to_string (n + 1)) space)
      (indexed (spacing ds)).

Definition scss_radius (ds : DesignSystem) : list string :=
  map (fun '(n, radius) => scss_variable ("border-radius-" ++ num_to_string n) radius)
      (indexed (borderRadius ds)).

(** ** A fixed design system and worlds to run the definitions on *)

Definition testDesignSystem : DesignSystem :=
  {| name := "Test";
     colors := {| primary := generateColorShade 210 70;
                  secondary := generateColorShade 30 60;
                  accent := generateColorShade 330 80;
                  neutral := generateColorShade 0 5;
                  success := generateColorShade 120 60;
                  warning := generateColorShade 45 80;
                  error := generateColorShade 0 70 |};
     typography := defaultTypography;
     spacing := defaultSpacing;
     borderRadius := defaultBorderRadius;
     fontFamily := "Inter, sans-serif" |}.

(** A world whose entropy source always yields 3/4. *)
Definition testWorld : World := mkWorld (fun _ => mkDouble 3 (-2)) 0 testDesignSystem.

(** ** Editing the design system (DesignSystemGenerator.tsx) *)

(** [{ ...palette, [colorName]: shades }] for the name of a role.  For any
    other name the source would add an eighth property, which a
    [ColorPalette] cannot hold: [None]. *)
Definition ColorPalette_set (colorName : string) (shades : ColorShade)
    (p : ColorPalette) : option ColorPalette :=
  if String.eqb colorName "primary" then
    Some (mkColorPalette shades (secondary p) (accent p) (neutral p)
            (success p) (warning p) (error p))
  else if String.eqb colorName "secondary" then
    Some (mkColorPalette (primary p) shades (accent p) (neutral p)
            (success p) (warning p) (error p))
  else if String.eqb colorName "accent" then
    Some (mkColorPalette (primary p) (secondary p) shades (neutral p)
            (success p) (warning p) (error p))
  else if String.eqb colorName "neutral" then
    Some (mkColorPalette (primary p) (secondary p) (accent p) shades
            (success p) (warning p) (error p))
  else if String.eqb colorName "success" then
    Some (mkColorPalette (primary p) (secondary p) (accent p) (neutral p)
            shades (warning p) (error p))
  else if String.eqb colorName "warning" then
    Some (mkColorPalette (primary p) (secondary p) (accent p) (neutral p)
            (success p) shades (error p))
  else if String.eqb colorName "error" then
    Some (mkColorPalette (primary p) (secondary p) (accent p) (neutral p)
            (success p) (warning p) shades)
  else None.

(** The name field: [setDesignSystem(prev => ({ ...prev, name }))]. *)
Definition setName (value : string) : M unit :=
  setDesignSystem (fun prev =>
    mkDesignSystem value (colors prev) (typography prev) (spacing prev)
      (borderRadius prev) (fontFamily prev)).

(** The font selector. *)
Definition setFontFamily (value : string) : M unit :=
  setDesignSystem (fun prev =>
    mkDesignSystem (name prev) (colors prev) (typography prev) (spacing prev)
      (borderRadius prev) value).

(** The "Shuffle All" button. *)
Definition shuffleAll : M unit :=
  palette <- generateRandomPalette ;;
  setDesignSystem (fun prev =>
    mkDesignSystem (name prev) palette (typography prev) (spacing prev)
      (borderRadius prev) (fontFamily prev)).

(** The shuffle button of one role, in [ColorShadeDisplay]: a new hue at
    saturation 70.  [None] when [colorName] is not a role. *)
Definition shuffleRole (colorName : string) : M (option unit) :=
  baseHue <- random_below 360 ;;
  let newShades := generateColorShade baseHue 70 in
  fun w =>
    match ColorPalette_set colorName newShades (colors (designSystem w)) with
    | Some palette =>
        let (_, w') :=
          setDesignSystem (fun prev =>
            mkDesignSystem (name prev) palette (typography prev) (spacing prev)
              (borderRadius prev) (fontFamily prev)) w in
        (Some tt, w')
    | None => (None, w)
    end.

(** What the user can do on the design system screen.  The role buttons are
    those of [Object.entries(designSystem.colors)], the fonts those of
    [fontFamilies]. *)
Inductive ds_event :=
| GenerateRandom
| EditName (value : string)
| SelectFont (value : string)
| ShuffleAll
| ShuffleRole (colorName : string).

Definition ds_offered (w : World) (e : ds_event) : Prop :=
  match e with
  | SelectFont value => In value fontFamilies
  | ShuffleRole colorName =>
      In colorName (map fst (ColorPalette_entries (colors (designSystem w))))
  | _ => True
  end.

Definition ds_handle (e : ds_event) (w : World) : World :=
  match e with
  | GenerateRandom => snd (generateRandomSystem w)
  | EditName value => snd (setName value w)
  | SelectFont value => snd (setFontFamily value w)
  | ShuffleAll => snd (shuffleAll w)
  | ShuffleRole colorName => snd (shuffleRole colorName w)
  end.

(** The world when the screen is first shown: the initial state is built
    with one draw. *)
Definition ds_start (w : World) : World :=
  let (ds, w') := initialDesignSystem w in
  mkWorld (entropy w') (cursor w') ds.

(** The worlds the screen can be in, from a first world [w0]. *)
Inductive ds_reachable (w0 : World) : World -> Prop :=
| ds_reach_start : ds_reachable w0 (ds_start w0)
| ds_reach_step (w : World) (e : ds_event) :
    ds_reachable w0 w -> ds_offered w e -> ds_reachable w0 (ds_handle e w).

(** A shade whose ten colours are valid. *)
Definition valid_shade (c : ColorShade) : Prop :=
  Forall (fun v => exists x, v = Some x /\ valid_hsl x) (ColorShade_colors c).

(** A list of numbers that never decreases. *)
Fixpoint nondecreasing (l : list Z) : Prop :=
  match l with
  | a :: (b :: _) as r => a <= b /\ nondecreasing r
  | _ => True
  end.

(** The saturations and the hues of a shade, read back in step order. *)
Definition shade_saturations (c : ColorShade) : list Z :=
  flat_map (fun v => match v with Some x => [sat x] | None => [] end)
           (ColorShade_colors c).

Definition shade_hues (c : ColorShade) : list Z :=
  flat_map (fun v => match v with Some x => [hue x] | None => [] end)
           (ColorShade_colors c).

(** A palette whose seven shades are valid. *)
Definition valid_palette (p : ColorPalette) : Prop :=
  Forall (fun kv => valid_shade (snd kv)) (ColorPalette_entries p).

(** ** The layout of the structured exports *)

(** The entries of the structured-variable export, group by group. *)
Definition figma_colors (ds : DesignSystem) : Obj.t json :=
  flat_map (fun '(role, shades) =>
              map (fun '(step, value) =>
                     ("color/" ++ role ++ "/" ++ step, JString value))
                  (ColorShade_entries shades))
           (ColorPalette_entries (colors ds)).

Definition figma_typography (ds : DesignSystem) : Obj.t json :=
  flat_map (fun '(size_, e) =>
              [("typography/" ++ size_ ++ "/size", JString (size e));
               ("typography/" ++ size_ ++ "/lineHeight", JString (lineHeight e));
               ("typography/" ++ size_ ++ "/weight", JString (weight e))])
           (TypographyScale_entries (typography ds)).

Definition figma_spacing (ds : DesignSystem) : Obj.t json :=
  map (fun '(n, space) => ("spacing/" ++ num_to_string (n + 1), JString space))
      (indexed (spacing ds)).

Definition figma_radius (ds : DesignSystem) : Obj.t json :=
  map (fun '(n, radius) => ("radius/" ++ num_to_string n, JString radius))
      (indexed (borderRadius ds)).

Definition figma_layout (ds : DesignSystem) : Obj.t json :=
  (figma_colors ds ++ figma_typography ds ++ figma_spacing ds ++ figma_radius ds
   ++ [("font/family", JString (fontFamily ds))])%list.

(** Role to step to value, for the build-tool configuration. *)
Definition tailwind_colors_layout (ds : DesignSystem) : Obj.t json :=
  map (fun '(role, shades) =>
         (role, JObject (map (fun '(step, value) => (step, JString value))
                             (ColorShade_entries shades))))
      (ColorPalette_entries (colors ds)).

(** A leaf of the token file. *)
Definition token (value : json) (type_ : string) : json :=
  JObject [("value", value); ("type", JString type_)].

Definition tokens_colors_layout (ds : DesignSystem) : Obj.t json :=
  map (fun '(role, shades) =>
         (role, JObject (map (fun '(step, value) =>
                                (step, token (JString value) "color"))
                             (ColorShade_entries shades))))
      (ColorPalette_entries (colors ds)).

Definition tokens_typography_layout (ds : DesignSystem) : Obj.t json :=
  map (fun '(size_, e) =>
         (size_, token (JObject [("fontSize", JString (size e));
                                 ("lineHeight", JString (lineHeight e));
                                 ("fontWeight", JString (weight e));
                                 ("fontFamily", JString (fontFamily ds))])
                       "typography"))
      (TypographyScale_entries (typography ds)).

(** ** The component builder as a state machine (ComponentGenerator.tsx) *)

Module ComponentBuilder.
Import ComponentGenerator.

(** The two pieces of state of [ComponentGenerator] that the logic uses. *)
Record State := mkState {
  selectedComponent : ComponentConfig;
  generatedComponents : list ComponentConfig
}.

Definition initialState : State := mkState initialComponent [].

(** [generateComponent]: a copy of the selected component is appended. *)
Definition generateComponent (s : State) : State :=
  let newComponent :=
    mkComponentConfig (type (selectedComponent s)) (variant (selectedComponent s))
      (size (selectedComponent s)) (text (selectedComponent s))
      (props (selectedComponent s)) in
  mkState (selectedComponent s) (generatedComponents s ++ [newComponent])%list.

(** What the user can do in the builder. *)
Inductive event :=
| SelectType (value : string)
| SelectVariant (value : string)
| SelectSize (value : string)
| EditText (value : string)
| Toggle (prop : string) (checked : bool)
| Generate.

(** The handlers of the controls.  [None] is the [TypeError] of the type
    selector on a type without a template. *)
Definition handle (e : event) (s : State) : option State :=
  let on_selected (c : option ComponentConfig) :=
    match c with
    | Some c' => Some (mkState c' (generatedComponents s))
    | None => None
    end in
  match e with
  | SelectType value => on_selected (onTypeChange value (selectedComponent s))
  | SelectVariant value =>
      on_selected (Some (updateComponent f_variant value (selectedComponent s)))
  | SelectSize value =>
      on_selected (Some (updateComponent f_size value (selectedComponent s)))
  | EditText value =>
      on_selected (Some (updateComponent f_text value (selectedComponent s)))
  | Toggle prop checked =>
      on_selected (Some (updateProp prop checked (selectedComponent s)))
  | Generate => Some (generateComponent s)
  end.

(** The options and switches the view renders in state [s]: the types are
    the keys of [componentTemplates]; the variants, sizes and switches are
    those of the template of the selected type. *)
Definition offered (s : State) (e : event) : Prop :=
  match e with
  | SelectType value => In value (Obj.keys componentTemplates)
  | SelectVariant value =>
      exists t, Obj.get (type (selectedComponent s)) componentTemplates = Some t
                /\ In value (Template.variants t)
  | SelectSize value =>
      exists t, Obj.get (type (selectedComponent s)) componentTemplates = Some t
                /\ In value (Template.sizes t)
  | Toggle prop _ =>
      exists t, Obj.get (type (selectedComponent s)) componentTemplates = Some t
                /\ In prop (Template.props t)
  | EditText _ => True
  | Generate => True
  end.

Inductive reachable : State -> Prop :=
| reach_initial : reachable initialState
| reach_step (s s' : State) (e : event) :
    reachable s -> offered s e -> handle e s = Some s' -> reachable s'.

(** A configuration that agrees with the registry: its type has a template,
    its variant and size are declared there, and its props are switches of
    that template, each listed once. *)
Definition consistent (c : ComponentConfig) : Prop :=
  exists t, Obj.get (type c) componentTemplates = Some t
    /\ In (variant c) (Template.variants t)
    /\ In (size c) (Template.sizes t)
    /\ (forall k, In k (Obj.keys (props c)) -> In k (Template.props t))
    /\ Obj.wf (props c).

(** The class of the element a preview renders. *)
Definition root_class (v : option vnode) : string :=
  match v with
  | Some (Elem _ className _ _) => className
  | _ => EmptyString
  end.

(** Every variant and every size the registry declares, for any type. *)
Definition registry_variants : list string :=
  flat_map (fun kv => Template.variants (snd kv)) componentTemplates.

Definition registry_sizes : list string :=
  flat_map (fun kv => Template.sizes (snd kv)) componentTemplates.

(** The types whose preview looks the variant up in a style table. *)
Definition styled_by_variant : list string := ["button"; "badge"; "alert"].

End ComponentBuilder.

(** ** The exporters on a store of shared objects

    The exporters receive the design system by reference and build their
    result in objects they mutate.  Here the objects live in a store, so that
    a write to the design system, or a result that depends on what an earlier
    call left behind, can be expressed. *)

Module Store.

(** A JavaScript value of the exporters: a string or a reference to an
    object or an array of the store. *)
Inductive value :=
| VStr (s : string)
| VRef (address : nat).

Inductive cell :=
| CObj (properties : Obj.t value)
| CArr (items : list value).

(** The store: the cell at position [a] is the object of address [a]. *)
Definition store := list cell.

(** A computation on the store.  [None] stands for every run that leaves the
    well-formed case: a [TypeError], the read of a missing property, an array
    where an object is expected or an object where an array is. *)
Definition P (A : Type) : Type := store -> option (A * store).

Definition ret {A} (a : A) : P A := fun h => Some (a, h).

Definition bind {A B} (p : P A) (k : A -> P B) : P B :=
  fun h => match p h with
           | Some (a, h') => k a h'
           | None => None
           end.

Notation "x <~ p ;; k" := (bind p (fun x => k))
  (at level 61, p at next level, right associativity).

(** The list [l] with the element at position [i] replaced by [c]. *)
Fixpoint upd {A} (i : nat) (c : A) (l : list A) : list A :=
  match l, i with
  | [], _ => []
  | _ :: r, O => c :: r
  | x :: r, S j => x :: upd j c r
  end.

(** A new object or array: [{}], [[x]], an object literal. *)
Definition alloc (c : cell) : P nat :=
  fun h => Some (List.length h, (h ++ [c])%list).

(** [v.k] and [v[k]]. *)
Definition get_prop (v : value) (k : string) : P value :=
  fun h => match v with
           | VRef a =>
               match nth_error h a with
               | Some (CObj o) =>
                   match Obj.get k o with
                   | Some x => Some (x, h)
                   | None => None
                   end
               | _ => None
               end
           | VStr _ => None
           end.

(** [v[k] = x]. *)
Definition set_prop (v : value) (k : string) (x : value) : P unit :=
  fun h => match v with
           | VRef a =>
               match nth_error h a with
               | Some (CObj o) => Some (tt, upd a (CObj (Obj.set k x o)) h)
               | _ => None
               end
           | VStr _ => None
           end.

(** [Object.entries(v)]. *)
Definition entries (v : value) : P (list (string * value)) :=
  fun h => match v with
           | VRef a =>
               match nth_error h a with
               | Some (CObj o) => Some (o, h)
               | _ => None
               end
           | VStr _ => None
           end.

(** The elements [v.forEach] and [v.reduce] visit. *)
Definition elements (v : value) : P (list value) :=
  fun h => match v with
           | VRef a =>
               match nth_error h a with
               | Some (CArr items) => Some (items, h)
               | _ => None
               end
           | VStr _ => None
           end.

(** A value inside a template literal. *)
Definition to_string (v : value) : string :=
  match v with
  | VStr s => s
  | VRef _ => "[object Object]"
  end.

(** [l.forEach(x => ...)], the body updating the variables [S] it closes
    over and the store. *)
Fixpoint forEachP {A S} (l : list A) (body : S -> A -> P S) (s : S) : P S :=
  match l with
  | [] => ret s
  | x :: r => s' <~ body s x ;; forEachP r body s'
  end.

Fixpoint forEachP_from {A S} (index : Z) (l : list A)
    (body : S -> A -> Z -> P S) (s : S) : P S :=
  match l with
  | [] => ret s
  | x :: r => s' <~ body s x index ;; forEachP_from (index + 1) r body s'
  end.

Definition forEachIndexedP {A S} (l : list A) (body : S -> A -> Z -> P S) (s : S)
  : P S :=
  forEachP_from 0 l body s.

Definition reduceP {A S} (l : list A) (body : S -> A -> Z -> P S) (s : S) : P S :=
  forEachP_from 0 l body s.

(** The properties of an object and the items of an array, each serialised
    by [reify]; nothing when one of them cannot be. *)
Definition reify_props (reify : value -> option json) (o : Obj.t value)
  : option (Obj.t json) :=
  fold_right (fun kv acc =>
                match reify (snd kv), acc with
                | Some j, Some r => Some ((fst kv, j) :: r)
                | _, _ => None
                end) (Some []) o.

Definition reify_items (reify : value -> option json) (items : list value)
  : option (list json) :=
  fold_right (fun x acc =>
                match reify x, acc with
                | Some j, Some r => Some (j :: r)
                | _, _ => None
                end) (Some []) items.

(** The JSON value a stored value denotes, following references at most
    [fuel] deep. *)
Fixpoint reify (fuel : nat) (h : store) (v : value) : option json :=
  match v with
  | VStr s => Some (JString s)
  | VRef a =>
      match fuel with
      | O => None
      | S n =>
          match nth_error h a with
          | Some (CObj o) => option_map JObject (reify_props (reify n h) o)
          | Some (CArr items) => option_map JArray (reify_items (reify n h) items)
          | None => None
          end
      end
  end.

(** [JSON.stringify(v, null, 2)].  A chain of references longer than the
    store has objects runs through a cycle, on which the serialiser throws. *)
Definition stringify (v : value) : P string :=
  fun h => match reify (S (List.length h)) h v with
           | Some j => Some (JSON.stringify j, h)
           | None => None
           end.

(** *** The five exporters *)

Definition generateFigmaVariables (designSystem : value) : P string :=
  variables <~ alloc (CObj []) ;;
  let variables := VRef variables in
  (* Colors *)
  colors <~ get_prop designSystem "colors" ;;
  colorEntries <~ entries colors ;;
  _ <~ forEachP colorEntries
         (fun _ kv =>
            let colorName := fst kv in
            shadeEntries <~ entries (snd kv) ;;
            forEachP shadeEntries
              (fun _ sv =>
                 set_prop variables ("color/" ++ colorName ++ "/" ++ fst sv) (snd sv))
              tt)
         tt ;;
  (* Typography *)
  typography <~ get_prop designSystem "typography" ;;
  typographyEntries <~ entries typography ;;
  _ <~ forEachP typographyEntries
         (fun _ kv =>
            let size_ := fst kv in
            let props := snd kv in
            x <~ get_prop props "size" ;;
            _ <~ set_prop variables ("typography/" ++ size_ ++ "/size") x ;;
            x <~ get_prop props "lineHeight" ;;
            _ <~ set_prop variables ("typography/" ++ size_ ++ "/lineHeight") x ;;
            x <~ get_prop props "weight" ;;
            set_prop variables ("typography/" ++ size_ ++ "/weight") x)
         tt ;;
  (* Spacing *)
  spacing <~ get_prop designSystem "spacing" ;;
  spaces <~ elements spacing ;;
  _ <~ forEachIndexedP spaces
         (fun _ space index =>
            set_prop variables ("spacing/" ++ num_to_string (index + 1)) space)
         tt ;;
  (* Border Radius *)
  borderRadius <~ get_prop designSystem "borderRadius" ;;
  radii <~ elements borderRadius ;;
  _ <~ forEachIndexedP radii
         (fun _ radius index =>
            set_prop variables ("radius/" ++ num_to_string index) radius)
         tt ;;
  fontFamily <~ get_prop designSystem "fontFamily" ;;
  _ <~ set_prop variables "font/family" fontFamily ;;
  stringify variables.

Definition generateCSS (designSystem : value) : P string :=
  let css := ":root {" ++ nl in
  (* Colors *)
  colors <~ get_prop designSystem "colors" ;;
  colorEntries <~ entries colors ;;
  css <~ forEachP colorEntries
           (fun css kv =>
              let colorName := fst kv in
              shadeEntries <~ entries (snd kv) ;;
              forEachP shadeEntries
                (fun css sv =>
                   ret (css ++ ("  --" ++ colorName ++ "-" ++ fst sv ++ ": "
                                ++ to_string (snd sv) ++ ";" ++ nl)))
                css)
           css ;;
  (* Typography *)
  typography <~ get_prop designSystem "typography" ;;
  typographyEntries <~ entries typography ;;
  css <~ forEachP typographyEntries
           (fun css kv =>
              let size_ := fst kv in
              let props := snd kv in
              x <~ get_prop props "size" ;;
              let css := css ++ ("  --text-" ++ size_ ++ ": " ++ to_string x
                                 ++ ";" ++ nl) in
              x <~ get_prop props "lineHeight" ;;
              let css := css ++ ("  --leading-" ++ size_ ++ ": " ++ to_string x
                                 ++ ";" ++ nl) in
              x <~ get_prop props "weight" ;;
              ret (css ++ ("  --weight-" ++ size_ ++ ": " ++ to_string x
                           ++ ";" ++ nl)))
           css ;;
  (* Spacing *)
  spacing <~ get_prop designSystem "spacing" ;;
  spaces <~ elements spacing ;;
  css <~ forEachIndexedP spaces
           (fun css space index =>
              ret (css ++ ("  --spacing-" ++ num_to_string (index + 1) ++ ": "
                           ++ to_string space ++ ";" ++ nl)))
           css ;;
  (* Border Radius *)
  borderRadius <~ get_prop designSystem "borderRadius" ;;
  radii <~ elements borderRadius ;;
  css <~ forEachIndexedP radii
           (fun css radius index =>
              ret (css ++ ("  --radius-" ++ num_to_string index ++ ": "
                           ++ to_string radius ++ ";" ++ nl)))
           css ;;
  fontFamily <~ get_prop designSystem "fontFamily" ;;
  let css := css ++ ("  --font-family: " ++ to_string fontFamily ++ ";" ++ nl) in
  let css := css ++ ("}" ++ nl) in
  ret css.

Definition generateSCSSVariables (designSystem : value) : P string :=
  name_ <~ get_prop designSystem "name" ;;
  let scss := "// " ++ to_string name_ ++ " - Design System Variables"
              ++ nl ++ nl in
  (* Colors *)
  let scss := scss ++ ("// Colors" ++ nl) in
  colors <~ get_prop designSystem "colors" ;;
  colorEntries <~ entries colors ;;
  scss <~ forEachP colorEntries
            (fun scss kv =>
               let colorName := fst kv in
               shadeEntries <~ entries (snd kv) ;;
               forEachP shadeEntries
                 (fun scss sv =>
                    ret (scss ++ ("$" ++ colorName ++ "-" ++ fst sv ++ ": "
                                  ++ to_string (snd sv) ++ ";" ++ nl)))
                 scss)
            scss ;;
  (* Typography *)
  let scss := scss ++ (nl ++ "// Typography" ++ nl) in
  fontFamily <~ get_prop designSystem "fontFamily" ;;
  let scss := scss ++ ("$font-family-base: " ++ to_string fontFamily
                       ++ ";" ++ nl) in
  typography <~ get_prop designSystem "typography" ;;
  typographyEntries <~ entries typography ;;
  scss <~ forEachP typographyEntries
            (fun scss kv =>
               let size_ := fst kv in
               let props := snd kv in
               x <~ get_prop props "size" ;;
               let scss := scss ++ ("$font-size-" ++ size_ ++ ": " ++ to_string x
                                    ++ ";" ++ nl) in
               x <~ get_prop props "lineHeight" ;;
               let scss := scss ++ ("$line-height-" ++ size_ ++ ": "
                                    ++ to_string x ++ ";" ++ nl) in
               x <~ get_prop props "weight" ;;
               ret (scss ++ ("$font-weight-" ++ size_ ++ ": " ++ to_string x
                             ++ ";" ++ nl)))
            scss ;;
  (* Spacing *)
  let scss := scss ++ (nl ++ "// Spacing" ++ nl) in
  spacing <~ get_prop designSystem "spacing" ;;
  spaces <~ elements spacing ;;
  scss <~ forEachIndexedP spaces
            (fun scss space index =>
               ret (scss ++ ("$spacing-" ++ num_to_string (index + 1) ++ ": "
                             ++ to_string space ++ ";" ++ nl)))
            scss ;;
  (* Border Radius *)
  let scss := scss ++ (nl ++ "// Border Radius" ++ nl) in
  borderRadius <~ get_prop designSystem "borderRadius" ;;
  radii <~ elements borderRadius ;;
  scss <~ forEachIndexedP radii
            (fun scss radius index =>
               ret (scss ++ ("$border-radius-" ++ num_to_string index ++ ": "
                             ++ to_string radius ++ ";" ++ nl)))
            scss ;;
  ret scss.

Definition generateTailwindConfig (designSystem : value) : P string :=
  colors <~ alloc (CObj []) ;;
  let colors := VRef colors in
  paletteColors <~ get_prop designSystem "colors" ;;
  colorEntries <~ entries paletteColors ;;
  _ <~ forEachP colorEntries
         (fun _ kv =>
            let colorName := fst kv in
            inner <~ alloc (CObj []) ;;
            _ <~ set_prop colors colorName (VRef inner) ;;
            shadeEntries <~ entries (snd kv) ;;
            forEachP shadeEntries
              (fun _ sv =>
                 target <~ get_prop colors colorName ;;
                 set_prop target (fst sv) (snd sv))
              tt)
         tt ;;
  config <~ alloc (CObj []) ;;
  theme <~ alloc (CObj []) ;;
  extend <~ alloc (CObj []) ;;
  _ <~ set_prop (VRef extend) "colors" colors ;;
  fontFamily_ <~ alloc (CObj []) ;;
  font <~ get_prop designSystem "fontFamily" ;;
  sans <~ alloc (CArr [font]) ;;
  _ <~ set_prop (VRef fontFamily_) "sans" (VRef sans) ;;
  _ <~ set_prop (VRef extend) "fontFamily" (VRef fontFamily_) ;;
  typography <~ get_prop designSystem "typography" ;;
  _ <~ set_prop (VRef extend) "fontSize" typography ;;
  spacing <~ get_prop designSystem "spacing" ;;
  acc <~ alloc (CObj []) ;;
  spaces <~ elements spacing ;;
  acc <~ reduceP spaces
           (fun acc space index =>
              _ <~ set_prop acc (num_to_string (index + 1)) space ;;
              ret acc)
           (VRef acc) ;;
  _ <~ set_prop (VRef extend) "spacing" acc ;;
  borderRadius <~ get_prop designSystem "borderRadius" ;;
  acc <~ alloc (CObj []) ;;
  radii <~ elements borderRadius ;;
  acc <~ reduceP radii
           (fun acc radius index =>
              _ <~ set_prop acc (num_to_string index) radius ;;
              ret acc)
           (VRef acc) ;;
  _ <~ set_prop (VRef extend) "borderRadius" acc ;;
  _ <~ set_prop (VRef theme) "extend" (VRef extend) ;;
  _ <~ set_prop (VRef config) "theme" (VRef theme) ;;
  stringify (VRef config).

Definition generateTokensStudio (designSystem : value) : P string :=
  tokens <~ alloc (CObj []) ;;
  let tokens := VRef tokens in
  global <~ alloc (CObj []) ;;
  x <~ alloc (CObj []) ;;
  _ <~ set_prop (VRef global) "colors" (VRef x) ;;
  x <~ alloc (CObj []) ;;
  _ <~ set_prop (VRef global) "typography" (VRef x) ;;
  x <~ alloc (CObj []) ;;
  _ <~ set_prop (VRef global) "spacing" (VRef x) ;;
  x <~ alloc (CObj []) ;;
  _ <~ set_prop (VRef global) "borderRadius" (VRef x) ;;
  _ <~ set_prop tokens "global" (VRef global) ;;
  (* Colors *)
  colors <~ get_prop designSystem "colors" ;;
  colorEntries <~ entries colors ;;
  _ <~ forEachP colorEntries
         (fun _ kv =>
            let colorName := fst kv in
            global <~ get_prop tokens "global" ;;
            target <~ get_prop global "colors" ;;
            inner <~ alloc (CObj []) ;;
            _ <~ set_prop target colorName (VRef inner) ;;
            shadeEntries <~ entries (snd kv) ;;
            forEachP shadeEntries
              (fun _ sv =>
                 global <~ get_prop tokens "global" ;;
                 target <~ get_prop global "colors" ;;
                 target <~ get_prop target colorName ;;
                 token <~ alloc (CObj [("value", snd sv); ("type", VStr "color")]) ;;
                 set_prop target (fst sv) (VRef token))
              tt)
         tt ;;
  (* Typography *)
  typography <~ get_prop designSystem "typography" ;;
  typographyEntries <~ entries typography ;;
  _ <~ forEachP typographyEntries
         (fun _ kv =>
            let size_ := fst kv in
            let props := snd kv in
            global <~ get_prop tokens "global" ;;
            target <~ get_prop global "typography" ;;
            token <~ alloc (CObj []) ;;
            fontSize <~ get_prop props "size" ;;
            lineHeight_ <~ get_prop props "lineHeight" ;;
            fontWeight <~ get_prop props "weight" ;;
            fontFamily_ <~ get_prop designSystem "fontFamily" ;;
            value_ <~ alloc (CObj [("fontSize", fontSize);
                                   ("lineHeight", lineHeight_);
                                   ("fontWeight", fontWeight);
                                   ("fontFamily", fontFamily_)]) ;;
            _ <~ set_prop (VRef token) "value" (VRef value_) ;;
            _ <~ set_prop (VRef token) "type" (VStr "typography") ;;
            set_prop target size_ (VRef token))
         tt ;;
  (* Spacing *)
  spacing <~ get_prop designSystem "spacing" ;;
  spaces <~ elements spacing ;;
  _ <~ forEachIndexedP spaces
         (fun _ space index =>
            global <~ get_prop tokens "global" ;;
            target <~ get_prop global "spacing" ;;
            token <~ alloc (CObj [("value", space); ("type", VStr "spacing")]) ;;
            set_prop target (num_to_string (index + 1)) (VRef token))
         tt ;;
  (* Border Radius *)
  borderRadius <~ get_prop designSystem "borderRadius" ;;
  radii <~ elements borderRadius ;;
  _ <~ forEachIndexedP radii
         (fun _ radius index =>
            global <~ get_prop tokens "global" ;;
            target <~ get_prop global "borderRadius" ;;
            token <~ alloc (CObj [("value", radius); ("type", VStr "borderRadius")]) ;;
            set_prop target (num_to_string index) (VRef token))
         tt ;;
  stringify tokens.

Definition exporter (f : format) : value -> P string :=
  match f with
  | Figma => generateFigmaVariables
  | CSS => generateCSS
  | Tailwind => generateTailwindConfig
  | SCSS => generateSCSSVariables
  | Tokens => generateTokensStudio
  end.

(** *** The design system in the store *)

Definition store_shades (c : ColorShade) : cell :=
  CObj (map (fun kv => (fst kv, VStr (snd kv))) (ColorShade_entries c)).

Definition store_entry (e : TypographyEntry) : cell :=
  CObj [("size", VStr (size e));
        ("lineHeight", VStr (lineHeight e));
        ("weight", VStr (weight e))].

(** The twenty-one objects of the record [ds]: the record itself, then every
    nested object and string array in a cell of its own.  The object of
    number [j] is referred to by the address [place j]. *)
Definition store_designSystem (place : nat -> nat) (ds : DesignSystem)
  : list cell :=
  [ CObj [("name", VStr (name ds));
          ("colors", VRef (place 1%nat));
          ("typography", VRef (place 9%nat));
          ("spacing", VRef (place 19%nat));
          ("borderRadius", VRef (place 20%nat));
          ("fontFamily", VStr (fontFamily ds))];
    CObj [("primary", VRef (place 2%nat)); ("secondary", VRef (place 3%nat));
          ("accent", VRef (place 4%nat)); ("neutral", VRef (place 5%nat));
          ("success", VRef (place 6%nat)); ("warning", VRef (place 7%nat));
          ("error", VRef (place 8%nat))];
    store_shades (primary (colors ds));
    store_shades (secondary (colors ds));
    store_shades (accent (colors ds));
    store_shades (neutral (colors ds));
    store_shades (success (colors ds));
    store_shades (warning (colors ds));
    store_shades (error (colors ds));
    CObj [("xs", VRef (place 10%nat)); ("sm", VRef (place 11%nat));
          ("base", VRef (place 12%nat)); ("lg", VRef (place 13%nat));
          ("xl", VRef (place 14%nat)); ("2xl", VRef (place 15%nat));
          ("3xl", VRef (place 16%nat)); ("4xl", VRef (place 17%nat));
          ("5xl", VRef (place 18%nat))];
    store_entry (xs (typography ds));
    store_entry (sm (typography ds));
    store_entry (base (typography ds));
    store_entry (lg (typography ds));
    store_entry (xl (typography ds));
    store_entry (t2xl (typography ds));
    store_entry (t3xl (typography ds));
    store_entry (t4xl (typography ds));
    store_entry (t5xl (typography ds));
    CArr (map VStr (spacing ds));
    CArr (map VStr (borderRadius ds)) ].

(** The store [h] holds the objects of the record [ds] at the addresses
    [place]; the record itself is at [place 0]. *)
Definition represents (h : store) (place : nat -> nat) (ds : DesignSystem)
  : Prop :=
  forall j c,
    nth_error (store_designSystem place ds) j = Some c ->
    nth_error h (place j) = Some c.

(** [p] runs from [h] to the result [a] and the store [h']. *)
Definition runs {A} (p : P A) (h : store) (a : A) (h' : store) : Prop :=
  p h = Some (a, h').

End Store.

(** * Properties *)

(** ** Facts about strings and numerals *)

Lemma append_assoc (a b c : string) : (a ++ b) ++ c = a ++ (b ++ c).
Proof.
  induction a as [|x a IH]; simpl; [reflexivity | now rewrite IH].
Qed.

Lemma append_nil_r (a : string) : a ++ EmptyString = a.
Proof.
  induction a as [|x a IH]; simpl; [reflexivity | now rewrite IH].
Qed.

Lemma strip_prefix_app (p s : string) : Str.strip_prefix p (p ++ s) = Some s.
Proof.
  induction p as [|a p IH]; simpl.
  - reflexivity.
  - now rewrite Ascii.eqb_refl.
Qed.

Lemma split_at_app (c : ascii) (t r : string) :
  Str.all (fun a => negb (Ascii.eqb a c)) t = true ->
  Str.split_at c (t ++ String c r) = Some (t, r).
Proof.
  induction t as [|a t IH]; simpl; intros H.
  - now rewrite Ascii.eqb_refl.
  - apply andb_true_iff in H as [Ha Ht].
    apply negb_true_iff in Ha. rewrite Ha, (IH Ht). reflexivity.
Qed.

Lemma all_append (p : ascii -> bool) (a b : string) :
  Str.all p (a ++ b) = Str.all p a && Str.all p b.
Proof.
  induction a as [|x a IH]; simpl; [reflexivity|].
  now rewrite IH, andb_assoc.
Qed.

Lemma all_impl (p q : ascii -> bool) (s : string) :
  (forall a, p a = true -> q a = true) -> Str.all p s = true -> Str.all q s = true.
Proof.
  intros Hpq. induction s as [|a s IH]; simpl; [reflexivity|].
  intros H. apply andb_true_iff in H as [Ha Hs].
  now rewrite (Hpq _ Ha), (IH Hs).
Qed.

Lemma string_of_uint_numeral (d : Decimal.uint) :
  Str.all numeral_char (NilEmpty.string_of_uint d) = true.
Proof.
  induction d; simpl; try reflexivity; exact IHd.
Qed.

Lemma num_to_string_numeral (n : Z) : Str.all numeral_char (num_to_string n) = true.
Proof.
  unfold num_to_string. destruct (Z.to_int n) as [d|d]; simpl.
  - apply string_of_uint_numeral.
  - apply string_of_uint_numeral.
Qed.

Lemma num_to_string_avoids (c : ascii) (n : Z) :
  numeral_char c = false ->
  Str.all (fun a => negb (Ascii.eqb a c)) (num_to_string n) = true.
Proof.
  intros Hc. apply all_impl with (p := numeral_char).
  - intros a Ha. apply negb_true_iff. apply Ascii.eqb_neq.
    intros ->. congruence.
  - apply num_to_string_numeral.
Qed.

Lemma string_to_num_to_string (n : Z) : string_to_num (num_to_string n) = Some n.
Proof.
  unfold string_to_num, num_to_string.
  rewrite NilEmpty.isi. simpl. now rewrite DecimalZ.of_to.
Qed.

Lemma num_to_string_inj (m n : Z) : num_to_string m = num_to_string n -> m = n.
Proof.
  intros H. apply (f_equal string_to_num) in H.
  rewrite !string_to_num_to_string in H. congruence.
Qed.

(** Reading back a printed colour. *)
Lemma parse_hsl_print (h s l : Z) :
  parse_hsl ("hsl(" ++ num_to_string h ++ ", " ++ num_to_string s ++ "%, "
             ++ num_to_string l ++ "%)") = Some (mkHsl h s l).
Proof.
  unfold parse_hsl.
  rewrite strip_prefix_app.
  change (", " ++ num_to_string s ++ "%, " ++ num_to_string l ++ "%)")
    with (String "," (" " ++ num_to_string s ++ "%, " ++ num_to_string l ++ "%)")).
  rewrite split_at_app by (apply num_to_string_avoids; reflexivity).
  rewrite strip_prefix_app.
  change ("%, " ++ num_to_string l ++ "%)")
    with (String "%" (", " ++ num_to_string l ++ "%)")).
  rewrite split_at_app by (apply num_to_string_avoids; reflexivity).
  rewrite strip_prefix_app.
  change ("%)") with (String "%" ")").
  rewrite split_at_app by (apply num_to_string_avoids; reflexivity).
  simpl String.eqb. cbv iota.
  now rewrite !string_to_num_to_string.
Qed.

(** ** The ten-step ramp *)

Lemma generateColorShade_colors (h s : Z) :
  ColorShade_colors (generateColorShade h s) =
  [Some (mkHsl h (Z.max (s - 40) 10) 95);
   Some (mkHsl h (Z.max (s - 30) 15) 90);
   Some (mkHsl h (Z.max (s - 20) 20) 80);
   Some (mkHsl h (Z.max (s - 10) 25) 70);
   Some (mkHsl h s 60);
   Some (mkHsl h s 50);
   Some (mkHsl h s 40);
   Some (mkHsl h (Z.min (s + 10) 100) 30);
   Some (mkHsl h (Z.min (s + 20) 100) 20);
   Some (mkHsl h (Z.min (s + 30) 100) 10)].
Proof.
  unfold ColorShade_colors, ColorShade_entries, generateColorShade.
  cbn [map snd s50 s100 s200 s300 s400 s500 s600 s700 s800 s900].
  repeat match goal with
  | |- context [parse_hsl ("hsl(" ++ num_to_string ?a ++ ", "
                           ++ num_to_string ?b ++ ?tail)] =>
      let l := match tail with
               | "%, 95%)" => constr:(95) | "%, 90%)" => constr:(90)
               | "%, 80%)" => constr:(80) | "%, 70%)" => constr:(70)
               | "%, 60%)" => constr:(60) | "%, 50%)" => constr:(50)
               | "%, 40%)" => constr:(40) | "%, 30%)" => constr:(30)
               | "%, 20%)" => constr:(20) | "%, 10%)" => constr:(10)
               end in
      change tail with ("%, " ++ num_to_string l ++ "%)");
      rewrite (parse_hsl_print a b l)
  end.
  reflexivity.
Qed.

Lemma generateColorShade_valid (h s : Z) :
  0 <= h < 360 -> 0 <= s <= 100 ->
  Forall (fun c => exists v, c = Some v /\ valid_hsl v)
         (ColorShade_colors (generateColorShade h s)).
Proof.
  intros Hh Hs. rewrite generateColorShade_colors.
  repeat constructor;
    (eexists; split; [reflexivity | unfold valid_hsl; simpl; lia]).
Qed.

Lemma generateColorShade_hues (h s : Z) :
  map (option_map hue) (ColorShade_colors (generateColorShade h s))
  = repeat (Some h) 10.
Proof.
  now rewrite generateColorShade_colors.
Qed.

(** C1. For a hue [h] in [[0, 360)] and a saturation [s] in [[0, 100]],
    [generateColorShade h s] has exactly the ten step keys 50 to 900; read
    back in step order its entries have hue [h], lightness 95, 90, 80, 70, 60,
    50, 40, 30, 20, 10 and saturation max(s-40,10), max(s-30,15),
    max(s-20,20), max(s-10,25), s, s, s, min(s+10,100), min(s+20,100),
    min(s+30,100); every entry is a valid colour. *)
Theorem generateColorShade_ramp (h s : Z) :
  0 <= h < 360 -> 0 <= s <= 100 ->
  let shade := generateColorShade h s in
  map fst (ColorShade_entries shade) = step_keys
  /\ map (option_map light) (ColorShade_colors shade) = map Some step_lightness
  /\ map (option_map sat) (ColorShade_colors shade) = map Some (step_saturation s)
  /\ map (option_map hue) (ColorShade_colors shade) = repeat (Some h) 10
  /\ Forall (fun c => exists v, c = Some v /\ valid_hsl v) (ColorShade_colors shade).
Proof.
  intros Hh Hs shade. subst shade.
  rewrite generateColorShade_colors.
  repeat split; try reflexivity.
  rewrite <- generateColorShade_colors. now apply generateColorShade_valid.
Qed.

Lemma generateColorShade_ramp_witness :
  let shade := generateColorShade 210 70 in
  map fst (ColorShade_entries shade) = step_keys
  /\ map (option_map light) (ColorShade_colors shade) = map Some step_lightness
  /\ map (option_map sat) (ColorShade_colors shade) = map Some (step_saturation 70)
  /\ map (option_map hue) (ColorShade_colors shade) = repeat (Some 210) 10
  /\ Forall (fun c => exists v, c = Some v /\ valid_hsl v) (ColorShade_colors shade).
Proof.
  apply (generateColorShade_ramp 210 70); lia.
Defined.

(** ** The random palette *)

Lemma round_half_even_bounds (M s : Z) :
  0 <= M -> 1 <= s ->
  0 <= round_half_even M s
  /\ round_half_even M s * 2 ^ s <= M + 2 ^ (s - 1).
Proof.
  intros HM Hs. unfold round_half_even.
  assert (Hp : 0 < 2 ^ s) by (apply Z.pow_pos_nonneg; lia).
  assert (Hh : 2 ^ s = 2 * 2 ^ (s - 1)).
  { replace s with (Z.succ (s - 1)) at 1 by lia. apply Z.pow_succ_r. lia. }
  pose proof (Z.div_mod M (2 ^ s) ltac:(lia)) as Hd.
  pose proof (Z.mod_pos_bound M (2 ^ s) Hp) as Hr.
  assert (Hq : 0 <= M / 2 ^ s) by (apply Z.div_pos; lia).
  destruct (M mod 2 ^ s <? 2 ^ (s - 1))%Z eqn:E1.
  - split; [assumption | nia].
  - apply Z.ltb_ge in E1.
    destruct (2 ^ (s - 1) <? M mod 2 ^ s)%Z eqn:E2; [split; nia|].
    destruct (Z.even (M / 2 ^ s)); split; nia.
Qed.

(** The draw is below [n], with the rounding of the product as it is. *)
Lemma random_below_range (n : Z) (w : World) :
  fair w -> 0 < n < 9007199254740992 -> 0 <= fst (random_below n w) < n.
Proof.
  intros Hw Hn. unfold random_below, bind, Math_random, ret. cbn [fst].
  destruct (Hw (cursor w)) as (Hm & He & H1).
  destruct (entropy w (cursor w)) as [m e]. cbn [mantissa exponent] in *.
  change 9007199254740992 with (2 ^ 53) in Hn.
  unfold double_mul, double_floor. cbn [mantissa exponent].
  assert (Hneg : m = 0 \/ e < 0).
  { destruct (Z.eq_dec m 0) as [|Hm0]; [now left | right].
    destruct (Z_lt_ge_dec e 0) as [|Hge]; [assumption|exfalso].
    destruct (Z.eq_dec e 0) as [->|]; [simpl in H1; lia|].
    rewrite Z.pow_neg_r in H1 by lia. lia. }
  destruct Hneg as [->|Hneg].
  { rewrite Z.mul_0_l. change (0 <? 2 ^ 53)%Z with true.
    cbn [mantissa exponent].
    destruct (0 <=? e)%Z eqn:E0.
    - rewrite Z.mul_0_l. split; [apply Z.le_refl | apply Hn].
    - apply Z.leb_gt in E0.
      rewrite Z.div_0_l by (apply Z.pow_nonzero; lia).
      split; [apply Z.le_refl | apply Hn]. }
  assert (Hed : exists d, e = - d /\ 1 <= d) by (exists (- e); lia).
  destruct Hed as (d & -> & Hd). clear Hneg He.
  rewrite Z.opp_involutive in *.
  assert (Hpd : 0 < 2 ^ d) by (apply Z.pow_pos_nonneg; lia).
  assert (Hp53 : 0 < 2 ^ 53) by (apply Z.pow_pos_nonneg; lia).
  destruct (m * n <? 2 ^ 53)%Z eqn:EM; cbn [mantissa exponent].
  - assert (E0 : (0 <=? - d)%Z = false) by (apply Z.leb_gt; lia).
    rewrite E0, Z.opp_involutive.
    split; [apply Z.div_pos; nia|].
    apply Z.div_lt_upper_bound; nia.
  - apply Z.ltb_ge in EM.
    remember (m * n) as M eqn:HMdef.
    assert (HM : 0 < M) by lia.
    destruct (Z.log2_spec M HM) as [HL1 HL2].
    assert (HL53 : 53 <= Z.log2 M) by (apply Z.log2_le_pow2; assumption).
    remember (Z.log2 M - 52) as s eqn:Hsdef.
    assert (Hs1 : 1 <= s) by lia.
    (* the shift does not exceed the exponent *)
    assert (HMd : M < 2 ^ (d + 53)).
    { rewrite Z.pow_add_r by lia. subst M. nia. }
    assert (Hsd : s <= d).
    { assert (Z.log2 M < d + 53) by (apply Z.log2_lt_pow2; assumption). lia. }
    (* half a unit of the rounded mantissa is below n *)
    assert (Hhalf : 2 ^ (s - 1) < n).
    { assert (Hpow : 2 ^ Z.log2 M = 2 ^ (s - 1) * 2 ^ 53).
      { rewrite <- Z.pow_add_r by lia. f_equal. lia. }
      assert (M < 2 ^ 53 * n) by (subst M; nia).
      assert (0 < 2 ^ (s - 1)) by (apply Z.pow_pos_nonneg; lia).
      nia. }
    destruct (round_half_even_bounds M s ltac:(lia) Hs1) as [Hq0 Hq].
    remember (round_half_even M s) as q eqn:Hqdef.
    assert (Hps : 0 < 2 ^ s) by (apply Z.pow_pos_nonneg; lia).
    assert (Hsplit : 2 ^ d = 2 ^ s * 2 ^ (d - s)).
    { rewrite <- Z.pow_add_r by lia. f_equal. lia. }
    assert (Hpt : 0 < 2 ^ (d - s)) by (apply Z.pow_pos_nonneg; lia).
    assert (Hgap : M + n <= n * 2 ^ d) by (subst M; nia).
    assert (Hqn : q * 2 ^ s < n * 2 ^ d) by lia.
    destruct (0 <=? - d + s)%Z eqn:Ee.
    + apply Z.leb_le in Ee. assert (Hsd' : s = d) by lia.
      replace (- d + s) with 0 by lia. rewrite Z.pow_0_r, Z.mul_1_r.
      split; [assumption|]. rewrite Hsd' in Hqn. nia.
    + apply Z.leb_gt in Ee.
      replace (- (- d + s)) with (d - s) by lia.
      split; [apply Z.div_pos; lia|].
      apply Z.div_lt_upper_bound; [assumption|].
      rewrite Hsplit in Hqn. nia.
Qed.

Lemma fair_testWorld : fair testWorld.
Proof.
  intros n. cbn. repeat split; (reflexivity || (intro H; discriminate H)).
Qed.

(** C3. Whatever number the entropy source yields, [generateRandomPalette]
    returns the seven roles primary, secondary, accent, neutral, success,
    warning, error, each a ten-step shade of valid colours; the drawn primary
    hue [h] lies in [[0, 360)], the secondary shade has hue (h + 180) mod 360
    and the accent shade (h + 120) mod 360; the shades are built with
    saturations primary 70, secondary 60, accent 80, neutral (0, 5),
    success (120, 60), warning (45, 80), error (0, 70). *)
Theorem generateRandomPalette_roles (w : World) :
  fair w ->
  let palette := drawn_palette w in
  let h := drawn_hue w in
  0 <= h < 360
  /\ map fst (ColorPalette_entries palette) = role_names
  /\ Forall (fun kv =>
       map fst (ColorShade_entries (snd kv)) = step_keys
       /\ Forall (fun c => exists v, c = Some v /\ valid_hsl v)
                 (ColorShade_colors (snd kv)))
       (ColorPalette_entries palette)
  /\ map (option_map hue) (ColorShade_colors (primary palette)) = repeat (Some h) 10
  /\ map (option_map hue) (ColorShade_colors (secondary palette))
     = repeat (Some ((h + 180) mod 360)) 10
  /\ map (option_map hue) (ColorShade_colors (accent palette))
     = repeat (Some ((h + 120) mod 360)) 10
  /\ palette = {| primary := generateColorShade h 70;
                  secondary := generateColorShade ((h + 180) mod 360) 60;
                  accent := generateColorShade ((h + 120) mod 360) 80;
                  neutral := generateColorShade 0 5;
                  success := generateColorShade 120 60;
                  warning := generateColorShade 45 80;
                  error := generateColorShade 0 70 |}.
Proof.
  intros Hw palette h.
  assert (Hh : 0 <= h < 360) by (apply random_below_range; [assumption | lia]).
  assert (Hp : palette = {| primary := generateColorShade h 70;
                  secondary := generateColorShade ((h + 180) mod 360) 60;
                  accent := generateColorShade ((h + 120) mod 360) 80;
                  neutral := generateColorShade 0 5;
                  success := generateColorShade 120 60;
                  warning := generateColorShade 45 80;
                  error := generateColorShade 0 70 |}).
  { subst palette h. unfold drawn_palette, drawn_hue, generateRandomPalette, bind in *.
    destruct (random_below 360 w) as [h w'] eqn:E. simpl in *.
    rewrite !Z.rem_mod_nonneg by lia. reflexivity. }
  assert (H180 : 0 <= (h + 180) mod 360 < 360) by (apply Z.mod_pos_bound; lia).
  assert (H120 : 0 <= (h + 120) mod 360 < 360) by (apply Z.mod_pos_bound; lia).
  split; [exact Hh|]. rewrite Hp.
  split; [reflexivity|].
  split.
  { unfold ColorPalette_entries; cbn [primary secondary accent neutral success warning error].
    repeat (apply Forall_cons;
            [split; [reflexivity | apply generateColorShade_valid; lia] |]).
    apply Forall_nil. }
  cbn [primary secondary accent].
  rewrite !generateColorShade_hues. repeat split; reflexivity.
Qed.

Lemma generateRandomPalette_roles_witness :
  fair testWorld /\ drawn_hue testWorld = 270
  /\ map (option_map hue) (ColorShade_colors (secondary (drawn_palette testWorld)))
     = repeat (Some 90) 10.
Proof.
  pose proof fair_testWorld as Hw.
  split; [exact Hw|]. split; [reflexivity|].
  exact (proj1 (proj2 (proj2 (proj2 (proj2
           (generateRandomPalette_roles testWorld Hw)))))).
Defined.

(** ** Facts about objects *)

Section ObjFacts.
Context {V : Type}.
Implicit Types (o : Obj.t V) (k q : string) (v : V).

Lemma get_update_same k v o :
  Obj.has k o = true -> Obj.get k (Obj.update k v o) = Some v.
Proof.
  unfold Obj.has. induction o as [|[k' v'] o IH]; simpl.
  - discriminate.
  - destruct (String.eqb k k') eqn:E; simpl; rewrite E; [reflexivity | exact IH].
Qed.

Lemma get_update_other k q v o :
  q <> k -> Obj.get q (Obj.update k v o) = Obj.get q o.
Proof.
  intros Hq. induction o as [|[k' v'] o IH]; simpl; [reflexivity|].
  destruct (String.eqb k k') eqn:E; simpl.
  - apply String.eqb_eq in E. subst k'.
    apply String.eqb_neq in Hq. now rewrite Hq.
  - now rewrite IH.
Qed.

Lemma get_insert_index_same n k v o :
  Obj.has k o = false -> Obj.get k (Obj.insert_index n k v o) = Some v.
Proof.
  unfold Obj.has. induction o as [|[k' v'] o IH]; simpl.
  - now rewrite String.eqb_refl.
  - destruct (String.eqb k k') eqn:E; [discriminate|]. intros H.
    destruct (Obj.array_index k') as [m|]; [destruct (m <? n)%N|]; simpl;
      rewrite ?E, ?String.eqb_refl; auto.
Qed.

Lemma get_insert_index_other n k q v o :
  q <> k -> Obj.get q (Obj.insert_index n k v o) = Obj.get q o.
Proof.
  intros Hq. apply String.eqb_neq in Hq.
  induction o as [|[k' v'] o IH]; simpl.
  - now rewrite Hq.
  - destruct (Obj.array_index k') as [m|]; [destruct (m <? n)%N|]; simpl;
      rewrite ?Hq, ?IH; reflexivity.
Qed.

Lemma get_app k o1 o2 :
  Obj.get k (o1 ++ o2)%list
  = match Obj.get k o1 with Some v => Some v | None => Obj.get k o2 end.
Proof.
  induction o1 as [|[k' v'] o1 IH]; simpl; [reflexivity|].
  destruct (String.eqb k k'); [reflexivity | exact IH].
Qed.

(** Reading a property that has just been written. *)
Lemma get_set_same k v o : Obj.get k (Obj.set k v o) = Some v.
Proof.
  unfold Obj.set. destruct (Obj.has k o) eqn:E.
  - now apply get_update_same.
  - destruct (Obj.array_index k) as [n|].
    + now apply get_insert_index_same.
    + rewrite get_app. unfold Obj.has in E.
      destruct (Obj.get k o); [discriminate|]. simpl. now rewrite String.eqb_refl.
Qed.

(** Writing a property leaves every other property as it was. *)
Lemma get_set_other k q v o : q <> k -> Obj.get q (Obj.set k v o) = Obj.get q o.
Proof.
  intros Hq. unfold Obj.set. destruct (Obj.has k o).
  - now apply get_update_other.
  - destruct (Obj.array_index k) as [n|].
    + now apply get_insert_index_other.
    + rewrite get_app. destruct (Obj.get q o); [reflexivity|].
      simpl. apply String.eqb_neq in Hq. now rewrite Hq.
Qed.

Lemma others_update k v o : others k (Obj.update k v o) = others k o.
Proof.
  induction o as [|[k' v'] o IH]; simpl; [reflexivity|].
  destruct (String.eqb k k') eqn:E; simpl.
  - rewrite String.eqb_sym, E. reflexivity.
  - rewrite String.eqb_sym, E. simpl. now rewrite IH.
Qed.

Lemma others_insert_index n k v o :
  others k (Obj.insert_index n k v o) = others k o.
Proof.
  induction o as [|[k' v'] o IH]; simpl.
  - now rewrite String.eqb_refl.
  - destruct (Obj.array_index k') as [m|]; [destruct (m <? n)%N|]; simpl;
      rewrite ?String.eqb_refl; simpl; rewrite ?IH; reflexivity.
Qed.

Lemma others_set k v o : others k (Obj.set k v o) = others k o.
Proof.
  unfold Obj.set. destruct (Obj.has k o).
  - apply others_update.
  - destruct (Obj.array_index k) as [n|].
    + apply others_insert_index.
    + unfold others. rewrite filter_app. simpl.
      rewrite String.eqb_refl. simpl. apply app_nil_r.
Qed.

Lemma get_In k v o : Obj.get k o = Some v -> In (k, v) o.
Proof.
  induction o as [|[k' v'] o IH]; simpl; [discriminate|].
  destruct (String.eqb k k') eqn:E.
  - apply String.eqb_eq in E. intros [= ->]. left. now subst.
  - intros H. right. auto.
Qed.

Lemma In_get k v o : Obj.wf o -> In (k, v) o -> Obj.get k o = Some v.
Proof.
  unfold Obj.wf, Obj.keys. induction o as [|[k' v'] o IH]; simpl; [tauto|].
  intros Hnd [H|H]; inversion Hnd as [|? ? Hnotin Hnd']; subst.
  - injection H as -> ->. now rewrite String.eqb_refl.
  - destruct (String.eqb k k') eqn:E.
    + apply String.eqb_eq in E. subst k'. exfalso. apply Hnotin.
      change k with (fst (k, v)). now apply in_map.
    + auto.
Qed.

End ObjFacts.

(** ** Searching in strings *)

Lemma starts_with_app (p s : string) : Str.starts_with p (p ++ s) = true.
Proof.
  induction p as [|a p IH]; simpl; [reflexivity|].
  now rewrite Ascii.eqb_refl.
Qed.

Lemma starts_with_cancel (x p s : string) :
  Str.starts_with p s = true -> Str.starts_with (x ++ p) (x ++ s) = true.
Proof.
  intros H. induction x as [|a x IH]; simpl; [exact H|].
  now rewrite Ascii.eqb_refl.
Qed.

Lemma contains_unfold (sub s : string) :
  Str.contains sub s =
  if Str.starts_with sub s then true
  else match s with
       | EmptyString => false
       | String _ r => Str.contains sub r
       end.
Proof.
  destruct s; reflexivity.
Qed.

Lemma contains_here (sub s : string) :
  Str.starts_with sub s = true -> Str.contains sub s = true.
Proof.
  intros H. rewrite contains_unfold, H. reflexivity.
Qed.

Lemma contains_String_skip (sub : string) (a : ascii) (s : string) :
  Str.contains sub s = true -> Str.contains sub (String a s) = true.
Proof.
  intros H. rewrite contains_unfold, H. now destruct (Str.starts_with _ _).
Qed.

Lemma contains_app_skip (sub x s : string) :
  Str.contains sub s = true -> Str.contains sub (x ++ s) = true.
Proof.
  intros H. induction x as [|a x IH]; simpl; [exact H|].
  now apply contains_String_skip.
Qed.

(** An occurrence of [sub] between [a] and [b]. *)
Lemma contains_intro (a sub b : string) : Str.contains sub (a ++ sub ++ b) = true.
Proof.
  apply contains_app_skip, contains_here, starts_with_app.
Qed.

Ltac solve_starts_with :=
  repeat first
    [ reflexivity
    | apply starts_with_cancel
    | progress (cbn [Str.starts_with Ascii.eqb Bool.eqb andb]) ].

Ltac solve_contains :=
  first
    [ solve [apply contains_here; solve_starts_with]
    | apply contains_String_skip; solve_contains
    | apply contains_app_skip; solve_contains ].

(** Bring a template to a chain of characters and interpolated values. *)
Ltac template :=
  unfold dq, nl; cbn [append String.eqb Ascii.eqb Bool.eqb andb].

(** ** The component formatter *)

Module ComponentFacts.
Import ComponentGenerator.

Lemma unknown_type_eqb (t : string) :
  ~ known_type t ->
  String.eqb t "button" = false /\ String.eqb t "card" = false
  /\ String.eqb t "input" = false /\ String.eqb t "badge" = false
  /\ String.eqb t "alert" = false.
Proof.
  unfold known_type. simpl. intros H.
  repeat split; apply String.eqb_neq; intros ->; apply H; tauto.
Qed.

(** C4, as the code has it. Each of the five types has its own template, and
    the text is interpolated in all five.  The variant is interpolated for
    button, badge and alert, and the size for button and input.  A card takes
    from the size only the class [p-6] (size [lg]) or [p-4] (any other size);
    the variant does not reach the text of a card or an input, nor the size
    that of a badge or an alert.  Any other type gives the empty string. *)
Theorem generateComponentCode_templates (v s t : string) (ps : Obj.t bool) :
  let code ty := generateComponentCode (mkComponentConfig ty v s t ps) in
  (Str.starts_with "<Button " (code "button") = true
   /\ Str.contains ("variant=" ++ dq ++ v ++ dq) (code "button") = true
   /\ Str.contains ("size=" ++ dq ++ s ++ dq) (code "button") = true
   /\ Str.contains (nl ++ "  " ++ t ++ nl) (code "button") = true)
  /\ (Str.starts_with "<Card " (code "card") = true
      /\ Str.contains ("className=" ++ dq
                       ++ (if String.eqb s "lg" then "p-6" else "p-4") ++ dq)
           (code "card") = true
      /\ Str.contains ("<CardTitle>" ++ t ++ "</CardTitle>") (code "card") = true
      /\ (forall v', generateComponentCode (mkComponentConfig "card" v' s t ps)
                     = code "card")
      /\ (forall s', String.eqb s' "lg" = String.eqb s "lg" ->
                     generateComponentCode (mkComponentConfig "card" v s' t ps)
                     = code "card"))
  /\ (Str.starts_with "<Input " (code "input") = true
      /\ Str.contains ("placeholder=" ++ dq ++ t ++ dq) (code "input") = true
      /\ Str.contains ("size=" ++ dq ++ s ++ dq) (code "input") = true
      /\ (forall v', generateComponentCode (mkComponentConfig "input" v' s t ps)
                     = code "input"))
  /\ (Str.starts_with "<Badge " (code "badge") = true
      /\ Str.contains ("variant=" ++ dq ++ v ++ dq) (code "badge") = true
      /\ Str.contains (nl ++ "  " ++ t ++ nl) (code "badge") = true
      /\ (forall s', generateComponentCode (mkComponentConfig "badge" v s' t ps)
                     = code "badge"))
  /\ (Str.starts_with "<Alert " (code "alert") = true
      /\ Str.contains ("variant=" ++ dq ++ v ++ dq) (code "alert") = true
      /\ Str.contains (nl ++ "    " ++ t ++ nl) (code "alert") = true
      /\ (forall s', generateComponentCode (mkComponentConfig "alert" v s' t ps)
                     = code "alert"))
  /\ (forall ty, ~ known_type ty -> code ty = EmptyString).
Proof.
  intros code. subst code. unfold generateComponentCode.
  cbn [type variant size text props].
  repeat match goal with |- _ /\ _ => split end;
    try (intros; template; reflexivity);
    try (template; solve_contains).
  - intros s' Hs. template. rewrite Hs. reflexivity.
  - intros ty Hty. destruct (unknown_type_eqb ty Hty) as (-> & -> & -> & -> & ->).
    reflexivity.
Qed.

(** C4, as stated, fails: the snippet of a card spells out neither its
    variant nor its size. *)
Lemma generateComponentCode_card_counterexample :
  let c := mkComponentConfig "card" "outlined" "md" "Card Title" [] in
  known_type (type c)
  /\ Str.contains "outlined" (generateComponentCode c) = false
  /\ Str.contains "md" (generateComponentCode c) = false
  /\ ~ interpolates_all c.
Proof.
  cbv zeta. split; [unfold known_type; simpl; tauto|].
  split; [reflexivity|]. split; [reflexivity|].
  intros (H & _). cbn [variant] in H.
  assert (E : Str.contains "outlined"
                (generateComponentCode
                   (mkComponentConfig "card" "outlined" "md" "Card Title" []))
              = false) by reflexivity.
  rewrite E in H. discriminate H.
Qed.

Lemma emitted_names (ps : Obj.t bool) :
  Obj.wf ps ->
  map (fun '(key, _) => key) (filter (fun '(_, value) => value) ps) = true_props ps.
Proof.
  unfold Obj.wf, true_props, Obj.keys.
  induction ps as [|[k b] r IH]; simpl; intros Hnd; [reflexivity|].
  inversion Hnd as [|? ? Hk Hr]; subst.
  rewrite String.eqb_refl. cbn [truthy].
  assert (E : filter (fun k0 => truthy (if String.eqb k0 k then Some b else Obj.get k0 r))
                     (map fst r)
              = filter (fun k0 => truthy (Obj.get k0 r)) (map fst r)).
  { apply filter_ext_in. intros k0 Hin.
    destruct (String.eqb k0 k) eqn:E; [|reflexivity].
    apply String.eqb_eq in E. subst k0. contradiction. }
  rewrite E, <- (IH Hr). now destruct b.
Qed.

Lemma with_own_props (c : ComponentConfig) : updateComponent f_props (props c) c = c.
Proof.
  now destruct c.
Qed.

Lemma code_around_props (c : ComponentConfig) :
  known_type (type c) ->
  exists pre post, forall ps,
    generateComponentCode (updateComponent f_props ps c)
    = pre ++ props_attributes ps ++ post.
Proof.
  unfold known_type. simpl.
  destruct c as [ty v s t ps0]. cbn [type].
  intros [<-|[<-|[<-|[<-|[<-|[]]]]]];
    unfold generateComponentCode, updateComponent;
    cbn [type variant size text props String.eqb Ascii.eqb Bool.eqb andb].
  - exists ("<Button variant=" ++ dq ++ v ++ dq ++ " size=" ++ dq ++ s ++ dq ++ " ").
    eexists. intros ps. rewrite !append_assoc. reflexivity.
  - exists ("<Card className=" ++ dq
            ++ (if String.eqb s "lg" then "p-6" else "p-4") ++ dq ++ " ").
    eexists. intros ps. rewrite !append_assoc. reflexivity.
  - exists ("<Input " ++ nl ++ "  placeholder=" ++ dq ++ t ++ dq ++ nl
            ++ "  size=" ++ dq ++ s ++ dq ++ nl ++ "  ").
    eexists. intros ps. rewrite !append_assoc. reflexivity.
  - exists ("<Badge variant=" ++ dq ++ v ++ dq ++ " ").
    eexists. intros ps. rewrite !append_assoc. reflexivity.
  - exists ("<Alert variant=" ++ dq ++ v ++ dq ++ " ").
    eexists. intros ps. rewrite !append_assoc. reflexivity.
Qed.

Lemma true_props_spec (ps : Obj.t bool) (k : string) :
  In k (true_props ps) <-> Obj.get k ps = Some true.
Proof.
  unfold true_props. rewrite filter_In. split.
  - intros [_ H]. destruct (Obj.get k ps) as [[|]|]; simpl in H; congruence.
  - intros H. split.
    + apply get_In in H. unfold Obj.keys.
      change k with (fst (k, true)). now apply in_map.
    + now rewrite H.
Qed.

Lemma props_attributes_others (k : string) (ps : Obj.t bool) :
  Obj.wf ps -> Obj.get k ps = Some false ->
  props_attributes (others k ps) = props_attributes ps.
Proof.
  unfold props_attributes, Obj.wf, Obj.keys. intros Hwf Hg. f_equal. f_equal.
  induction ps as [|[k' b] ps IH]; simpl in *; [reflexivity|].
  inversion Hwf as [|? ? Hk Hwf']; subst.
  destruct (String.eqb k k') eqn:E.
  - injection Hg as ->. apply String.eqb_eq in E. subst k'.
    rewrite String.eqb_refl. simpl.
    clear - Hk. induction ps as [|[k' b] ps IH]; simpl; [reflexivity|].
    simpl in Hk. destruct (String.eqb k' k) eqn:E.
    + apply String.eqb_eq in E. tauto.
    + simpl. destruct b; [f_equal|]; apply IH; tauto.
  - rewrite String.eqb_sym, E. simpl. destruct b; [f_equal|]; now apply IH.
Qed.

(** C5, as stated, fails: the prop [loading] of this button is false and its
    name is in the snippet all the same, through the text. *)
Lemma generateComponentCode_false_prop_counterexample :
  known_type (type loading_text_button)
  /\ Obj.wf (props loading_text_button)
  /\ Obj.get "loading" (props loading_text_button) = Some false
  /\ Str.contains "loading" (generateComponentCode loading_text_button) = true
  /\ generateComponentCode loading_text_button
     = "<Button variant=" ++ dq ++ "primary" ++ dq ++ " size=" ++ dq ++ "md" ++ dq
       ++ " >" ++ nl ++ "  Now loading" ++ nl ++ "</Button>".
Proof.
  split; [left; reflexivity|].
  split; [repeat constructor; simpl; tauto|].
  repeat split; reflexivity.
Qed.

(** C5, as the code has it. The snippet of a component of one of the five
    types is a text that does not depend on the props around an attribute
    list; the attribute list is made of exactly the names of the props whose
    value is true, joined by single spaces in the enumeration order of the
    props.  A prop whose value is false is not in that list and adds nothing
    to the snippet: the snippet is the same as without that prop (its name
    can still be spelled by the text, the variant, the size or the template).
    For the button of the example the snippet contains variant="primary",
    size="md", disabled and the text Click me, and does not contain
    loading. *)
Theorem generateComponentCode_attributes (c : ComponentConfig) :
  known_type (type c) -> Obj.wf (props c) ->
  (exists pre post,
      generateComponentCode c
      = pre ++ Str.join " " (true_props (props c)) ++ post
      /\ forall ps, Obj.wf ps ->
           generateComponentCode (updateComponent f_props ps c)
           = pre ++ Str.join " " (true_props ps) ++ post)
  /\ (forall k, In k (true_props (props c)) <-> Obj.get k (props c) = Some true)
  /\ (forall k, Obj.get k (props c) = Some false ->
        ~ In k (true_props (props c))
        /\ generateComponentCode (updateComponent f_props (others k (props c)) c)
           = generateComponentCode c)
  /\ (let code := generateComponentCode example_button in
      Str.contains ("variant=" ++ dq ++ "primary" ++ dq) code = true
      /\ Str.contains ("size=" ++ dq ++ "md" ++ dq) code = true
      /\ Str.contains "disabled" code = true
      /\ Str.contains "Click me" code = true
      /\ Str.contains "loading" code = false).
Proof.
  intros Hty Hwf.
  destruct (code_around_props c Hty) as (pre & post & H).
  split; [|split; [|split]].
  - exists pre, post. split.
    + rewrite <- (with_own_props c) at 1. rewrite H.
      unfold props_attributes. now rewrite emitted_names.
    + intros ps Hps. rewrite H. unfold props_attributes. now rewrite emitted_names.
  - intros k. apply true_props_spec.
  - intros k Hk. split.
    + intros Hin. apply true_props_spec in Hin. congruence.
    + rewrite <- (with_own_props c) at 3. rewrite !H.
      now rewrite props_attributes_others.
  - cbv zeta. repeat split; reflexivity.
Qed.

Lemma generateComponentCode_attributes_witness :
  known_type (type example_button) /\ Obj.wf (props example_button)
  /\ true_props (props example_button) = ["disabled"]
  /\ generateComponentCode
       (updateComponent f_props (others "loading" (props example_button))
          example_button)
     = generateComponentCode example_button.
Proof.
  assert (Hty : known_type (type example_button)) by (left; reflexivity).
  assert (Hwf : Obj.wf (props example_button)).
  { repeat constructor; simpl; intuition discriminate. }
  split; [exact Hty|]. split; [exact Hwf|]. split; [reflexivity|].
  exact (proj2 (proj1 (proj2 (proj2
           (generateComponentCode_attributes example_button Hty Hwf)))
           "loading" eq_refl)).
Defined.

(** C6. Whatever the configuration was (so for every old type), switching to
    a type [new] of the registry gives the configuration whose type is [new],
    whose variant and size are the first entries of the variants and sizes the
    registry declares for [new], whose text is the default text of [new] and
    whose props are empty; its variant and size belong to the registry entry
    of its type. *)
Theorem type_switch_resets (prev : ComponentConfig) (new : string) :
  known_type new ->
  exists template variant0 size0,
    Obj.get new componentTemplates = Some template
    /\ nth_error (Template.variants template) 0 = Some variant0
    /\ nth_error (Template.sizes template) 0 = Some size0
    /\ onTypeChange new prev
       = Some (mkComponentConfig new variant0 size0
                 (Template.defaultText template) [])
    /\ In variant0 (Template.variants template)
    /\ In size0 (Template.sizes template).
Proof.
  unfold known_type. simpl.
  intros [<-|[<-|[<-|[<-|[<-|[]]]]]];
    (eexists; eexists; eexists;
     split; [reflexivity|]; split; [reflexivity|]; split; [reflexivity|];
     split; [reflexivity|]; split; left; reflexivity).
Qed.

Lemma type_switch_resets_witness :
  known_type "badge"
  /\ onTypeChange "badge" (updateProp "loading" true example_button)
     = Some (mkComponentConfig "badge" "default" "sm" "Badge" []).
Proof.
  assert (H : known_type "badge") by (do 3 right; left; reflexivity).
  split; [exact H|].
  destruct (type_switch_resets (updateProp "loading" true example_button) "badge" H)
    as (template & variant0 & size0 & Ht & Hv & Hs & Hnew & _).
  injection Ht as <-. injection Hv as <-. injection Hs as <-.
  exact Hnew.
Defined.

(** C9. For a configuration whose type is none of button, card, input, badge,
    alert, [renderPreview] returns [null] and raises nothing, as
    [generateComponentCode] returns the empty string. *)
Theorem renderPreview_unknown_type (c : ComponentConfig) :
  ~ known_type (type c) ->
  renderPreview c = None /\ generateComponentCode c = EmptyString.
Proof.
  intros H. destruct (unknown_type_eqb _ H) as (Hb & Hc & Hi & Hg & Ha).
  unfold renderPreview, generateComponentCode.
  rewrite Hb, Hc, Hi, Hg, Ha. split; reflexivity.
Qed.

Lemma renderPreview_unknown_type_witness :
  let c := mkComponentConfig "tooltip" "primary" "md" "Click me" [] in
  ~ known_type (type c) /\ renderPreview c = None.
Proof.
  cbv zeta.
  assert (H : ~ known_type "tooltip").
  { unfold known_type. simpl. intuition discriminate. }
  split; [exact H|].
  exact (proj1 (renderPreview_unknown_type
                  (mkComponentConfig "tooltip" "primary" "md" "Click me" []) H)).
Defined.

(** The five types of the registry are rendered. *)
Lemma renderPreview_known_type (c : ComponentConfig) :
  known_type (type c) -> renderPreview c <> None.
Proof.
  unfold known_type, renderPreview. simpl.
  intros [<-|[<-|[<-|[<-|[<-|[]]]]]]; simpl; discriminate.
Qed.

(** C10. [updateProp p v] keeps the type, the variant, the size and the text;
    afterwards the prop [p] has the value [v], every other prop reads as
    before, and the props other than [p] are the same entries in the same
    order. *)
Theorem updateProp_frame (p : string) (v : bool) (c : ComponentConfig) :
  let c' := updateProp p v c in
  type c' = type c /\ variant c' = variant c
  /\ size c' = size c /\ text c' = text c
  /\ Obj.get p (props c') = Some v
  /\ (forall q, q <> p -> Obj.get q (props c') = Obj.get q (props c))
  /\ others p (props c') = others p (props c).
Proof.
  cbv zeta. unfold updateProp. cbn [type variant size text props].
  repeat split.
  - apply get_set_same.
  - intros q Hq. now apply get_set_other.
  - apply others_set.
Qed.

End ComponentFacts.

(** ** Loops that append to a text *)

Lemma cat_app (l1 l2 : list string) :
  Str.cat (l1 ++ l2)%list = Str.cat l1 ++ Str.cat l2.
Proof.
  induction l1 as [|x l1 IH]; simpl; [reflexivity|].
  now rewrite IH, append_assoc.
Qed.

Lemma cat_flat_map {A} (f : A -> list string) (l : list A) :
  Str.cat (flat_map f l) = Str.cat (map (fun x => Str.cat (f x)) l).
Proof.
  induction l as [|x l IH]; simpl; [reflexivity|].
  now rewrite cat_app, IH.
Qed.

(** Both sides of an equation between templates, as chains of characters
    and interpolated values. *)
Ltac str_norm :=
  unfold dq, nl;
  repeat first
    [ rewrite append_assoc
    | rewrite append_nil_r
    | progress cbn [append Str.cat] ].

Ltac str_eq := unfold css_declaration, scss_variable; str_norm; reflexivity.

(** A loop whose body appends [f x] to the text appends them all in order. *)
Lemma forEach_append {A} (f : A -> string) (body : string -> A -> string)
    (l : list A) (s : string) :
  (forall s x, body s x = s ++ f x) ->
  forEach l body s = s ++ Str.cat (map f l).
Proof.
  intros Hbody. unfold forEach. revert s.
  induction l as [|x l IH]; intros s; simpl.
  - now rewrite append_nil_r.
  - now rewrite IH, Hbody, append_assoc.
Qed.

Lemma forEach_from_append {A} (f : Z * A -> string) (body : string -> A -> Z -> string)
    (i : Z) (l : list A) (s : string) :
  (forall s x i, body s x i = s ++ f (i, x)) ->
  forEach_from i l body s = s ++ Str.cat (map f (indexed_from i l)).
Proof.
  intros Hbody. revert i s.
  induction l as [|x l IH]; intros i s; simpl.
  - now rewrite append_nil_r.
  - now rewrite IH, Hbody, append_assoc.
Qed.

(** The stylesheet is the root block around its declarations. *)
Lemma generateCSS_declarations (ds : DesignSystem) :
  generateCSS ds = ":root {" ++ nl ++ Str.cat (css_declarations ds) ++ "}" ++ nl.
Proof.
  unfold generateCSS, css_declarations, forEachIndexed.
  rewrite (forEach_from_append
             (fun '(n, radius) => css_declaration ("radius-" ++ num_to_string n) radius))
    by (intros; str_eq).
  rewrite (forEach_from_append
             (fun '(n, space) =>
                css_declaration ("spacing-" ++ num_to_string (n + 1)) space))
    by (intros; str_eq).
  rewrite (forEach_append
             (fun '(size_, e) =>
                Str.cat [css_declaration ("text-" ++ size_) (size e);
                         css_declaration ("leading-" ++ size_) (lineHeight e);
                         css_declaration ("weight-" ++ size_) (weight e)])).
  2:{ intros s [size_ e]. str_eq. }
  rewrite (forEach_append
             (fun '(role, shades) =>
                Str.cat (map (fun '(step, value) =>
                                css_declaration (role ++ "-" ++ step) value)
                             (ColorShade_entries shades)))).
  2:{ intros s [role shades].
      apply forEach_append. intros s' [step value]. str_eq. }
  rewrite !cat_app.
  unfold css_colors, css_typography, css_spacing, css_radius, css_font, indexed.
  rewrite !cat_flat_map.
  rewrite (map_ext (fun x : string * ColorShade => Str.cat (let '(role, shades) := x in
             map (fun '(step, value) => css_declaration (role ++ "-" ++ step) value)
                 (ColorShade_entries shades)))
           (fun '(role, shades) =>
              Str.cat (map (fun '(step, value) =>
                              css_declaration (role ++ "-" ++ step) value)
                           (ColorShade_entries shades))))
    by (now intros [role shades]).
  rewrite (map_ext (fun x : string * TypographyEntry => Str.cat (let '(size_, e) := x in
             [css_declaration ("text-" ++ size_) (size e);
              css_declaration ("leading-" ++ size_) (lineHeight e);
              css_declaration ("weight-" ++ size_) (weight e)]))
           (fun '(size_, e) =>
              Str.cat [css_declaration ("text-" ++ size_) (size e);
                       css_declaration ("leading-" ++ size_) (lineHeight e);
                       css_declaration ("weight-" ++ size_) (weight e)]))
    by (now intros [size_ e]).
  str_eq.
Qed.

Lemma indexed_from_length {A} (i : Z) (l : list A) :
  List.length (indexed_from i l) = List.length l.
Proof.
  revert i. induction l as [|x l IH]; intros i; simpl; [reflexivity|].
  now rewrite IH.
Qed.

(** C7. The stylesheet export is one [:root] block holding one declaration a
    line, in this order: the colour declarations [--<role>-<step>] (role in
    the outer loop, step in the inner one, 70 in all), for each typography
    size the three declarations [--text-], [--leading-], [--weight-] (27 in
    all), [--spacing-<n+1>] in array order, [--radius-<n>] in array order,
    and [--font-family] last. *)
Theorem generateCSS_layout (ds : DesignSystem) :
  generateCSS ds = ":root {" ++ nl ++ Str.cat (css_declarations ds) ++ "}" ++ nl
  /\ css_declarations ds
     = (css_colors ds ++ css_typography ds ++ css_spacing ds ++ css_radius ds
        ++ [css_declaration "font-family" (fontFamily ds)])%list
  /\ css_colors ds
     = flat_map (fun '(role, shades) =>
                   map (fun '(step, value) =>
                          css_declaration (role ++ "-" ++ step) value)
                       (ColorShade_entries shades))
                (ColorPalette_entries (colors ds))
  /\ map fst (ColorPalette_entries (colors ds)) = role_names
  /\ Forall (fun kv => map fst (ColorShade_entries (snd kv)) = step_keys)
            (ColorPalette_entries (colors ds))
  /\ List.length (css_colors ds) = 70%nat
  /\ List.length (css_typography ds) = 27%nat
  /\ List.length (css_spacing ds) = List.length (spacing ds)
  /\ List.length (css_radius ds) = List.length (borderRadius ds)
  /\ last (css_declarations ds) EmptyString
     = css_declaration "font-family" (fontFamily ds)
  /\ Forall (fun d => exists property value, d = css_declaration property value)
            (css_declarations ds).
Proof.
  split; [apply generateCSS_declarations|].
  split; [reflexivity|]. split; [reflexivity|]. split; [reflexivity|].
  split; [repeat constructor|]. split; [reflexivity|]. split; [reflexivity|].
  split; [unfold css_spacing, indexed; now rewrite length_map, indexed_from_length|].
  split; [unfold css_radius, indexed; now rewrite length_map, indexed_from_length|].
  split.
  - unfold css_declarations. rewrite !app_assoc. apply last_last.
  - unfold css_declarations. rewrite !Forall_app. repeat split.
    + repeat constructor; eexists; eexists; reflexivity.
    + repeat constructor; eexists; eexists; reflexivity.
    + unfold css_spacing. apply Forall_map, Forall_forall.
      intros [n space] _. eexists; eexists; reflexivity.
    + unfold css_radius. apply Forall_map, Forall_forall.
      intros [n radius] _. eexists; eexists; reflexivity.
    + repeat constructor. eexists; eexists; reflexivity.
Qed.

(** The preprocessor export is its four commented groups, one after another. *)
Lemma generateSCSSVariables_groups (ds : DesignSystem) :
  ExportModal.generateSCSSVariables ds
  = "// " ++ name ds ++ " - Design System Variables" ++ nl ++ nl
    ++ "// Colors" ++ nl ++ Str.cat (scss_colors ds)
    ++ nl ++ "// Typography" ++ nl ++ Str.cat (scss_typography ds)
    ++ nl ++ "// Spacing" ++ nl ++ Str.cat (scss_spacing ds)
    ++ nl ++ "// Border Radius" ++ nl ++ Str.cat (scss_radius ds).
Proof.
  unfold ExportModal.generateSCSSVariables, forEachIndexed.
  rewrite (forEach_from_append
             (fun '(n, radius) =>
                scss_variable ("border-radius-" ++ num_to_string n) radius))
    by (intros; str_eq).
  rewrite (forEach_from_append
             (fun '(n, space) =>
                scss_variable ("spacing-" ++ num_to_string (n + 1)) space))
    by (intros; str_eq).
  rewrite (forEach_append
             (fun '(size_, e) =>
                Str.cat [scss_variable ("font-size-" ++ size_) (size e);
                         scss_variable ("line-height-" ++ size_) (lineHeight e);
                         scss_variable ("font-weight-" ++ size_) (weight e)])).
  2:{ intros s [size_ e]. str_eq. }
  rewrite (forEach_append
             (fun '(role, shades) =>
                Str.cat (map (fun '(step, value) =>
                                scss_variable (role ++ "-" ++ step) value)
                             (ColorShade_entries shades)))).
  2:{ intros s [role shades].
      apply forEach_append. intros s' [step value]. str_eq. }
  unfold scss_colors, scss_typography, scss_spacing, scss_radius, indexed.
  cbn [Str.cat]. rewrite !cat_flat_map.
  rewrite (map_ext (fun x : string * ColorShade => Str.cat (let '(role, shades) := x in
             map (fun '(step, value) => scss_variable (role ++ "-" ++ step) value)
                 (ColorShade_entries shades)))
           (fun '(role, shades) =>
              Str.cat (map (fun '(step, value) =>
                              scss_variable (role ++ "-" ++ step) value)
                           (ColorShade_entries shades))))
    by (now intros [role shades]).
  rewrite (map_ext (fun x : string * TypographyEntry => Str.cat (let '(size_, e) := x in
             [scss_variable ("font-size-" ++ size_) (size e);
              scss_variable ("line-height-" ++ size_) (lineHeight e);
              scss_variable ("font-weight-" ++ size_) (weight e)]))
           (fun '(size_, e) =>
              Str.cat [scss_variable ("font-size-" ++ size_) (size e);
                       scss_variable ("line-height-" ++ size_) (lineHeight e);
                       scss_variable ("font-weight-" ++ size_) (weight e)]))
    by (now intros [size_ e]).
  str_eq.
Qed.

(** ** Loops that fill an object *)

Section FillObject.
Context {A V : Type}.
Variable key : Z -> string.
Variable val : A -> V.
Variable body : Obj.t V -> A -> Z -> Obj.t V.
Hypothesis body_sets : forall o x i, body o x i = Obj.set (key i) (val x) o.
Hypothesis key_inj : forall a b, key a = key b -> a = b.

Lemma get_forEach_from_other (k : string) (i : Z) (l : list A) (o : Obj.t V) :
  (forall j, i <= j -> k <> key j) ->
  Obj.get k (forEach_from i l body o) = Obj.get k o.
Proof.
  revert i o. induction l as [|x l IH]; intros i o Hk; simpl; [reflexivity|].
  rewrite IH by (intros j Hj; apply Hk; lia).
  rewrite body_sets. apply get_set_other. apply Hk. lia.
Qed.

Lemma get_forEach_from_at (i : Z) (l : list A) (o : Obj.t V) (n : nat) (x : A) :
  nth_error l n = Some x ->
  Obj.get (key (i + Z.of_nat n)) (forEach_from i l body o) = Some (val x).
Proof.
  revert i o n. induction l as [|y l IH]; intros i o [|n] Hn; simpl in Hn;
    try discriminate.
  - injection Hn as ->. simpl forEach_from.
    replace (i + Z.of_nat 0) with i by lia.
    rewrite get_forEach_from_other.
    + rewrite body_sets. apply get_set_same.
    + intros j Hj E. apply key_inj in E. lia.
  - simpl forEach_from.
    replace (i + Z.of_nat (S n)) with ((i + 1) + Z.of_nat n) by lia.
    now apply IH.
Qed.

End FillObject.

Lemma get_forEach_other {A V} (k : string) (body : Obj.t V -> A -> Obj.t V)
    (l : list A) (o : Obj.t V) :
  (forall o x, Obj.get k (body o x) = Obj.get k o) ->
  Obj.get k (forEach l body o) = Obj.get k o.
Proof.
  intros H. unfold forEach. revert o.
  induction l as [|x l IH]; intros o; simpl; [reflexivity|].
  now rewrite IH, H.
Qed.

Lemma append_inj_l (p a b : string) : p ++ a = p ++ b -> a = b.
Proof.
  induction p as [|c p IH]; simpl; intros H; [exact H|].
  injection H as H. auto.
Qed.

(** ** Keys of the spacing and radius entries *)

Lemma starts_with_app_l (sub a b : string) :
  Str.starts_with sub a = true -> Str.starts_with sub (a ++ b) = true.
Proof.
  revert a. induction sub as [|c sub IH]; intros a; simpl; [reflexivity|].
  destruct a as [|d a]; simpl; [discriminate|].
  intros H. apply andb_true_iff in H as [H1 H2].
  now rewrite H1, (IH _ H2).
Qed.

Lemma contains_app_l (sub a b : string) :
  Str.contains sub a = true -> Str.contains sub (a ++ b) = true.
Proof.
  induction a as [|c a IH]; intros H.
  - rewrite contains_unfold in H.
    destruct (Str.starts_with sub EmptyString) eqn:E; [|discriminate].
    apply contains_here. now apply (starts_with_app_l sub EmptyString b).
  - rewrite contains_unfold in H.
    destruct (Str.starts_with sub (String c a)) eqn:E.
    + apply contains_here. now apply starts_with_app_l.
    + simpl append. apply contains_String_skip. auto.
Qed.

Lemma contains_cat (x : string) (l : list string) :
  In x l -> Str.contains x (Str.cat l) = true.
Proof.
  induction l as [|y l IH]; simpl; [tauto|].
  intros [->|H].
  - apply contains_here, starts_with_app.
  - apply contains_app_skip. auto.
Qed.

Lemma nth_error_indexed_from {A} (i : Z) (l : list A) (n : nat) (x : A) :
  nth_error l n = Some x ->
  nth_error (indexed_from i l) n = Some (i + Z.of_nat n, x).
Proof.
  revert i n. induction l as [|y l IH]; intros i [|n] H; simpl in *;
    try discriminate.
  - injection H as ->. do 2 f_equal. lia.
  - rewrite (IH (i + 1) n H). do 2 f_equal. lia.
Qed.

Lemma spacing_key_inj (prefix_ : string) (a b : Z) :
  prefix_ ++ num_to_string (a + 1) = prefix_ ++ num_to_string (b + 1) -> a = b.
Proof.
  intros H. apply append_inj_l, num_to_string_inj in H. lia.
Qed.

Lemma radius_key_inj (prefix_ : string) (a b : Z) :
  prefix_ ++ num_to_string a = prefix_ ++ num_to_string b -> a = b.
Proof.
  intros H. now apply append_inj_l, num_to_string_inj in H.
Qed.

Lemma css_spacing_nth (ds : DesignSystem) (i : nat) (space : string) :
  nth_error (spacing ds) i = Some space ->
  nth_error (css_spacing ds) i
  = Some (css_declaration ("spacing-" ++ num_to_string (Z.of_nat i + 1)) space).
Proof.
  intros H. unfold css_spacing, indexed.
  now rewrite nth_error_map, (nth_error_indexed_from 0 _ _ _ H).
Qed.

Lemma css_radius_nth (ds : DesignSystem) (i : nat) (radius : string) :
  nth_error (borderRadius ds) i = Some radius ->
  nth_error (css_radius ds) i
  = Some (css_declaration ("radius-" ++ num_to_string (Z.of_nat i)) radius).
Proof.
  intros H. unfold css_radius, indexed.
  now rewrite nth_error_map, (nth_error_indexed_from 0 _ _ _ H).
Qed.

Lemma scss_spacing_nth (ds : DesignSystem) (i : nat) (space : string) :
  nth_error (spacing ds) i = Some space ->
  nth_error (scss_spacing ds) i
  = Some (scss_variable ("spacing-" ++ num_to_string (Z.of_nat i + 1)) space).
Proof.
  intros H. unfold scss_spacing, indexed.
  now rewrite nth_error_map, (nth_error_indexed_from 0 _ _ _ H).
Qed.

Lemma scss_radius_nth (ds : DesignSystem) (i : nat) (radius : string) :
  nth_error (borderRadius ds) i = Some radius ->
  nth_error (scss_radius ds) i
  = Some (scss_variable ("border-radius-" ++ num_to_string (Z.of_nat i)) radius).
Proof.
  intros H. unfold scss_radius, indexed.
  now rewrite nth_error_map, (nth_error_indexed_from 0 _ _ _ H).
Qed.

Lemma generateCSS_contains (ds : DesignSystem) (d : string) :
  In d (css_declarations ds) -> Str.contains d (generateCSS ds) = true.
Proof.
  intros H. rewrite generateCSS_declarations.
  apply (contains_app_skip d ":root {"), (contains_app_skip d nl).
  now apply contains_app_l, contains_cat.
Qed.

Lemma generateSCSSVariables_contains_spacing (ds : DesignSystem) (d : string) :
  In d (scss_spacing ds) ->
  Str.contains d (ExportModal.generateSCSSVariables ds) = true.
Proof.
  intros H. rewrite generateSCSSVariables_groups.
  do 5 apply contains_app_skip.
  apply (contains_app_skip d "// Colors"), (contains_app_skip d nl).
  apply (contains_app_skip d (Str.cat (scss_colors ds))), (contains_app_skip d nl).
  apply (contains_app_skip d "// Typography"), (contains_app_skip d nl).
  apply (contains_app_skip d (Str.cat (scss_typography ds))), (contains_app_skip d nl).
  apply (contains_app_skip d "// Spacing"), (contains_app_skip d nl).
  now apply contains_app_l, contains_cat.
Qed.

Lemma generateSCSSVariables_contains_radius (ds : DesignSystem) (d : string) :
  In d (scss_radius ds) ->
  Str.contains d (ExportModal.generateSCSSVariables ds) = true.
Proof.
  intros H. rewrite generateSCSSVariables_groups.
  do 5 apply contains_app_skip.
  apply (contains_app_skip d "// Colors"), (contains_app_skip d nl).
  apply (contains_app_skip d (Str.cat (scss_colors ds))), (contains_app_skip d nl).
  apply (contains_app_skip d "// Typography"), (contains_app_skip d nl).
  apply (contains_app_skip d (Str.cat (scss_typography ds))), (contains_app_skip d nl).
  apply (contains_app_skip d "// Spacing"), (contains_app_skip d nl).
  apply (contains_app_skip d (Str.cat (scss_spacing ds))), (contains_app_skip d nl).
  apply (contains_app_skip d "// Border Radius"), (contains_app_skip d nl).
  now apply contains_cat.
Qed.

Lemma figmaVariables_spacing (ds : DesignSystem) (i : nat) (space : string) :
  nth_error (spacing ds) i = Some space ->
  Obj.get ("spacing/" ++ num_to_string (Z.of_nat i + 1)) (figmaVariables ds)
  = Some (JString space).
Proof.
  intros H. unfold figmaVariables, forEachIndexed.
  rewrite get_set_other by discriminate.
  rewrite (get_forEach_from_other (fun n => "radius/" ++ num_to_string n) JString)
    by (reflexivity || (intros; discriminate)).
  apply (get_forEach_from_at (fun n => "spacing/" ++ num_to_string (n + 1)) JString
           _ (fun o x n => eq_refl) (spacing_key_inj "spacing/") 0 _ _ i space H).
Qed.

Lemma figmaVariables_radius (ds : DesignSystem) (i : nat) (radius : string) :
  nth_error (borderRadius ds) i = Some radius ->
  Obj.get ("radius/" ++ num_to_string (Z.of_nat i)) (figmaVariables ds)
  = Some (JString radius).
Proof.
  intros H. unfold figmaVariables, forEachIndexed.
  rewrite get_set_other by discriminate.
  apply (get_forEach_from_at (fun n => "radius/" ++ num_to_string n) JString
           _ (fun o x n => eq_refl) (radius_key_inj "radius/") 0 _ _ i radius H).
Qed.

Lemma tailwindConfig_spacing (ds : DesignSystem) (i : nat) (space : string) :
  nth_error (spacing ds) i = Some space ->
  JSON.at_path ["theme"; "extend"; "spacing"; num_to_string (Z.of_nat i + 1)]
    (ExportModal.tailwindConfig ds) = Some (JString space).
Proof.
  intros H. unfold ExportModal.tailwindConfig.
  cbn [JSON.at_path Obj.get String.eqb Ascii.eqb Bool.eqb].
  unfold ExportModal.tailwindSpacing, reduce.
  now rewrite (get_forEach_from_at (fun n => num_to_string (n + 1)) JString
                 _ (fun o x n => eq_refl) (spacing_key_inj EmptyString) 0 _ _ i space H).
Qed.

Lemma tailwindConfig_radius (ds : DesignSystem) (i : nat) (radius : string) :
  nth_error (borderRadius ds) i = Some radius ->
  JSON.at_path ["theme"; "extend"; "borderRadius"; num_to_string (Z.of_nat i)]
    (ExportModal.tailwindConfig ds) = Some (JString radius).
Proof.
  intros H. unfold ExportModal.tailwindConfig.
  cbn [JSON.at_path Obj.get String.eqb Ascii.eqb Bool.eqb].
  unfold ExportModal.tailwindBorderRadius, reduce.
  now rewrite (get_forEach_from_at (fun n => num_to_string n) JString
                 _ (fun o x n => eq_refl) (radius_key_inj EmptyString) 0 _ _ i radius H).
Qed.

Lemma tokens_spacing (ds : DesignSystem) (i : nat) (space : string) :
  nth_error (spacing ds) i = Some space ->
  JSON.at_path ["global"; "spacing"; num_to_string (Z.of_nat i + 1)]
    (ExportModal.tokens ds)
  = Some (JObject [("value", JString space); ("type", JString "spacing")]).
Proof.
  intros H. unfold ExportModal.tokens.
  cbn [JSON.at_path Obj.get String.eqb Ascii.eqb Bool.eqb].
  unfold ExportModal.tokensSpacing, forEachIndexed.
  now rewrite (get_forEach_from_at (fun n => num_to_string (n + 1))
                 (fun x => JObject [("value", JString x); ("type", JString "spacing")])
                 _ (fun o x n => eq_refl) (spacing_key_inj EmptyString) 0 _ _ i space H).
Qed.

Lemma tokens_radius (ds : DesignSystem) (i : nat) (radius : string) :
  nth_error (borderRadius ds) i = Some radius ->
  JSON.at_path ["global"; "borderRadius"; num_to_string (Z.of_nat i)]
    (ExportModal.tokens ds)
  = Some (JObject [("value", JString radius); ("type", JString "borderRadius")]).
Proof.
  intros H. unfold ExportModal.tokens.
  cbn [JSON.at_path Obj.get String.eqb Ascii.eqb Bool.eqb].
  unfold ExportModal.tokensBorderRadius, forEachIndexed.
  now rewrite (get_forEach_from_at (fun n => num_to_string n)
                 (fun x => JObject [("value", JString x); ("type", JString "borderRadius")])
                 _ (fun o x n => eq_refl) (radius_key_inj EmptyString) 0 _ _ i radius H).
Qed.

(** No spacing entry is exported under the key 0. *)
Lemma spacing_key_0_absent (ds : DesignSystem) :
  Obj.get ("spacing/" ++ num_to_string 0) (figmaVariables ds) = None
  /\ JSON.at_path ["theme"; "extend"; "spacing"; num_to_string 0]
       (ExportModal.tailwindConfig ds) = None
  /\ JSON.at_path ["global"; "spacing"; num_to_string 0] (ExportModal.tokens ds)
     = None.
Proof.
  assert (K : forall p j, 0 <= j -> p ++ num_to_string 0 <> p ++ num_to_string (j + 1)).
  { intros p j Hj E. apply append_inj_l, num_to_string_inj in E. lia. }
  repeat split.
  - unfold figmaVariables, forEachIndexed.
    rewrite get_set_other by discriminate.
    rewrite (get_forEach_from_other (fun n => "radius/" ++ num_to_string n) JString)
      by (reflexivity || (intros; discriminate)).
    rewrite (get_forEach_from_other (fun n => "spacing/" ++ num_to_string (n + 1)) JString)
      by (reflexivity || (intros; now apply K)).
    rewrite get_forEach_other.
    + rewrite get_forEach_other; [reflexivity|].
      intros o [role shades]. apply get_forEach_other.
      intros o' [step value]. apply get_set_other. discriminate.
    + intros o [size_ e]. rewrite !get_set_other by discriminate. reflexivity.
  - unfold ExportModal.tailwindConfig.
    cbn [JSON.at_path Obj.get String.eqb Ascii.eqb Bool.eqb].
    unfold ExportModal.tailwindSpacing, reduce.
    now rewrite (get_forEach_from_other (fun n => num_to_string (n + 1)) JString)
      by (reflexivity || (intros; now apply (K EmptyString))).
  - unfold ExportModal.tokens.
    cbn [JSON.at_path Obj.get String.eqb Ascii.eqb Bool.eqb].
    unfold ExportModal.tokensSpacing, forEachIndexed.
    now rewrite (get_forEach_from_other (fun n => num_to_string (n + 1))
                   (fun x => JObject [("value", JString x); ("type", JString "spacing")]))
      by (reflexivity || (intros; now apply (K EmptyString))).
Qed.

(** ** Objects keyed by consecutive numbers *)

Lemma array_index_num (n : Z) :
  0 <= n ->
  Obj.array_index (num_to_string n)
  = if (n <? 4294967295)%Z then Some (Z.to_N n) else None.
Proof.
  intros Hn. unfold num_to_string, Obj.array_index.
  destruct n as [|p|p]; [reflexivity| |lia].
  cbn [Z.to_int NilEmpty.string_of_int].
  rewrite NilEmpty.usu.
  change (Pos.to_uint p) with (N.to_uint (Npos p)).
  rewrite DecimalN.Unsigned.of_to, String.eqb_refl. simpl Z.to_N.
  cbn [andb]. unfold N.ltb, Z.ltb. cbn [N.compare Z.compare]. reflexivity.
Qed.

Lemma insert_index_last {V} (n : N) (k : string) (v : V) (o : Obj.t V) :
  Forall (fun kv => exists m, Obj.array_index (fst kv) = Some m /\ (m < n)%N) o ->
  Obj.insert_index n k v o = (o ++ [(k, v)])%list.
Proof.
  induction 1 as [|[k' v'] o (m & Hm & Hlt) _ IH]; simpl; [reflexivity|].
  simpl in Hm. rewrite Hm.
  apply N.ltb_lt in Hlt. rewrite Hlt. now rewrite IH.
Qed.

Lemma indexed_from_app {A} (i : Z) (a b : list A) :
  indexed_from i (a ++ b)
  = (indexed_from i a ++ indexed_from (i + Z.of_nat (List.length a)) b)%list.
Proof.
  revert i. induction a as [|x a IH]; intros i; simpl.
  - now replace (i + 0) with i by lia.
  - rewrite IH. do 3 f_equal. lia.
Qed.

Lemma indexed_from_range {A} (i j : Z) (x : A) (l : list A) :
  In (j, x) (indexed_from i l) -> i <= j < i + Z.of_nat (List.length l).
Proof.
  revert i. induction l as [|y l IH]; intros i; simpl; [tauto|].
  intros [H|H].
  - injection H as <- _. lia.
  - apply IH in H. lia.
Qed.

Section Numbered.
Context {A V : Type}.
Variable off : Z.
Variable key : Z -> string.
Variable val : A -> V.
Variable body : Obj.t V -> A -> Z -> Obj.t V.
Hypothesis off_nonneg : 0 <= off.
Hypothesis key_num : forall i, key i = num_to_string (i + off).
Hypothesis body_sets : forall o x i, body o x i = Obj.set (key i) (val x) o.

Lemma numbered_get_absent (l0 : list A) (i : Z) :
  Z.of_nat (List.length l0) <= i ->
  Obj.get (key i) (map (fun '(n, x) => (key n, val x)) (indexed_from 0 l0)) = None.
Proof.
  intros Hi.
  assert (G : forall (o : list (Z * A)),
             (forall j x, In (j, x) o -> j < i) ->
             Obj.get (key i) (map (fun '(n, x) => (key n, val x)) o) = None).
  { induction o as [|[j x] o IH]; intros Ho; simpl; [reflexivity|].
    destruct (String.eqb (key i) (key j)) eqn:E.
    - apply String.eqb_eq in E. rewrite !key_num in E.
      apply num_to_string_inj in E.
      specialize (Ho j x (or_introl eq_refl)). lia.
    - apply IH. intros j' x' H. apply (Ho j' x'). now right. }
  apply G. intros j x H. apply indexed_from_range in H. lia.
Qed.

Lemma numbered_set_appends (l0 : list A) (x : A) :
  Obj.set (key (Z.of_nat (List.length l0))) (val x)
    (map (fun '(n, x) => (key n, val x)) (indexed_from 0 l0))
  = map (fun '(n, x) => (key n, val x)) (indexed_from 0 (l0 ++ [x])).
Proof.
  set (i := Z.of_nat (List.length l0)).
  rewrite indexed_from_app, map_app. simpl. fold i.
  unfold Obj.set, Obj.has.
  rewrite numbered_get_absent by (subst i; lia).
  destruct (Obj.array_index (key i)) as [n|] eqn:E; [|reflexivity].
  apply insert_index_last.
  rewrite key_num, array_index_num in E by lia.
  destruct (i + off <? 4294967295)%Z eqn:Hlt; [|discriminate].
  injection E as <-. apply Z.ltb_lt in Hlt.
  apply Forall_map, Forall_forall. intros [j y] Hin.
  apply indexed_from_range in Hin. subst i. cbn [fst].
  exists (Z.to_N (j + off)). split.
  - rewrite key_num, array_index_num by lia.
    assert (Hj : (j + off <? 4294967295)%Z = true) by (apply Z.ltb_lt; lia).
    now rewrite Hj.
  - lia.
Qed.

Lemma numbered_fill_from (l l0 : list A) :
  forEach_from (Z.of_nat (List.length l0)) l body
    (map (fun '(n, x) => (key n, val x)) (indexed_from 0 l0))
  = map (fun '(n, x) => (key n, val x)) (indexed_from 0 (l0 ++ l)).
Proof.
  revert l0. induction l as [|x l IH]; intros l0; simpl.
  - now rewrite app_nil_r.
  - rewrite body_sets, numbered_set_appends.
    replace (Z.of_nat (List.length l0) + 1)
      with (Z.of_nat (List.length (l0 ++ [x])))
      by (rewrite length_app; simpl; lia).
    rewrite IH, <- app_assoc. reflexivity.
Qed.

(** Filling an empty object under the keys [off], [off + 1], ... lists the
    entries in array order. *)
Lemma numbered_fill (l : list A) :
  forEach_from 0 l body []
  = map (fun '(n, x) => (key n, val x)) (indexed l).
Proof.
  exact (numbered_fill_from l []).
Qed.

End Numbered.

(** The spacing and radius objects of the build-tool configuration and of the
    token file, entry by entry. *)
Lemma numbered_objects (ds : DesignSystem) :
  ExportModal.tailwindSpacing ds
  = map (fun '(n, space) => (num_to_string (n + 1), JString space))
        (indexed (spacing ds))
  /\ ExportModal.tailwindBorderRadius ds
     = map (fun '(n, radius) => (num_to_string n, JString radius))
           (indexed (borderRadius ds))
  /\ ExportModal.tokensSpacing ds
     = map (fun '(n, space) =>
              (num_to_string (n + 1),
               JObject [("value", JString space); ("type", JString "spacing")]))
           (indexed (spacing ds))
  /\ ExportModal.tokensBorderRadius ds
     = map (fun '(n, radius) =>
              (num_to_string n,
               JObject [("value", JString radius); ("type", JString "borderRadius")]))
           (indexed (borderRadius ds)).
Proof.
  repeat split.
  - apply (numbered_fill 1 (fun n => num_to_string (n + 1)) JString); auto; lia.
  - apply (numbered_fill 0 (fun n => num_to_string n) JString); auto; try lia.
    intros i. now rewrite Z.add_0_r.
  - apply (numbered_fill 1 (fun n => num_to_string (n + 1))
             (fun x => JObject [("value", JString x); ("type", JString "spacing")]));
      auto; lia.
  - apply (numbered_fill 0 (fun n => num_to_string n)
             (fun x => JObject [("value", JString x); ("type", JString "borderRadius")]));
      auto; try lia.
    intros i. now rewrite Z.add_0_r.
Qed.

(** C2. In each of the five formats the spacing entry at position [i] of its
    array is exported under the key [i + 1] and the radius entry at position
    [i] under the key [i]: [spacing/<i+1>] and [radius/<i>] in the structured
    variables, [--spacing-<i+1>] and [--radius-<i>] in the stylesheet, the
    keys [i+1] of [spacing] and [i] of [borderRadius] in the build-tool
    configuration and in the token file, [$spacing-<i+1>] and
    [$border-radius-<i>] in the preprocessor variables. *)
Theorem spacing_radius_keys (ds : DesignSystem) :
  (forall i space, nth_error (spacing ds) i = Some space ->
     let key := num_to_string (Z.of_nat i + 1) in
     Obj.get ("spacing/" ++ key) (figmaVariables ds) = Some (JString space)
     /\ nth_error (css_spacing ds) i
        = Some ("  --spacing-" ++ key ++ ": " ++ space ++ ";" ++ nl)
     /\ Str.contains ("  --spacing-" ++ key ++ ": " ++ space ++ ";" ++ nl)
          (generateCSS ds) = true
     /\ JSON.at_path ["theme"; "extend"; "spacing"; key]
          (ExportModal.tailwindConfig ds) = Some (JString space)
     /\ Str.contains ("$spacing-" ++ key ++ ": " ++ space ++ ";" ++ nl)
          (ExportModal.generateSCSSVariables ds) = true
     /\ JSON.at_path ["global"; "spacing"; key] (ExportModal.tokens ds)
        = Some (JObject [("value", JString space); ("type", JString "spacing")]))
  /\ (forall i radius, nth_error (borderRadius ds) i = Some radius ->
     let key := num_to_string (Z.of_nat i) in
     Obj.get ("radius/" ++ key) (figmaVariables ds) = Some (JString radius)
     /\ nth_error (css_radius ds) i
        = Some ("  --radius-" ++ key ++ ": " ++ radius ++ ";" ++ nl)
     /\ Str.contains ("  --radius-" ++ key ++ ": " ++ radius ++ ";" ++ nl)
          (generateCSS ds) = true
     /\ JSON.at_path ["theme"; "extend"; "borderRadius"; key]
          (ExportModal.tailwindConfig ds) = Some (JString radius)
     /\ Str.contains ("$border-radius-" ++ key ++ ": " ++ radius ++ ";" ++ nl)
          (ExportModal.generateSCSSVariables ds) = true
     /\ JSON.at_path ["global"; "borderRadius"; key] (ExportModal.tokens ds)
        = Some (JObject [("value", JString radius);
                         ("type", JString "borderRadius")]))
  /\ (Obj.keys (ExportModal.tailwindSpacing ds)
      = map (fun '(n, _) => num_to_string (n + 1)) (indexed (spacing ds))
      /\ Obj.keys (ExportModal.tailwindBorderRadius ds)
         = map (fun '(n, _) => num_to_string n) (indexed (borderRadius ds))
      /\ Obj.keys (ExportModal.tokensSpacing ds)
         = map (fun '(n, _) => num_to_string (n + 1)) (indexed (spacing ds))
      /\ Obj.keys (ExportModal.tokensBorderRadius ds)
         = map (fun '(n, _) => num_to_string n) (indexed (borderRadius ds))
      /\ Obj.get ("spacing/" ++ num_to_string 0) (figmaVariables ds) = None)
  /\ generateFigmaVariables ds = JSON.stringify (JObject (figmaVariables ds))
  /\ ExportModal.generateTailwindConfig ds
     = JSON.stringify (ExportModal.tailwindConfig ds)
  /\ ExportModal.generateTokensStudio ds = JSON.stringify (ExportModal.tokens ds).
Proof.
  split; [|split; [|split; [|repeat split]]].
  - intros i space H key. subst key.
    pose proof (css_spacing_nth ds i space H) as Hc.
    pose proof (scss_spacing_nth ds i space H) as Hs.
    split; [now apply figmaVariables_spacing|].
    split; [rewrite Hc; f_equal; str_eq|].
    split.
    { apply nth_error_In in Hc.
      replace ("  --spacing-" ++ num_to_string (Z.of_nat i + 1) ++ ": " ++ space
               ++ ";" ++ nl)
        with (css_declaration ("spacing-" ++ num_to_string (Z.of_nat i + 1)) space)
        by str_eq.
      apply generateCSS_contains. unfold css_declarations.
      rewrite !in_app_iff. tauto. }
    split; [now apply tailwindConfig_spacing|].
    split; [|now apply tokens_spacing].
    apply nth_error_In in Hs.
    replace ("$spacing-" ++ num_to_string (Z.of_nat i + 1) ++ ": " ++ space
             ++ ";" ++ nl)
      with (scss_variable ("spacing-" ++ num_to_string (Z.of_nat i + 1)) space)
      by str_eq.
    now apply generateSCSSVariables_contains_spacing.
  - intros i radius H key. subst key.
    pose proof (css_radius_nth ds i radius H) as Hc.
    pose proof (scss_radius_nth ds i radius H) as Hs.
    split; [now apply figmaVariables_radius|].
    split; [rewrite Hc; f_equal; str_eq|].
    split.
    { apply nth_error_In in Hc.
      replace ("  --radius-" ++ num_to_string (Z.of_nat i) ++ ": " ++ radius
               ++ ";" ++ nl)
        with (css_declaration ("radius-" ++ num_to_string (Z.of_nat i)) radius)
        by str_eq.
      apply generateCSS_contains. unfold css_declarations.
      rewrite !in_app_iff. tauto. }
    split; [now apply tailwindConfig_radius|].
    split; [|now apply tokens_radius].
    apply nth_error_In in Hs.
    replace ("$border-radius-" ++ num_to_string (Z.of_nat i) ++ ": " ++ radius
             ++ ";" ++ nl)
      with (scss_variable ("border-radius-" ++ num_to_string (Z.of_nat i)) radius)
      by str_eq.
    now apply generateSCSSVariables_contains_radius.
  - destruct (numbered_objects ds) as (H1 & H2 & H3 & H4).
    unfold Obj.keys. rewrite H1, H2, H3, H4, !map_map.
    repeat split;
      try (apply map_ext; now intros [n x]).
    apply (spacing_key_0_absent ds).
Qed.

Lemma spacing_radius_keys_witness :
  nth_error (spacing testDesignSystem) 0 = Some "4px"
  /\ nth_error (borderRadius testDesignSystem) 0 = Some "0px"
  /\ Str.contains ("  --spacing-1: 4px;" ++ nl) (generateCSS testDesignSystem) = true
  /\ Str.contains ("  --radius-0: 0px;" ++ nl) (generateCSS testDesignSystem) = true.
Proof.
  assert (Hs : nth_error (spacing testDesignSystem) 0 = Some "4px") by reflexivity.
  assert (Hr : nth_error (borderRadius testDesignSystem) 0 = Some "0px") by reflexivity.
  split; [exact Hs|]. split; [exact Hr|].
  destruct (spacing_radius_keys testDesignSystem) as (Hspacing & Hradius & _).
  split.
  - exact (proj1 (proj2 (proj2 (Hspacing 0%nat "4px" Hs)))).
  - exact (proj1 (proj2 (proj2 (Hradius 0%nat "0px" Hr)))).
Defined.

(** The texts the structured exports give for these two entries. *)
Lemma spacing_radius_keys_in_json :
  Str.contains (JSON.quote "spacing/1" ++ ": " ++ JSON.quote "4px")
    (generateFigmaVariables testDesignSystem) = true
  /\ Str.contains (JSON.quote "radius/0" ++ ": " ++ JSON.quote "0px")
       (generateFigmaVariables testDesignSystem) = true
  /\ Str.contains (JSON.quote "spacing" ++ ": {" ++ nl ++ "        "
                   ++ JSON.quote "1" ++ ": " ++ JSON.quote "4px")
       (ExportModal.generateTailwindConfig testDesignSystem) = true
  /\ Str.contains (JSON.quote "borderRadius" ++ ": {" ++ nl ++ "        "
                   ++ JSON.quote "0" ++ ": " ++ JSON.quote "0px")
       (ExportModal.generateTailwindConfig testDesignSystem) = true
  /\ Str.contains (JSON.quote "spacing" ++ ": {" ++ nl ++ "      "
                   ++ JSON.quote "1" ++ ": {" ++ nl ++ "        "
                   ++ JSON.quote "value" ++ ": " ++ JSON.quote "4px")
       (ExportModal.generateTokensStudio testDesignSystem) = true.
Proof.
  repeat split; vm_compute; reflexivity.
Qed.


(** ** Worked examples *)

Example generateColorShade_210_70 :
  ColorShade_entries (generateColorShade 210 70)
  = [("50", "hsl(210, 30%, 95%)"); ("100", "hsl(210, 40%, 90%)");
     ("200", "hsl(210, 50%, 80%)"); ("300", "hsl(210, 60%, 70%)");
     ("400", "hsl(210, 70%, 60%)"); ("500", "hsl(210, 70%, 50%)");
     ("600", "hsl(210, 70%, 40%)"); ("700", "hsl(210, 80%, 30%)");
     ("800", "hsl(210, 90%, 20%)"); ("900", "hsl(210, 100%, 10%)")].
Proof. reflexivity. Qed.

Example generateColorShade_neutral :
  map snd (ColorShade_entries (generateColorShade 0 5))
  = ["hsl(0, 10%, 95%)"; "hsl(0, 15%, 90%)"; "hsl(0, 20%, 80%)";
     "hsl(0, 25%, 70%)"; "hsl(0, 5%, 60%)"; "hsl(0, 5%, 50%)";
     "hsl(0, 5%, 40%)"; "hsl(0, 15%, 30%)"; "hsl(0, 25%, 20%)";
     "hsl(0, 35%, 10%)"].
Proof. reflexivity. Qed.

Example generateComponentCode_example_button :
  ComponentGenerator.generateComponentCode ComponentGenerator.example_button
  = "<Button variant=" ++ dq ++ "primary" ++ dq ++ " size=" ++ dq ++ "md" ++ dq
    ++ " disabled>" ++ nl ++ "  Click me" ++ nl ++ "</Button>".
Proof. reflexivity. Qed.

Example generateComponentCode_no_props :
  ComponentGenerator.generateComponentCode ComponentGenerator.initialComponent
  = "<Button variant=" ++ dq ++ "primary" ++ dq ++ " size=" ++ dq ++ "md" ++ dq
    ++ " >" ++ nl ++ "  Click me" ++ nl ++ "</Button>".
Proof. reflexivity. Qed.

Example generateCSS_spacing_and_radius :
  css_spacing testDesignSystem
  = ["  --spacing-1: 4px;" ++ nl; "  --spacing-2: 8px;" ++ nl;
     "  --spacing-3: 12px;" ++ nl; "  --spacing-4: 16px;" ++ nl;
     "  --spacing-5: 20px;" ++ nl; "  --spacing-6: 24px;" ++ nl;
     "  --spacing-7: 32px;" ++ nl; "  --spacing-8: 40px;" ++ nl;
     "  --spacing-9: 48px;" ++ nl; "  --spacing-10: 64px;" ++ nl]
  /\ css_radius testDesignSystem
     = ["  --radius-0: 0px;" ++ nl; "  --radius-1: 4px;" ++ nl;
        "  --radius-2: 8px;" ++ nl; "  --radius-3: 12px;" ++ nl;
        "  --radius-4: 16px;" ++ nl; "  --radius-5: 24px;" ++ nl].
Proof. split; reflexivity. Qed.

Example updateProp_keeps_order :
  ComponentGenerator.props
    (ComponentGenerator.updateProp "disabled" false
       ComponentGenerator.example_button)
  = [("disabled", false); ("loading", false)].
Proof. reflexivity. Qed.

Example set_orders_array_indices :
  Obj.keys (Obj.set "5" 1 (Obj.set "b" 2 (Obj.set "10" 3 (Obj.set "a" 4
             (Obj.set "07" 5 [])))))
  = ["5"; "10"; "07"; "a"; "b"].
Proof. reflexivity. Qed.

(** * Further properties of the palette generator *)

(** X1. The ten colours of [generateColorShade h s] are all valid exactly when
    the hue is in [[0, 360)] and the saturation in [[0, 100]]: the low and the
    high steps are clamped, the steps 400 to 600 carry the saturation as it
    is given. *)
Theorem generateColorShade_valid_iff (h s : Z) :
  valid_shade (generateColorShade h s) <-> 0 <= h < 360 /\ 0 <= s <= 100.
Proof.
  split.
  - unfold valid_shade. rewrite generateColorShade_colors. intros H.
    do 4 (apply Forall_inv_tail in H). apply Forall_inv in H.
    destruct H as (x & E & (Hh & Hs & _)). injection E as <-. simpl in *. lia.
  - intros [Hh Hs]. now apply generateColorShade_valid.
Qed.

(** X2. Along the steps 50 to 900 the saturation of [generateColorShade h s]
    never decreases exactly when 25 <= s <= 100.  Below 25 the floor of step
    300 exceeds the saturation of step 400, as in the neutral ramp. *)
Theorem generateColorShade_saturation_order (h s : Z) :
  nondecreasing (shade_saturations (generateColorShade h s)) <-> 25 <= s <= 100.
Proof.
  unfold shade_saturations. rewrite generateColorShade_colors.
  cbn [flat_map app sat nondecreasing]. lia.
Qed.

(** X3. A shade determines the hue and the saturation it was generated
    from. *)
Theorem generateColorShade_inj (h s h' s' : Z) :
  generateColorShade h s = generateColorShade h' s' -> h = h' /\ s = s'.
Proof.
  intros H. apply (f_equal ColorShade_colors) in H.
  rewrite !generateColorShade_colors in H.
  apply (f_equal (fun l => nth 4 l None)) in H. simpl in H.
  injection H as -> ->. split; reflexivity.
Qed.

Lemma generateColorShade_inj_witness :
  generateColorShade 210 70 = generateColorShade 210 70 /\ 210 = 210.
Proof.
  split; [reflexivity|].
  exact (proj1 (generateColorShade_inj 210 70 210 70 eq_refl)).
Defined.

Lemma generateColorShade_shade_hues (h s : Z) :
  shade_hues (generateColorShade h s) = repeat h 10.
Proof.
  unfold shade_hues. now rewrite generateColorShade_colors.
Qed.

Lemma generateRandomPalette_run (w : World) :
  generateRandomPalette w
  = ({| primary := generateColorShade (drawn_hue w) 70;
        secondary := generateColorShade (Z.rem (drawn_hue w + 180) 360) 60;
        accent := generateColorShade (Z.rem (drawn_hue w + 120) 360) 80;
        neutral := generateColorShade 0 5;
        success := generateColorShade 120 60;
        warning := generateColorShade 45 80;
        error := generateColorShade 0 70 |},
     mkWorld (entropy w) (S (cursor w)) (designSystem w)).
Proof.
  reflexivity.
Qed.

(** X4. [generateRandomPalette] draws exactly one random number and leaves
    the design system alone; the hues of the primary, secondary and accent
    shades it returns are pairwise different. *)
Theorem generateRandomPalette_one_draw (w : World) :
  fair w ->
  let (palette, w') := generateRandomPalette w in
  cursor w' = S (cursor w)
  /\ entropy w' = entropy w
  /\ designSystem w' = designSystem w
  /\ exists hp hs ha,
       shade_hues (primary palette) = repeat hp 10
       /\ shade_hues (secondary palette) = repeat hs 10
       /\ shade_hues (accent palette) = repeat ha 10
       /\ hp <> hs /\ hp <> ha /\ hs <> ha.
Proof.
  intros Hw. rewrite generateRandomPalette_run.
  assert (Hh : 0 <= drawn_hue w < 360) by (apply random_below_range; [assumption|lia]).
  repeat split.
  exists (drawn_hue w), (Z.rem (drawn_hue w + 180) 360),
         (Z.rem (drawn_hue w + 120) 360).
  cbn [primary secondary accent]. rewrite !generateColorShade_shade_hues.
  rewrite !Z.rem_mod_nonneg by lia.
  repeat split; Z.div_mod_to_equations; lia.
Qed.

Lemma generateRandomPalette_one_draw_witness :
  fair testWorld /\ cursor (snd (generateRandomPalette testWorld)) = 1%nat.
Proof.
  pose proof fair_testWorld as Hw.
  split; [exact Hw|].
  pose proof (generateRandomPalette_one_draw testWorld Hw) as H.
  destruct (generateRandomPalette testWorld) as [palette w'].
  exact (proj1 H).
Defined.

(** * Editing the design system *)

Lemma fair_entropy (w w' : World) : entropy w' = entropy w -> fair w -> fair w'.
Proof.
  unfold fair. intros E H n. rewrite E. apply H.
Qed.

Lemma fontFamilies_nth (i : Z) :
  0 <= i < Z.of_nat (List.length fontFamilies) ->
  In (nth (Z.to_nat i) fontFamilies "undefined") fontFamilies.
Proof.
  intros H. apply nth_In. lia.
Qed.

Lemma random_below_run (n : Z) (w : World) :
  random_below n w
  = (fst (random_below n w), mkWorld (entropy w) (S (cursor w)) (designSystem w)).
Proof.
  reflexivity.
Qed.

Lemma generateRandomSystem_run (w : World) :
  let w1 := mkWorld (entropy w) (S (cursor w)) (designSystem w) in
  let w2 := mkWorld (entropy w) (S (S (cursor w))) (designSystem w) in
  generateRandomSystem w
  = (tt, mkWorld (entropy w) (S (S (S (cursor w))))
           {| name := "Design System " ++ num_to_string (fst (random_below 1000 w));
              colors := fst (generateRandomPalette w2);
              typography := defaultTypography;
              spacing := defaultSpacing;
              borderRadius := defaultBorderRadius;
              fontFamily :=
                nth (Z.to_nat (fst (random_below
                                      (Z.of_nat (List.length fontFamilies)) w1)))
                    fontFamilies "undefined" |}).
Proof.
  reflexivity.
Qed.

(** X5. "Generate Random" draws three random numbers.  The new name is
    [Design System n] with n in [[0, 1000)], the new font is one of the ten
    fonts of [fontFamilies] (the index is never out of range), the palette is
    the one [generateRandomPalette] gives at the third draw, and typography,
    spacing and radius are the defaults. *)
Theorem generateRandomSystem_result (w : World) :
  fair w ->
  let w' := snd (generateRandomSystem w) in
  let ds := designSystem w' in
  cursor w' = (cursor w + 3)%nat
  /\ entropy w' = entropy w
  /\ (exists n, 0 <= n < 1000 /\ name ds = "Design System " ++ num_to_string n)
  /\ In (fontFamily ds) fontFamilies
  /\ colors ds
     = drawn_palette (mkWorld (entropy w) (cursor w + 2) (designSystem w))
  /\ typography ds = defaultTypography
  /\ spacing ds = defaultSpacing
  /\ borderRadius ds = defaultBorderRadius.
Proof.
  intros Hw w' ds. subst ds w'. rewrite generateRandomSystem_run.
  cbn [snd designSystem cursor entropy name fontFamily colors typography
       spacing borderRadius].
  split; [lia|]. split; [reflexivity|].
  split.
  { exists (fst (random_below 1000 w)). split; [|reflexivity].
    apply random_below_range; [assumption|lia]. }
  split.
  { apply fontFamilies_nth. apply random_below_range; [|simpl; lia].
    now apply (fair_entropy w). }
  split; [|repeat split].
  unfold drawn_palette.
  replace (cursor w + 2)%nat with (S (S (cursor w))) by lia. reflexivity.
Qed.

Lemma generateRandomSystem_result_witness :
  fair testWorld
  /\ name (designSystem (snd (generateRandomSystem testWorld)))
     = "Design System 750"
  /\ fontFamily (designSystem (snd (generateRandomSystem testWorld)))
     = "Nunito, sans-serif"
  /\ cursor (snd (generateRandomSystem testWorld)) = 3%nat.
Proof.
  pose proof fair_testWorld as Hw.
  split; [exact Hw|]. split; [reflexivity|]. split; [reflexivity|].
  exact (proj1 (generateRandomSystem_result testWorld Hw)).
Defined.

Lemma ColorPalette_set_role (colorName : string) (shades : ColorShade)
    (p : ColorPalette) :
  In colorName role_names ->
  exists p', ColorPalette_set colorName shades p = Some p'
    /\ map fst (ColorPalette_entries p') = role_names
    /\ Obj.get colorName (ColorPalette_entries p') = Some shades
    /\ forall q, q <> colorName ->
         Obj.get q (ColorPalette_entries p') = Obj.get q (ColorPalette_entries p).
Proof.
  unfold role_names. simpl.
  intros [<-|[<-|[<-|[<-|[<-|[<-|[<-|[]]]]]]]];
    (eexists; split; [reflexivity|]; split; [reflexivity|];
     split; [reflexivity|];
     intros q Hq; apply String.eqb_neq in Hq;
     unfold ColorPalette_entries, Obj.get;
     cbn [primary secondary accent neutral success warning error];
     repeat match goal with
            | |- context [String.eqb q ?k] =>
                destruct (String.eqb q k) eqn:?; try reflexivity; try congruence
            end).
Qed.

(** X6. The shuffle button of a role draws one hue [h] in [[0, 360)] and binds
    that role to [generateColorShade h 70], whatever the role (so a shuffled
    neutral is no longer near-gray); the six other roles, the order of the
    roles and every other field of the design system are unchanged. *)
Theorem shuffleRole_frame (colorName : string) (w : World) :
  fair w -> In colorName role_names ->
  let (result, w') := shuffleRole colorName w in
  let before := designSystem w in
  let after := designSystem w' in
  result = Some tt
  /\ cursor w' = S (cursor w) /\ entropy w' = entropy w
  /\ name after = name before /\ typography after = typography before
  /\ spacing after = spacing before /\ borderRadius after = borderRadius before
  /\ fontFamily after = fontFamily before
  /\ 0 <= drawn_hue w < 360
  /\ Obj.get colorName (ColorPalette_entries (colors after))
     = Some (generateColorShade (drawn_hue w) 70)
  /\ map fst (ColorPalette_entries (colors after)) = role_names
  /\ forall q, q <> colorName ->
       Obj.get q (ColorPalette_entries (colors after))
       = Obj.get q (ColorPalette_entries (colors before)).
Proof.
  intros Hw Hin. unfold shuffleRole, bind.
  rewrite (random_below_run 360 w). fold (drawn_hue w).
  cbn [designSystem].
  destruct (ColorPalette_set_role colorName
              (generateColorShade (drawn_hue w) 70)
              (colors (designSystem w)) Hin) as (p' & E & Hk & Hg & Ho).
  rewrite E. unfold setDesignSystem.
  cbn [cursor entropy designSystem name typography spacing borderRadius
       fontFamily colors].
  repeat (split; [reflexivity|]).
  split; [apply random_below_range; [assumption|lia]|].
  repeat split; assumption.
Qed.

Lemma shuffleRole_frame_witness :
  fair testWorld
  /\ neutral (colors (designSystem (snd (shuffleRole "neutral" testWorld))))
     = generateColorShade 270 70
  /\ cursor (snd (shuffleRole "neutral" testWorld)) = 1%nat.
Proof.
  pose proof fair_testWorld as Hw.
  split; [exact Hw|]. split; [reflexivity|].
  assert (Hin : In "neutral" role_names) by (do 3 right; left; reflexivity).
  pose proof (shuffleRole_frame "neutral" testWorld Hw Hin) as H.
  destruct (shuffleRole "neutral" testWorld) as [result w'].
  exact (proj1 (proj2 H)).
Defined.

Lemma valid_palette_fields (p : ColorPalette) :
  valid_palette p <->
  valid_shade (primary p) /\ valid_shade (secondary p) /\ valid_shade (accent p)
  /\ valid_shade (neutral p) /\ valid_shade (success p)
  /\ valid_shade (warning p) /\ valid_shade (error p).
Proof.
  unfold valid_palette, ColorPalette_entries. split.
  - intros H.
    repeat match goal with
           | H : Forall _ (_ :: _) |- _ =>
               let a := fresh "Ha" in
               apply Forall_cons_iff in H; destruct H as [a H]
           end.
    simpl in *. tauto.
  - intros (H1 & H2 & H3 & H4 & H5 & H6 & H7).
    repeat (apply Forall_cons; [simpl; assumption|]). apply Forall_nil.
Qed.

Lemma ColorPalette_set_valid (colorName : string) (shades : ColorShade)
    (p p' : ColorPalette) :
  valid_shade shades -> valid_palette p ->
  ColorPalette_set colorName shades p = Some p' -> valid_palette p'.
Proof.
  intros Hs Hp E. apply valid_palette_fields in Hp.
  destruct Hp as (H1 & H2 & H3 & H4 & H5 & H6 & H7).
  apply valid_palette_fields. unfold ColorPalette_set in E.
  repeat match type of E with
         | (if ?b then _ else _) = _ =>
             destruct b; [injection E as <-; simpl; tauto|]
         end.
  discriminate E.
Qed.

Lemma generateRandomPalette_valid (w : World) :
  fair w -> valid_palette (fst (generateRandomPalette w)).
Proof.
  intros Hw. rewrite generateRandomPalette_run. cbn [fst].
  assert (Hh : 0 <= drawn_hue w < 360) by (apply random_below_range; [assumption|lia]).
  apply valid_palette_fields.
  cbn [primary secondary accent neutral success warning error].
  rewrite !Z.rem_mod_nonneg by lia.
  assert (H180 : 0 <= (drawn_hue w + 180) mod 360 < 360)
    by (apply Z.mod_pos_bound; lia).
  assert (H120 : 0 <= (drawn_hue w + 120) mod 360 < 360)
    by (apply Z.mod_pos_bound; lia).
  repeat split; apply generateColorShade_valid; lia.
Qed.

(** X7. However the user edits the design system (generate random, rename,
    pick a font, shuffle all, shuffle a role), as long as the entropy source
    is fair the state keeps the default typography, spacing and radius
    scales, a font of [fontFamilies], and seven roles whose colours are all
    valid.  So the entries the layout examples read, [spacing[1..5]] and
    [borderRadius[1..2]], are always there, and the stylesheet always has 114
    declarations. *)
Theorem ds_reachable_invariant (w0 w : World) :
  fair w0 -> ds_reachable w0 w ->
  let ds := designSystem w in
  entropy w = entropy w0
  /\ typography ds = defaultTypography
  /\ spacing ds = defaultSpacing
  /\ borderRadius ds = defaultBorderRadius
  /\ In (fontFamily ds) fontFamilies
  /\ valid_palette (colors ds)
  /\ (forall i, (1 <= i <= 5)%nat -> nth_error (spacing ds) i <> None)
  /\ (forall i, (1 <= i <= 2)%nat -> nth_error (borderRadius ds) i <> None)
  /\ List.length (css_declarations ds) = 114%nat.
Proof.
  intros Hw0 Hr.
  assert (I : entropy w = entropy w0
              /\ typography (designSystem w) = defaultTypography
              /\ spacing (designSystem w) = defaultSpacing
              /\ borderRadius (designSystem w) = defaultBorderRadius
              /\ In (fontFamily (designSystem w)) fontFamilies
              /\ valid_palette (colors (designSystem w))).
  { induction Hr as [|w e Hr IH Hoff].
    - unfold ds_start, initialDesignSystem, bind, ret.
      pose proof (generateRandomPalette_valid w0 Hw0) as Hv.
      rewrite generateRandomPalette_run in *. cbn [fst] in Hv.
      cbn [designSystem entropy typography spacing borderRadius fontFamily colors].
      repeat split; try assumption. left; reflexivity.
    - destruct IH as (He & Ht & Hs & Hb & Hf & Hp).
      assert (Hw : fair w) by (now apply (fair_entropy w0)).
      destruct e as [|value|value| |colorName]; cbn [ds_handle ds_offered] in *.
      + rewrite generateRandomSystem_run.
        cbn [snd designSystem entropy typography spacing borderRadius
             fontFamily colors].
        repeat split; try assumption.
        * apply fontFamilies_nth. apply random_below_range; [|simpl; lia].
          now apply (fair_entropy w).
        * apply generateRandomPalette_valid. now apply (fair_entropy w).
      + unfold setName, setDesignSystem. simpl. repeat split; assumption.
      + unfold setFontFamily, setDesignSystem. simpl. repeat split; assumption.
      + unfold shuffleAll, bind.
        pose proof (generateRandomPalette_valid w Hw) as Hv.
        rewrite generateRandomPalette_run in *. cbn [fst] in Hv.
        unfold setDesignSystem. simpl. repeat split; assumption.
      + unfold shuffleRole, bind. rewrite (random_below_run 360 w).
        cbn [designSystem].
        destruct (ColorPalette_set colorName _ (colors (designSystem w)))
          as [p'|] eqn:E.
        * unfold setDesignSystem. simpl. repeat split; try assumption.
          apply (ColorPalette_set_valid _ _ _ _ (generateColorShade_valid _ 70
                   (random_below_range 360 w Hw ltac:(lia)) ltac:(lia)) Hp E).
        * simpl. repeat split; assumption. }
  destruct I as (He & Ht & Hs & Hb & Hf & Hp).
  cbv zeta. repeat (split; [assumption|]).
  split; [|split].
  - intros i Hi. rewrite Hs.
    assert (i = 1 \/ i = 2 \/ i = 3 \/ i = 4 \/ i = 5)%nat as Hc by lia.
    destruct Hc as [->|[->|[->|[->| ->]]]]; discriminate.
  - intros i Hi. rewrite Hb.
    assert (i = 1 \/ i = 2)%nat as Hc by lia.
    destruct Hc as [->| ->]; discriminate.
  - unfold css_declarations, css_spacing, css_radius, indexed.
    rewrite !length_app, !length_map, !indexed_from_length, Hs, Hb. reflexivity.
Qed.

Lemma ds_reachable_invariant_witness :
  fair testWorld
  /\ ds_reachable testWorld
       (ds_handle (ShuffleRole "accent") (ds_handle GenerateRandom (ds_start testWorld)))
  /\ spacing (designSystem
       (ds_handle (ShuffleRole "accent") (ds_handle GenerateRandom (ds_start testWorld))))
     = defaultSpacing.
Proof.
  pose proof fair_testWorld as Hw.
  assert (Hr : ds_reachable testWorld
       (ds_handle (ShuffleRole "accent") (ds_handle GenerateRandom (ds_start testWorld)))).
  { apply ds_reach_step.
    - apply ds_reach_step; [apply ds_reach_start | exact I].
    - simpl. tauto. }
  split; [exact Hw|]. split; [exact Hr|].
  exact (proj1 (proj2 (proj2 (ds_reachable_invariant testWorld _ Hw Hr)))).
Defined.

(** * Further facts about objects *)

Section ObjOrder.
Context {V : Type}.
Implicit Types (o : Obj.t V) (k q : string) (v : V).

Lemma has_In_keys k o : Obj.has k o = true <-> In k (Obj.keys o).
Proof.
  unfold Obj.has, Obj.keys. induction o as [|[k' v'] o IH]; simpl.
  - split; [discriminate | tauto].
  - destruct (String.eqb k k') eqn:E.
    + apply String.eqb_eq in E. subst. split; auto.
    + apply String.eqb_neq in E. rewrite IH. split; [auto|].
      intros [H|H]; [congruence | assumption].
Qed.

Lemma keys_update k v o : Obj.keys (Obj.update k v o) = Obj.keys o.
Proof.
  unfold Obj.keys. induction o as [|[k' v'] o IH]; simpl; [reflexivity|].
  destruct (String.eqb k k'); simpl; [reflexivity | now rewrite IH].
Qed.

Lemma In_keys_insert_index n k v o q :
  In q (Obj.keys (Obj.insert_index n k v o)) <-> q = k \/ In q (Obj.keys o).
Proof.
  unfold Obj.keys. induction o as [|[k' v'] o IH]; simpl.
  - intuition.
  - destruct (Obj.array_index k') as [m|]; [destruct (m <? n)%N|]; simpl;
      rewrite ?IH; intuition.
Qed.

Lemma wf_insert_index n k v o :
  Obj.wf o -> ~ In k (Obj.keys o) -> Obj.wf (Obj.insert_index n k v o).
Proof.
  unfold Obj.wf. induction o as [|[k' v'] o IH]; simpl; intros Hnd Hk.
  - repeat constructor. simpl. tauto.
  - inversion Hnd as [|? ? Hk' Hnd']; subst.
    assert (Hcons : NoDup (k :: k' :: Obj.keys o)).
    { constructor; [exact Hk | exact Hnd]. }
    destruct (Obj.array_index k') as [m|]; [destruct (m <? n)%N|];
      unfold Obj.keys in *; simpl; try exact Hcons.
    constructor.
    + intros Hin. apply (In_keys_insert_index n k v o k') in Hin.
      destruct Hin as [->|Hin]; [apply Hk; now left | contradiction].
    + apply IH; [assumption|]. intros Hin. apply Hk. now right.
Qed.

(** Writing a property never lists a name twice. *)
Lemma wf_set k v o : Obj.wf o -> Obj.wf (Obj.set k v o).
Proof.
  intros Hwf. unfold Obj.set. destruct (Obj.has k o) eqn:E.
  - unfold Obj.wf. now rewrite keys_update.
  - assert (Hk : ~ In k (Obj.keys o)).
    { intros Hin. apply has_In_keys in Hin. congruence. }
    destruct (Obj.array_index k) as [n|].
    + now apply wf_insert_index.
    + unfold Obj.wf, Obj.keys in *. rewrite map_app. simpl.
      apply NoDup_app; [assumption | repeat constructor; simpl; tauto |].
      intros a Ha [<-|[]]. contradiction.
Qed.

(** A name that is new and is not an array index goes to the end. *)
Lemma set_fresh k v o :
  Obj.get k o = None -> Obj.array_index k = None ->
  Obj.set k v o = (o ++ [(k, v)])%list.
Proof.
  intros Hg Ha. unfold Obj.set, Obj.has. now rewrite Hg, Ha.
Qed.

(** Writing an existing name keeps every name where it is. *)
Lemma keys_set_present k v o :
  Obj.has k o = true -> Obj.keys (Obj.set k v o) = Obj.keys o.
Proof.
  intros H. unfold Obj.set. rewrite H. apply keys_update.
Qed.

Lemma update_update k v v' o :
  Obj.update k v' (Obj.update k v o) = Obj.update k v' o.
Proof.
  induction o as [|[k' w] o IH]; simpl; [reflexivity|].
  destruct (String.eqb k k') eqn:E; simpl; rewrite E; [reflexivity|].
  now rewrite IH.
Qed.

Lemma update_insert_index n k v v' o :
  Obj.has k o = false ->
  Obj.update k v' (Obj.insert_index n k v o) = Obj.insert_index n k v' o.
Proof.
  unfold Obj.has. induction o as [|[k' w] o IH]; simpl.
  - now rewrite String.eqb_refl.
  - destruct (String.eqb k k') eqn:E; [discriminate|]. intros H.
    destruct (Obj.array_index k') as [m|]; [destruct (m <? n)%N|]; simpl;
      rewrite ?E, ?String.eqb_refl, ?IH; auto.
Qed.

Lemma update_absent k v o : Obj.has k o = false -> Obj.update k v o = o.
Proof.
  unfold Obj.has. induction o as [|[k' w] o IH]; simpl; [reflexivity|].
  destruct (String.eqb k k'); [discriminate|]. intros H. now rewrite IH.
Qed.

Lemma has_set k v o : Obj.has k (Obj.set k v o) = true.
Proof.
  unfold Obj.has. now rewrite get_set_same.
Qed.

(** Of two writes to one name the second wins, at the place of the first. *)
Lemma set_set k v v' o : Obj.set k v' (Obj.set k v o) = Obj.set k v' o.
Proof.
  unfold Obj.set at 1. rewrite has_set.
  unfold Obj.set. destruct (Obj.has k o) eqn:E.
  - apply update_update.
  - destruct (Obj.array_index k) as [n|].
    + now apply update_insert_index.
    + clear - E. unfold Obj.has in E.
      induction o as [|[k' w] o IH]; simpl in *.
      * now rewrite String.eqb_refl.
      * destruct (String.eqb k k'); [discriminate|]. now rewrite IH.
Qed.

End ObjOrder.

(** * The layout of the structured exports *)

Lemma uint_of_string_nondigit (a : ascii) (s : string) :
  numeral_char a = false \/ a = "-"%char ->
  NilEmpty.uint_of_string (String a s) = None.
Proof.
  intros H. cbn [NilEmpty.uint_of_string].
  destruct (NilEmpty.uint_of_string s) as [d|]; [|reflexivity].
  destruct H as [H| ->]; [|reflexivity].
  destruct a as [[|] [|] [|] [|] [|] [|] [|] [|]];
    try reflexivity; discriminate H.
Qed.

Lemma array_index_nondigit (a : ascii) (s : string) :
  numeral_char a = false -> Obj.array_index (String a s) = None.
Proof.
  intros H. unfold Obj.array_index.
  now rewrite uint_of_string_nondigit by (now left).
Qed.

Lemma get_map_none {A V} (f : A -> string * V) (k : string) (l : list A) :
  (forall x, fst (f x) <> k) -> Obj.get k (map f l) = None.
Proof.
  intros H. induction l as [|x l IH]; simpl; [reflexivity|].
  destruct (f x) as [k' v] eqn:E.
  specialize (H x). rewrite E in H. simpl in H.
  destruct (String.eqb k k') eqn:Ek; [|exact IH].
  apply String.eqb_eq in Ek. congruence.
Qed.

Section Prefixed.
Context {A V : Type}.
Variable key : Z -> string.
Variable val : A -> V.
Variable body : Obj.t V -> A -> Z -> Obj.t V.
Hypothesis body_sets : forall o x i, body o x i = Obj.set (key i) (val x) o.
Hypothesis key_inj : forall a b, key a = key b -> a = b.
Hypothesis key_plain : forall i, Obj.array_index (key i) = None.

(** Filling an object under new names that are not array indices appends the
    entries in array order. *)
Lemma prefixed_fill (i : Z) (l : list A) (o : Obj.t V) :
  (forall j, i <= j -> Obj.get (key j) o = None) ->
  forEach_from i l body o
  = (o ++ map (fun '(n, x) => (key n, val x)) (indexed_from i l))%list.
Proof.
  revert i o. induction l as [|x l IH]; intros i o Ho; simpl.
  - now rewrite app_nil_r.
  - rewrite body_sets, set_fresh by (auto; apply Ho; lia).
    rewrite IH.
    + now rewrite <- app_assoc.
    + intros j Hj. rewrite get_app, Ho by lia. simpl.
      destruct (String.eqb (key j) (key i)) eqn:E; [|reflexivity].
      apply String.eqb_eq, key_inj in E. lia.
Qed.

End Prefixed.

Lemma figma_groups_start (ds : DesignSystem) :
  forEach (TypographyScale_entries (typography ds))
    (fun variables '(size_, props) =>
       let variables :=
         Obj.set ("typography/" ++ size_ ++ "/size") (JString (size props))
           variables in
       let variables :=
         Obj.set ("typography/" ++ size_ ++ "/lineHeight")
           (JString (lineHeight props)) variables in
       Obj.set ("typography/" ++ size_ ++ "/weight") (JString (weight props))
         variables)
    (forEach (ColorPalette_entries (colors ds))
       (fun variables '(colorName, shades) =>
          forEach (ColorShade_entries shades)
            (fun variables '(shade, value) =>
               Obj.set ("color/" ++ colorName ++ "/" ++ shade) (JString value)
                 variables)
            variables)
       [])
  = (figma_colors ds ++ figma_typography ds)%list.
Proof.
  vm_compute. reflexivity.
Qed.

Lemma figma_start_other (ds : DesignSystem) (a : ascii) (s : string) :
  Ascii.eqb a "c" = false -> Ascii.eqb a "t" = false ->
  Obj.get (String a s) (figma_colors ds ++ figma_typography ds)%list = None.
Proof.
  intros Hc Ht.
  unfold figma_colors, figma_typography, ColorPalette_entries,
    TypographyScale_entries, ColorShade_entries.
  cbn [flat_map map app append Obj.get String.eqb].
  rewrite Hc, Ht. reflexivity.
Qed.

(** X8. The structured-variable export holds, in this order, the 70 colour
    entries [color/<role>/<step>], the 27 typography entries
    [typography/<size>/size|lineHeight|weight], one [spacing/<n+1>] for each
    spacing, one [radius/<n>] for each radius and [font/family] last; no
    entry overwrites another, whatever the lengths of the two arrays. *)
Theorem figmaVariables_layout (ds : DesignSystem) :
  figmaVariables ds = figma_layout ds
  /\ List.length (figmaVariables ds)
     = (98 + List.length (spacing ds) + List.length (borderRadius ds))%nat
  /\ Obj.wf (figmaVariables ds)
  /\ generateFigmaVariables ds = JSON.stringify (JObject (figma_layout ds)).
Proof.
  assert (L : figmaVariables ds = figma_layout ds).
  { unfold figmaVariables, forEachIndexed. rewrite figma_groups_start.
    rewrite (prefixed_fill (fun n => "spacing/" ++ num_to_string (n + 1)) JString)
      with (l := spacing ds);
      [ | reflexivity | apply (spacing_key_inj "spacing/")
        | intros; apply array_index_nondigit; reflexivity
        | intros; apply figma_start_other; reflexivity ].
    rewrite (prefixed_fill (fun n => "radius/" ++ num_to_string n) JString)
      with (l := borderRadius ds);
      [ | reflexivity | apply (radius_key_inj "radius/")
        | intros; apply array_index_nondigit; reflexivity | ].
    - rewrite set_fresh.
      + unfold figma_layout, figma_spacing, figma_radius, indexed.
        now rewrite <- !app_assoc.
      + do 2 rewrite get_app. rewrite (figma_start_other ds "f") by reflexivity.
        rewrite !get_map_none; [reflexivity | |];
          intros [n x]; discriminate.
      + reflexivity.
    - intros j _. cbn beta. cbn [append].
      rewrite get_app, (figma_start_other ds "r") by reflexivity.
      apply get_map_none. intros [n x]. discriminate. }
  split; [exact L|]. split; [|split].
  - rewrite L. unfold figma_layout, figma_spacing, figma_radius, indexed.
    rewrite !length_app, !length_map, !indexed_from_length. simpl. lia.
  - unfold figmaVariables, forEachIndexed.
    apply wf_set.
    assert (W : forall (A : Type) (body : Obj.t json -> A -> Z -> Obj.t json)
                  (l : list A) i o,
               (forall o x n, Obj.wf o -> Obj.wf (body o x n)) ->
               Obj.wf o -> Obj.wf (forEach_from i l body o)).
    { intros A body l. induction l as [|x l IH]; intros i o Hb Ho; simpl; auto. }
    assert (W' : forall (A : Type) (body : Obj.t json -> A -> Obj.t json)
                   (l : list A) o,
               (forall o x, Obj.wf o -> Obj.wf (body o x)) ->
               Obj.wf o -> Obj.wf (forEach l body o)).
    { intros A body l. unfold forEach.
      induction l as [|x l IH]; intros o Hb Ho; simpl; auto. }
    apply W; [intros; now apply wf_set|].
    apply W; [intros; now apply wf_set|].
    apply W'; [intros o [size_ e] Ho; now repeat apply wf_set|].
    apply W'; [|constructor].
    intros o [role shades] Ho. apply W'; [|assumption].
    intros o' [step value] Ho'. now apply wf_set.
  - unfold generateFigmaVariables. now rewrite L.
Qed.

(** X9. The build-tool configuration is [theme.extend] with five members in
    this order: [colors] (each role bound to its ten steps in ascending
    order), [fontFamily.sans] (a one-element list holding the font family),
    [fontSize] (the typography scale as it is), [spacing] keyed 1, 2, ... and
    [borderRadius] keyed 0, 1, ..., both in array order. *)
Theorem tailwindConfig_layout (ds : DesignSystem) :
  ExportModal.tailwindConfig ds
  = JObject
      [("theme", JObject
         [("extend", JObject
            [("colors", JObject (tailwind_colors_layout ds));
             ("fontFamily", JObject [("sans", JArray [JString (fontFamily ds)])]);
             ("fontSize", ExportModal.typography_json (typography ds));
             ("spacing", JObject
                (map (fun '(n, space) => (num_to_string (n + 1), JString space))
                     (indexed (spacing ds))));
             ("borderRadius", JObject
                (map (fun '(n, radius) => (num_to_string n, JString radius))
                     (indexed (borderRadius ds))))])])]
  /\ map fst (tailwind_colors_layout ds) = role_names
  /\ Forall (fun kv => exists steps, snd kv = JObject steps /\ map fst steps = step_keys)
            (tailwind_colors_layout ds).
Proof.
  destruct (numbered_objects ds) as (Hs & Hr & _ & _).
  split; [|split].
  - unfold ExportModal.tailwindConfig. rewrite Hs, Hr.
    assert (Hc : ExportModal.tailwindColors ds = tailwind_colors_layout ds)
      by (vm_compute; reflexivity).
    now rewrite Hc.
  - reflexivity.
  - unfold tailwind_colors_layout, ColorPalette_entries.
    repeat (apply Forall_cons; [eexists; split; reflexivity|]). apply Forall_nil.
Qed.

(** X10. The token file is [global] with the namespaces [colors],
    [typography], [spacing] and [borderRadius] in this order; every leaf is
    [{ value, type }] with the type naming its namespace ([color],
    [typography], [spacing], [borderRadius]); a typography leaf holds
    [fontSize], [lineHeight], [fontWeight] and the font family of the design
    system; spacing is keyed 1, 2, ... and radius 0, 1, ... *)
Theorem tokens_layout (ds : DesignSystem) :
  ExportModal.tokens ds
  = JObject
      [("global", JObject
         [("colors", JObject (tokens_colors_layout ds));
          ("typography", JObject (tokens_typography_layout ds));
          ("spacing", JObject
             (map (fun '(n, space) =>
                     (num_to_string (n + 1), token (JString space) "spacing"))
                  (indexed (spacing ds))));
          ("borderRadius", JObject
             (map (fun '(n, radius) =>
                     (num_to_string n, token (JString radius) "borderRadius"))
                  (indexed (borderRadius ds))))])]
  /\ map fst (tokens_colors_layout ds) = role_names
  /\ map fst (tokens_typography_layout ds)
     = ["xs"; "sm"; "base"; "lg"; "xl"; "2xl"; "3xl"; "4xl"; "5xl"].
Proof.
  destruct (numbered_objects ds) as (_ & _ & Hs & Hr).
  split; [|split; reflexivity].
  unfold ExportModal.tokens. rewrite Hs, Hr.
  assert (Hc : ExportModal.tokensColors ds = tokens_colors_layout ds)
    by (vm_compute; reflexivity).
  assert (Ht : ExportModal.tokensTypography ds = tokens_typography_layout ds)
    by (vm_compute; reflexivity).
  now rewrite Hc, Ht.
Qed.

(** X11. The preprocessor export is a comment line with the name of the
    design system, an empty line, and the groups [// Colors] (70 variables),
    [// Typography] ([$font-family-base] first, then three variables for each
    of the nine sizes), [// Spacing] ([$spacing-<n+1>]) and [// Border Radius]
    ([$border-radius-<n>]), each group after an empty line but the first. *)
Theorem generateSCSSVariables_layout (ds : DesignSystem) :
  ExportModal.generateSCSSVariables ds
  = "// " ++ name ds ++ " - Design System Variables" ++ nl ++ nl
    ++ "// Colors" ++ nl ++ Str.cat (scss_colors ds)
    ++ nl ++ "// Typography" ++ nl ++ Str.cat (scss_typography ds)
    ++ nl ++ "// Spacing" ++ nl ++ Str.cat (scss_spacing ds)
    ++ nl ++ "// Border Radius" ++ nl ++ Str.cat (scss_radius ds)
  /\ List.length (scss_colors ds) = 70%nat
  /\ List.length (scss_typography ds) = 28%nat
  /\ hd EmptyString (scss_typography ds)
     = "$font-family-base: " ++ fontFamily ds ++ ";" ++ nl
  /\ List.length (scss_spacing ds) = List.length (spacing ds)
  /\ List.length (scss_radius ds) = List.length (borderRadius ds)
  /\ (forall i space, nth_error (spacing ds) i = Some space ->
        nth_error (scss_spacing ds) i
        = Some ("$spacing-" ++ num_to_string (Z.of_nat i + 1) ++ ": " ++ space
                ++ ";" ++ nl))
  /\ (forall i radius, nth_error (borderRadius ds) i = Some radius ->
        nth_error (scss_radius ds) i
        = Some ("$border-radius-" ++ num_to_string (Z.of_nat i) ++ ": " ++ radius
                ++ ";" ++ nl)).
Proof.
  split; [apply generateSCSSVariables_groups|].
  split; [reflexivity|]. split; [reflexivity|]. split; [reflexivity|].
  split; [unfold scss_spacing, indexed; now rewrite length_map, indexed_from_length|].
  split; [unfold scss_radius, indexed; now rewrite length_map, indexed_from_length|].
  split.
  - intros i space H. rewrite (scss_spacing_nth ds i space H). reflexivity.
  - intros i radius H. rewrite (scss_radius_nth ds i radius H). reflexivity.
Qed.

(** X12. Renaming the design system changes the first line of the
    preprocessor export and nothing else: the four other exports are the
    same texts as before, and the rest of the preprocessor export does not
    depend on the name. *)
Theorem setName_exports (value : string) (w : World) :
  let before := designSystem w in
  let after := designSystem (snd (setName value w)) in
  (forall f, f <> SCSS -> exporter f after = exporter f before)
  /\ exists rest,
       exporter SCSS before = "// " ++ name before ++ rest
       /\ exporter SCSS after = "// " ++ value ++ rest.
Proof.
  cbv zeta. unfold setName, setDesignSystem. cbn [snd designSystem]. split.
  - intros [| | | |] Hf; try reflexivity. congruence.
  - eexists. cbn [exporter]. rewrite !generateSCSSVariables_groups.
    split; reflexivity.
Qed.

(** * The component builder *)

Lemma In_keys_set {V} (k q : string) (v : V) (o : Obj.t V) :
  In q (Obj.keys (Obj.set k v o)) <-> q = k \/ In q (Obj.keys o).
Proof.
  unfold Obj.set. destruct (Obj.has k o) eqn:E.
  - rewrite keys_update. apply has_In_keys in E. split; [auto|].
    intros [->|H]; assumption.
  - destruct (Obj.array_index k) as [n|].
    + apply In_keys_insert_index.
    + unfold Obj.keys. rewrite map_app, in_app_iff. simpl. intuition.
Qed.

Module ComponentBuilderFacts.
Import ComponentGenerator ComponentBuilder.

Lemma template_of_type (ty : string) (t : Template.t) :
  Obj.get ty componentTemplates = Some t ->
  (ty = "button" \/ ty = "card" \/ ty = "input" \/ ty = "badge" \/ ty = "alert")
  /\ known_type ty.
Proof.
  unfold componentTemplates, Obj.get, known_type. simpl In.
  repeat match goal with
         | |- context [String.eqb ty ?k] =>
             let E := fresh "E" in
             destruct (String.eqb ty k) eqn:E;
             [apply String.eqb_eq in E; subst; intros _; tauto|]
         end.
  discriminate.
Qed.

Lemma onTypeChange_consistent (value : string) (prev c : ComponentConfig) :
  onTypeChange value prev = Some c -> consistent c.
Proof.
  unfold onTypeChange.
  destruct (Obj.get value componentTemplates) as [t|] eqn:E; [|discriminate].
  intros [= <-].
  destruct (template_of_type _ _ E) as [[->|[->|[->|[->| ->]]]] _];
    injection E as <-;
    (eexists; split; [reflexivity|]; split; [left; reflexivity|];
     split; [left; reflexivity|]; split; [intros k []|constructor]).
Qed.

(** X13. Whatever the user does in the builder with the controls the view
    offers (starting from the initial button), the selected component and
    every generated component agree with the registry: the type has a
    template, the variant and the size are declared for that type, and the
    props are switches of that type, each listed once. *)
Theorem reachable_consistent (s : State) :
  reachable s ->
  consistent (selectedComponent s) /\ Forall consistent (generatedComponents s).
Proof.
  induction 1 as [|s s' e Hr [Hc Hg] Hoff Hh].
  - split; [|constructor].
    eexists. split; [reflexivity|]. split; [left; reflexivity|].
    split; [right; left; reflexivity|]. split; [intros k []|constructor].
  - destruct Hc as (t & Ht & Hv & Hs & Hp & Hwf).
    destruct e as [value|value|value|value|prop checked|];
      cbn [handle offered] in *.
    + destruct (onTypeChange value (selectedComponent s)) as [c|] eqn:E;
        [|discriminate].
      injection Hh as <-. split; [|exact Hg].
      now apply (onTypeChange_consistent value (selectedComponent s)).
    + injection Hh as <-. split; [|exact Hg].
      destruct Hoff as (t' & Ht' & Hin). rewrite Ht in Ht'. injection Ht' as <-.
      exists t. cbn. repeat split; assumption.
    + injection Hh as <-. split; [|exact Hg].
      destruct Hoff as (t' & Ht' & Hin). rewrite Ht in Ht'. injection Ht' as <-.
      exists t. cbn. repeat split; assumption.
    + injection Hh as <-. split; [|exact Hg].
      exists t. cbn. repeat split; assumption.
    + injection Hh as <-. split; [|exact Hg].
      destruct Hoff as (t' & Ht' & Hin). rewrite Ht in Ht'. injection Ht' as <-.
      exists t. cbn. repeat split; try assumption.
      * intros k Hk. apply In_keys_set in Hk. destruct Hk as [->|Hk]; auto.
      * now apply wf_set.
    + injection Hh as <-. cbn. split.
      * exists t. repeat split; assumption.
      * apply Forall_app. split; [exact Hg|]. constructor; [|constructor].
        exists t. cbn. repeat split; assumption.
Qed.

Lemma reachable_consistent_witness :
  reachable (generateComponent
               (mkState (updateProp "rounded" true
                           (mkComponentConfig "badge" "default" "sm" "Badge" []))
                        []))
  /\ consistent (updateProp "rounded" true
                   (mkComponentConfig "badge" "default" "sm" "Badge" [])).
Proof.
  assert (R : reachable (generateComponent
               (mkState (updateProp "rounded" true
                           (mkComponentConfig "badge" "default" "sm" "Badge" []))
                        []))).
  { apply (reach_step
             (mkState (updateProp "rounded" true
                         (mkComponentConfig "badge" "default" "sm" "Badge" [])) [])
             _ Generate); [|exact I|reflexivity].
    apply (reach_step
             (mkState (mkComponentConfig "badge" "default" "sm" "Badge" []) [])
             _ (Toggle "rounded" true)); [| |reflexivity].
    - apply (reach_step initialState _ (SelectType "badge"));
        [apply reach_initial| |reflexivity].
      simpl. tauto.
    - eexists. split; [reflexivity|]. left. reflexivity. }
  split; [exact R|].
  exact (proj1 (reachable_consistent _ R)).
Defined.

Lemma existsb_eqb_In (x : string) (l : list string) :
  existsb (String.eqb x) l = true <-> In x l.
Proof.
  rewrite existsb_exists. split.
  - intros (y & Hy & E). apply String.eqb_eq in E. now subst.
  - intros H. exists x. split; [assumption | apply String.eqb_refl].
Qed.

Lemma preview_class_undefined_bool (ty v s t : string) (ps : Obj.t bool)
    (tpl : Template.t) :
  Obj.get ty componentTemplates = Some tpl ->
  In v registry_variants -> In s registry_sizes ->
  Str.contains "undefined"
    (root_class (renderPreview (mkComponentConfig ty v s t ps)))
  = existsb (String.eqb ty) styled_by_variant
    && negb (existsb (String.eqb v) (Template.variants tpl)).
Proof.
  intros Ht Hv Hs.
  assert (Hv' : In v ["primary"; "secondary"; "outline"; "destructive";
                      "default"; "outlined"; "filled"; "warning"; "success"]).
  { unfold registry_variants in Hv. simpl in Hv. simpl. tauto. }
  assert (Hs' : In s ["sm"; "md"; "lg"]).
  { unfold registry_sizes in Hs. simpl in Hs. simpl. tauto. }
  clear Hv Hs.
  destruct (template_of_type _ _ Ht) as [Hty _].
  unfold renderPreview, root_class. cbn [type variant size text props].
  destruct Hty as [->|[->|[->|[->| ->]]]]; injection Ht as <-;
    cbn [String.eqb Ascii.eqb Bool.eqb andb];
    simpl in Hv', Hs';
    repeat match goal with
           | H : _ \/ _ |- _ => destruct H as [H|H]
           | H : False |- _ => destruct H
           | H : _ = _ |- _ => subst
           end;
    repeat match goal with
           | |- context [truthy (Obj.get ?p ps)] =>
               destruct (truthy (Obj.get p ps))
           end;
    vm_compute; reflexivity.
Qed.

(** X14. For a component of a type of the registry whose variant and size
    are declared somewhere in the registry, the class of the preview spells
    [undefined] exactly when the type is button, badge or alert and the
    variant is not declared for that type.  A stale size never shows, and a
    card or an input ignores the variant. *)
Theorem preview_class_undefined (c : ComponentConfig) (tpl : Template.t) :
  Obj.get (type c) componentTemplates = Some tpl ->
  In (variant c) registry_variants -> In (size c) registry_sizes ->
  Str.contains "undefined" (root_class (renderPreview c)) = true
  <-> In (type c) styled_by_variant /\ ~ In (variant c) (Template.variants tpl).
Proof.
  intros Ht Hv Hs. destruct c as [ty v s t ps]. cbn [type variant size] in *.
  rewrite (preview_class_undefined_bool ty v s t ps tpl Ht Hv Hs).
  rewrite andb_true_iff, negb_true_iff, existsb_eqb_In.
  rewrite <- not_true_iff_false, existsb_eqb_In. reflexivity.
Qed.

Lemma preview_class_undefined_witness :
  let c := mkComponentConfig "badge" "filled" "md" "Badge" [] in
  Str.contains "undefined" (root_class (renderPreview c)) = true
  /\ In (type c) styled_by_variant.
Proof.
  cbv zeta. split; [reflexivity|].
  refine (proj1 (proj1 (preview_class_undefined
                   (mkComponentConfig "badge" "filled" "md" "Badge" [])
                   (Template.mk ["default"; "secondary"; "destructive"; "outline"]
                      ["sm"; "md"; "lg"] "Badge" ["rounded"])
                   eq_refl _ _) eq_refl)).
  - unfold registry_variants. simpl. tauto.
  - unfold registry_sizes. simpl. tauto.
Defined.

(** X15. The preview of a component that agrees with the registry is
    rendered and its class spells no [undefined], and its generated code is
    not empty.  By X13 this holds for the selected component and every
    generated component of any state the builder can reach. *)
Theorem consistent_preview_styled (c : ComponentConfig) :
  consistent c ->
  renderPreview c <> None
  /\ Str.contains "undefined" (root_class (renderPreview c)) = false
  /\ generateComponentCode c <> EmptyString.
Proof.
  intros (t & Ht & Hv & Hs & _ & _).
  destruct (template_of_type _ _ Ht) as [Hty Hk].
  split; [now apply ComponentFacts.renderPreview_known_type|]. split.
  - destruct c as [ty v sz tx ps]. cbn [type variant size] in *.
    assert (Hv' : In v registry_variants).
    { unfold registry_variants. apply in_flat_map.
      exists (ty, t). split; [now apply get_In | assumption]. }
    assert (Hs' : In sz registry_sizes).
    { unfold registry_sizes. apply in_flat_map.
      exists (ty, t). split; [now apply get_In | assumption]. }
    rewrite (preview_class_undefined_bool ty v sz tx ps t Ht Hv' Hs').
    apply existsb_eqb_In in Hv. rewrite Hv. apply andb_false_r.
  - destruct c as [ty v sz tx ps]. cbn [type] in *.
    unfold generateComponentCode. cbn [type].
    destruct Hty as [->|[->|[->|[->| ->]]]];
      cbn [String.eqb Ascii.eqb Bool.eqb andb append]; discriminate.
Qed.

Lemma consistent_preview_styled_witness :
  consistent initialComponent
  /\ Str.contains "undefined" (root_class (renderPreview initialComponent)) = false.
Proof.
  assert (H : consistent initialComponent).
  { eexists. split; [reflexivity|]. split; [left; reflexivity|].
    split; [right; left; reflexivity|]. split; [intros k []|constructor]. }
  split; [exact H|].
  exact (proj1 (proj2 (consistent_preview_styled initialComponent H))).
Defined.

(** X16. The handler of the type selector fails exactly on a type that is
    none of button, card, input, badge, alert; those five are the types the
    selector offers, and on them the new configuration does not depend on the
    previous one: its props are empty and its code lists no attribute. *)
Theorem onTypeChange_defined (value : string) (prev : ComponentConfig) :
  Obj.keys componentTemplates = ["button"; "card"; "input"; "badge"; "alert"]
  /\ (onTypeChange value prev = None <-> ~ known_type value)
  /\ (forall prev', onTypeChange value prev' = onTypeChange value prev)
  /\ (forall c, onTypeChange value prev = Some c ->
        type c = value /\ props c = [] /\ true_props (props c) = []
        /\ Str.contains (text c) (generateComponentCode c) = true).
Proof.
  split; [reflexivity|]. split; [|split].
  - unfold onTypeChange. split.
    + destruct (Obj.get value componentTemplates) as [t|] eqn:E; [discriminate|].
      intros _ Hk. unfold known_type in Hk. simpl in Hk.
      destruct Hk as [<-|[<-|[<-|[<-|[<-|[]]]]]]; discriminate E.
    + intros Hk.
      destruct (ComponentFacts.unknown_type_eqb value Hk) as (Hb & Hc & Hi & Hg & Ha).
      unfold componentTemplates, Obj.get. now rewrite Hb, Hc, Hi, Hg, Ha.
  - intros prev'. unfold onTypeChange.
    destruct (Obj.get value componentTemplates); reflexivity.
  - intros c. unfold onTypeChange.
    destruct (Obj.get value componentTemplates) as [t|] eqn:E; [|discriminate].
    intros [= <-].
    destruct (template_of_type _ _ E) as [[->|[->|[->|[->| ->]]]] _];
      injection E as <-; repeat split; reflexivity.
Qed.

Lemma true_props_off (p : string) (o : Obj.t bool) :
  Obj.wf o ->
  true_props (Obj.set p false o)
  = filter (fun k => negb (String.eqb k p)) (true_props o).
Proof.
  intros Hwf.
  rewrite <- (ComponentFacts.emitted_names _ (wf_set p false o Hwf)).
  rewrite <- (ComponentFacts.emitted_names _ Hwf).
  assert (F : forall l : Obj.t bool,
             map (fun '(key, _) => key)
                 (filter (fun '(_, value) => value) (others p l))
             = filter (fun k => negb (String.eqb k p))
                 (map (fun '(key, _) => key) (filter (fun '(_, value) => value) l))).
  { induction l as [|[k b] l IH]; simpl; [reflexivity|].
    destruct (String.eqb k p) eqn:E; simpl.
    - destruct b; simpl; rewrite ?E; simpl; exact IH.
    - destruct b; simpl; rewrite ?E; simpl; [f_equal|]; exact IH. }
  rewrite <- F, <- (others_set p false o).
  assert (G : forall l : Obj.t bool,
             Obj.get p l = Some false -> Obj.wf l ->
             filter (fun '(_, value) => value) l
             = filter (fun '(_, value) => value) (others p l)).
  { induction l as [|[k b] l IH]; simpl; [reflexivity|].
    intros Hg Hw. inversion Hw as [|? ? Hk Hw']; subst.
    destruct (String.eqb p k) eqn:E.
    - injection Hg as ->. apply String.eqb_eq in E. subst k.
      rewrite String.eqb_refl. simpl.
      assert (Ho : others p l = l).
      { clear - Hk. induction l as [|[k b] l IH]; simpl; [reflexivity|].
        simpl in Hk. destruct (String.eqb k p) eqn:E.
        - apply String.eqb_eq in E. tauto.
        - simpl. f_equal. apply IH. tauto. }
      now rewrite Ho.
    - rewrite String.eqb_sym, E. simpl. destruct b; [f_equal|]; now apply IH. }
  f_equal. apply G; [apply get_set_same | now apply wf_set].
Qed.

(** X17. Props are kept in the order in which their switches were first
    used.  Setting a prop twice is setting it once with the last value; a
    set never lists a name twice; a prop that is already there keeps its
    place; a new prop (whose name is not an array index, as no registry name
    is) goes to the end. *)
Theorem updateProp_order (p : string) (v v' : bool) (c : ComponentConfig) :
  updateProp p v' (updateProp p v c) = updateProp p v' c
  /\ (Obj.wf (props c) -> Obj.wf (props (updateProp p v c)))
  /\ (Obj.has p (props c) = true ->
      Obj.keys (props (updateProp p v c)) = Obj.keys (props c))
  /\ (Obj.has p (props c) = false -> Obj.array_index p = None ->
      props (updateProp p v c) = (props c ++ [(p, v)])%list)
  /\ Forall (fun kv => Forall (fun name => Obj.array_index name = None)
                              (Template.props (snd kv)))
            componentTemplates.
Proof.
  unfold updateProp. cbn [type variant size text props].
  split; [now rewrite set_set|]. split; [apply wf_set|].
  split; [apply keys_set_present|]. split.
  - intros Hh Ha. apply set_fresh; [|assumption].
    unfold Obj.has in Hh. now destruct (Obj.get p (props c)).
  - repeat constructor.
Qed.

(** X18. The attribute list of the generated code follows the switches:
    switching a prop off removes its name and leaves the other names in
    their order; switching on a prop that was never set, whose name is not
    an array index, puts its name last. *)
Theorem updateProp_attributes (p : string) (c : ComponentConfig) :
  Obj.wf (props c) ->
  true_props (props (updateProp p false c))
  = filter (fun k => negb (String.eqb k p)) (true_props (props c))
  /\ (Obj.has p (props c) = false -> Obj.array_index p = None ->
      true_props (props (updateProp p true c))
      = (true_props (props c) ++ [p])%list).
Proof.
  intros Hwf. unfold updateProp. cbn [props]. split.
  - now apply true_props_off.
  - intros Hh Ha.
    assert (Hg : Obj.get p (props c) = None).
    { unfold Obj.has in Hh. now destruct (Obj.get p (props c)). }
    rewrite <- (ComponentFacts.emitted_names _ (wf_set p true _ Hwf)).
    rewrite <- (ComponentFacts.emitted_names _ Hwf).
    rewrite set_fresh by assumption.
    now rewrite filter_app, map_app.
Qed.

Lemma updateProp_attributes_witness :
  Obj.wf (props example_button)
  /\ true_props (props (updateProp "disabled" false example_button)) = [].
Proof.
  assert (H : Obj.wf (props example_button)).
  { repeat constructor; simpl; intuition discriminate. }
  split; [exact H|].
  exact (proj1 (updateProp_attributes "disabled" example_button H)).
Defined.

End ComponentBuilderFacts.

(** * One colour, five exports *)

Lemma wf_forEach {A V} (body : Obj.t V -> A -> Obj.t V) (l : list A) (o : Obj.t V) :
  (forall o x, Obj.wf o -> Obj.wf (body o x)) ->
  Obj.wf o -> Obj.wf (forEach l body o).
Proof.
  intros Hb. unfold forEach. revert o.
  induction l as [|x l IH]; intros o Ho; simpl; auto.
Qed.

Lemma wf_forEach_from {A V} (body : Obj.t V -> A -> Z -> Obj.t V) (l : list A)
    (i : Z) (o : Obj.t V) :
  (forall o x n, Obj.wf o -> Obj.wf (body o x n)) ->
  Obj.wf o -> Obj.wf (forEach_from i l body o).
Proof.
  intros Hb. revert i o.
  induction l as [|x l IH]; intros i o Ho; simpl; auto.
Qed.

Lemma figmaVariables_wf (ds : DesignSystem) : Obj.wf (figmaVariables ds).
Proof.
  unfold figmaVariables, forEachIndexed.
  apply wf_set.
  apply wf_forEach_from; [intros; now apply wf_set|].
  apply wf_forEach_from; [intros; now apply wf_set|].
  apply wf_forEach; [intros o [size_ e] Ho; now repeat apply wf_set|].
  apply wf_forEach; [|constructor].
  intros o [role shades] Ho. apply wf_forEach; [|assumption].
  intros o' [step value] Ho'. now apply wf_set.
Qed.

Lemma figmaVariables_color (ds : DesignSystem) (role step value : string)
    (shades : ColorShade) :
  In (role, shades) (ColorPalette_entries (colors ds)) ->
  In (step, value) (ColorShade_entries shades) ->
  Obj.get ("color/" ++ role ++ "/" ++ step) (forEach
    (ColorPalette_entries (colors ds))
    (fun variables '(colorName, shades) =>
       forEach (ColorShade_entries shades)
         (fun variables '(shade, value) =>
            Obj.set ("color/" ++ colorName ++ "/" ++ shade) (JString value)
              variables)
         variables)
    []) = Some (JString value).
Proof.
  intros Hr Hs.
  assert (E : forEach (ColorPalette_entries (colors ds))
    (fun variables '(colorName, shades) =>
       forEach (ColorShade_entries shades)
         (fun variables '(shade, value) =>
            Obj.set ("color/" ++ colorName ++ "/" ++ shade) (JString value)
              variables)
         variables)
    [] = figma_colors ds) by (vm_compute; reflexivity).
  rewrite E. apply In_get.
  - rewrite <- E. apply wf_forEach; [|constructor].
    intros o [r sh] Ho. apply wf_forEach; [|assumption].
    intros o' [st va] Ho'. now apply wf_set.
  - unfold figma_colors. apply in_flat_map. exists (role, shades).
    split; [assumption|].
    apply (in_map (fun '(step, value) =>
                     ("color/" ++ role ++ "/" ++ step, JString value))
                  _ (step, value) Hs).
Qed.

(** X19. Every format exports the same value for a colour: for each role and
    step of the palette, the value of the design system is the one under
    [color/<role>/<step>] in the structured variables, under
    [theme.extend.colors.<role>.<step>] in the build-tool configuration and
    under [global.colors.<role>.<step>.value] in the token file, and the
    stylesheet and the preprocessor text hold the lines
    [--<role>-<step>: value;] and [$<role>-<step>: value;]. *)
Theorem color_exports_agree (ds : DesignSystem) (role step value : string)
    (shades : ColorShade) :
  In (role, shades) (ColorPalette_entries (colors ds)) ->
  In (step, value) (ColorShade_entries shades) ->
  Obj.get ("color/" ++ role ++ "/" ++ step) (figmaVariables ds)
  = Some (JString value)
  /\ Str.contains ("  --" ++ role ++ "-" ++ step ++ ": " ++ value ++ ";" ++ nl)
       (generateCSS ds) = true
  /\ JSON.at_path ["theme"; "extend"; "colors"; role; step]
       (ExportModal.tailwindConfig ds) = Some (JString value)
  /\ Str.contains ("$" ++ role ++ "-" ++ step ++ ": " ++ value ++ ";" ++ nl)
       (ExportModal.generateSCSSVariables ds) = true
  /\ JSON.at_path ["global"; "colors"; role; step; "value"]
       (ExportModal.tokens ds) = Some (JString value).
Proof.
  intros Hr Hs.
  split; [|split; [|split; [|split]]].
  - unfold figmaVariables, forEachIndexed.
    rewrite get_set_other by discriminate.
    rewrite (get_forEach_from_other (fun n => "radius/" ++ num_to_string n) JString)
      by (reflexivity || (intros; discriminate)).
    rewrite (get_forEach_from_other
               (fun n => "spacing/" ++ num_to_string (n + 1)) JString)
      by (reflexivity || (intros; discriminate)).
    rewrite get_forEach_other.
    + now apply (figmaVariables_color ds role step value shades).
    + intros o [size_ e]. rewrite !get_set_other by discriminate. reflexivity.
  - replace ("  --" ++ role ++ "-" ++ step ++ ": " ++ value ++ ";" ++ nl)
      with (css_declaration (role ++ "-" ++ step) value) by str_eq.
    apply generateCSS_contains. unfold css_declarations.
    apply in_or_app. left. unfold css_colors. apply in_flat_map.
    exists (role, shades). split; [assumption|].
    apply (in_map (fun '(step, value) =>
                     css_declaration (role ++ "-" ++ step) value)
                  _ (step, value) Hs).
  - unfold ExportModal.tailwindConfig.
    cbn [JSON.at_path Obj.get String.eqb Ascii.eqb Bool.eqb].
    assert (Hc : ExportModal.tailwindColors ds = tailwind_colors_layout ds)
      by (vm_compute; reflexivity).
    rewrite Hc.
    rewrite (In_get role
               (JObject (map (fun '(step, value) => (step, JString value))
                             (ColorShade_entries shades)))
               (tailwind_colors_layout ds)).
    + rewrite (In_get step (JString value)); [reflexivity| |].
      * unfold Obj.wf, Obj.keys. rewrite map_map. simpl.
        repeat constructor; simpl; intuition discriminate.
      * apply (in_map (fun '(step, value) => (step, JString value))
                      _ (step, value) Hs).
    + unfold Obj.wf, Obj.keys, tailwind_colors_layout. rewrite map_map. simpl.
      repeat constructor; simpl; intuition discriminate.
    + apply (in_map (fun '(role, shades) =>
               (role, JObject (map (fun '(step, value) => (step, JString value))
                                   (ColorShade_entries shades))))
                    _ (role, shades) Hr).
  - rewrite generateSCSSVariables_groups.
    do 5 apply contains_app_skip.
    apply (contains_app_skip _ "// Colors"), (contains_app_skip _ nl).
    apply contains_app_l, contains_cat.
    replace ("$" ++ role ++ "-" ++ step ++ ": " ++ value ++ ";" ++ nl)
      with (scss_variable (role ++ "-" ++ step) value) by str_eq.
    unfold scss_colors. apply in_flat_map.
    exists (role, shades). split; [assumption|].
    apply (in_map (fun '(step, value) =>
                     scss_variable (role ++ "-" ++ step) value)
                  _ (step, value) Hs).
  - unfold ExportModal.tokens.
    cbn [JSON.at_path Obj.get String.eqb Ascii.eqb Bool.eqb].
    assert (Hc : ExportModal.tokensColors ds = tokens_colors_layout ds)
      by (vm_compute; reflexivity).
    rewrite Hc.
    rewrite (In_get role
               (JObject (map (fun '(step, value) =>
                                (step, token (JString value) "color"))
                             (ColorShade_entries shades)))
               (tokens_colors_layout ds)).
    + rewrite (In_get step (token (JString value) "color")); [reflexivity| |].
      * unfold Obj.wf, Obj.keys. rewrite map_map. simpl.
        repeat constructor; simpl; intuition discriminate.
      * apply (in_map (fun '(step, value) =>
                         (step, token (JString value) "color"))
                      _ (step, value) Hs).
    + unfold Obj.wf, Obj.keys, tokens_colors_layout. rewrite map_map. simpl.
      repeat constructor; simpl; intuition discriminate.
    + apply (in_map (fun '(role, shades) =>
               (role, JObject (map (fun '(step, value) =>
                                      (step, token (JString value) "color"))
                                   (ColorShade_entries shades))))
                    _ (role, shades) Hr).
Qed.

Lemma color_exports_agree_witness :
  In ("primary", primary (colors testDesignSystem))
     (ColorPalette_entries (colors testDesignSystem))
  /\ Obj.get "color/primary/500" (figmaVariables testDesignSystem)
     = Some (JString "hsl(210, 70%, 50%)").
Proof.
  assert (Hr : In ("primary", primary (colors testDesignSystem))
                  (ColorPalette_entries (colors testDesignSystem)))
    by (left; reflexivity).
  assert (Hs : In ("500", "hsl(210, 70%, 50%)")
                  (ColorShade_entries (primary (colors testDesignSystem))))
    by (do 5 right; left; reflexivity).
  split; [exact Hr|].
  exact (proj1 (color_exports_agree testDesignSystem "primary" "500"
                  "hsl(210, 70%, 50%)" _ Hr Hs)).
Defined.

(** The rounding of the product matters: for this draw, [r * 360] rounds up
    to the double 6, whose floor is 6, while the floor of the exact product
    is 5. *)
Example random_below_rounds_as_doubles :
  let r := mkDouble 4803839602528529 (-58) in
  fst (random_below 360 (mkWorld (fun _ => r) 0 testDesignSystem)) = 6
  /\ mantissa r * 360 / 2 ^ 58 = 5.
Proof. split; reflexivity. Qed.

(** ** The exporters on the store *)

Module StoreFacts.

Local Open Scope list_scope.

Lemma runs_ret {A} (a : A) (h : Store.store) : Store.runs (Store.ret a) h a h.
Proof. reflexivity. Qed.

Lemma runs_bind {A B} (p : Store.P A) (k : A -> Store.P B) h a h1 b h2 :
  Store.runs p h a h1 -> Store.runs (k a) h1 b h2 ->
  Store.runs (Store.bind p k) h b h2.
Proof. unfold Store.runs, Store.bind. intros -> ->. reflexivity. Qed.

Lemma nth_error_old {A} (H F : list A) a c :
  nth_error H a = Some c -> nth_error (H ++ F) a = Some c.
Proof.
  intros E. rewrite nth_error_app1; [exact E|].
  apply nth_error_Some. rewrite E. discriminate.
Qed.

Lemma nth_error_new {A} (H F : list A) i :
  nth_error (H ++ F) (i + List.length H) = nth_error F i.
Proof.
  rewrite nth_error_app2 by lia. f_equal. lia.
Qed.

Lemma upd_new {A} (H F : list A) i c :
  Store.upd (i + List.length H) c (H ++ F) = (H ++ Store.upd i c F)%list.
Proof.
  induction H as [|x H IH]; cbn [List.length app].
  - rewrite Nat.add_0_r. reflexivity.
  - rewrite Nat.add_succ_r. cbn [Store.upd]. rewrite IH. reflexivity.
Qed.

Lemma runs_alloc (H F : Store.store) c :
  Store.runs (Store.alloc c) (H ++ F) (List.length F + List.length H)%nat
    (H ++ (F ++ [c])).
Proof.
  unfold Store.runs, Store.alloc. rewrite length_app, app_assoc.
  rewrite (Nat.add_comm (List.length H)). reflexivity.
Qed.

Lemma runs_get_old (H F : Store.store) a k o v :
  nth_error H a = Some (Store.CObj o) -> Obj.get k o = Some v ->
  Store.runs (Store.get_prop (Store.VRef a) k) (H ++ F) v (H ++ F).
Proof.
  intros E G. unfold Store.runs, Store.get_prop.
  rewrite (nth_error_old _ _ _ _ E), G. reflexivity.
Qed.

Lemma runs_get_new (H F : Store.store) i k o v :
  nth_error F i = Some (Store.CObj o) -> Obj.get k o = Some v ->
  Store.runs (Store.get_prop (Store.VRef (i + List.length H)) k) (H ++ F) v (H ++ F).
Proof.
  intros E G. unfold Store.runs, Store.get_prop.
  rewrite nth_error_new, E, G. reflexivity.
Qed.

Lemma runs_entries_old (H F : Store.store) a o :
  nth_error H a = Some (Store.CObj o) ->
  Store.runs (Store.entries (Store.VRef a)) (H ++ F) o (H ++ F).
Proof.
  intros E. unfold Store.runs, Store.entries.
  rewrite (nth_error_old _ _ _ _ E). reflexivity.
Qed.

Lemma runs_elements_old (H F : Store.store) a items :
  nth_error H a = Some (Store.CArr items) ->
  Store.runs (Store.elements (Store.VRef a)) (H ++ F) items (H ++ F).
Proof.
  intros E. unfold Store.runs, Store.elements.
  rewrite (nth_error_old _ _ _ _ E). reflexivity.
Qed.

Lemma runs_set_new (H F : Store.store) i k x o :
  nth_error F i = Some (Store.CObj o) ->
  Store.runs (Store.set_prop (Store.VRef (i + List.length H)) k x) (H ++ F) tt
    (H ++ Store.upd i (Store.CObj (Obj.set k x o)) F).
Proof.
  intros E. unfold Store.runs, Store.set_prop.
  rewrite nth_error_new, E, upd_new. reflexivity.
Qed.

(** A loop whose body only reads the store. *)
Lemma runs_forEachP_from_pure {S} (xs : list string) index
    (body : S -> Store.value -> Z -> Store.P S) (f : S -> string -> Z -> S) s h :
  (forall s x i, body s (Store.VStr x) i = Store.ret (f s x i)) ->
  Store.runs (Store.forEachP_from index (map Store.VStr xs) body s) h
    (forEach_from index xs f s) h.
Proof.
  intros Hb. revert index s.
  induction xs as [|x xs IH]; intros index s; cbn [map Store.forEachP_from forEach_from].
  - reflexivity.
  - eapply runs_bind; [rewrite Hb; reflexivity | apply IH].
Qed.

Lemma length_upd {A} i (c : A) l : List.length (Store.upd i c l) = List.length l.
Proof.
  revert i. induction l as [|x l IH]; intros [|i]; cbn [Store.upd List.length];
    try reflexivity.
  rewrite IH. reflexivity.
Qed.

Lemma nth_error_upd_same {A} i (c : A) l :
  (i < List.length l)%nat -> nth_error (Store.upd i c l) i = Some c.
Proof.
  revert i. induction l as [|x l IH]; intros [|i] Hi; cbn [List.length] in Hi;
    cbn [Store.upd nth_error]; try lia; try reflexivity.
  apply IH. lia.
Qed.

Lemma nth_error_upd_other {A} i j (c : A) l :
  i <> j -> nth_error (Store.upd i c l) j = nth_error l j.
Proof.
  revert i j. induction l as [|x l IH]; intros [|i] [|j] Hij;
    cbn [Store.upd nth_error]; try reflexivity; try congruence.
  apply IH. congruence.
Qed.

Lemma upd_upd {A} i (c c' : A) l :
  Store.upd i c (Store.upd i c' l) = Store.upd i c l.
Proof.
  revert i. induction l as [|x l IH]; intros [|i]; cbn [Store.upd];
    try reflexivity.
  rewrite IH. reflexivity.
Qed.

Lemma upd_app_l {A} i (c : A) l r :
  (i < List.length l)%nat -> Store.upd i c (l ++ r) = Store.upd i c l ++ r.
Proof.
  revert i. induction l as [|x l IH]; intros [|i] Hi; cbn [List.length] in Hi;
    cbn [Store.upd app]; try lia; try reflexivity.
  rewrite IH by lia. reflexivity.
Qed.

Lemma nth_error_lt {A} (l : list A) i c :
  nth_error l i = Some c -> (i < List.length l)%nat.
Proof. intros E. apply nth_error_Some. rewrite E. discriminate. Qed.

Lemma runs_eq {A} (p : Store.P A) h a a' h1 :
  Store.runs p h a h1 -> a = a' -> Store.runs p h a' h1.
Proof. intros R <-. exact R. Qed.

Lemma runs_from_nil {A} (p : Store.P A) H a h1 :
  Store.runs p (H ++ []) a h1 -> Store.runs p H a h1.
Proof. rewrite app_nil_r. trivial. Qed.

(** A loop that assigns each element to a property of one new object. *)
Lemma runs_loop_sets {S} (H F : Store.store) (xs : list string) index
    (body : S -> Store.value -> Z -> Store.P S) (keyf : string -> Z -> string)
    (s : S) i o :
  nth_error F i = Some (Store.CObj o) ->
  (forall F' o' x idx,
      nth_error F' i = Some (Store.CObj o') ->
      Store.runs (body s (Store.VStr x) idx) (H ++ F') s
        (H ++ Store.upd i
                (Store.CObj (Obj.set (keyf x idx) (Store.VStr x) o')) F')) ->
  Store.runs (Store.forEachP_from index (map Store.VStr xs) body s) (H ++ F) s
    (H ++ Store.upd i
            (Store.CObj
               (forEach_from index xs
                  (fun o x idx => Obj.set (keyf x idx) (Store.VStr x) o) o)) F).
Proof.
  intros E Hb. revert index F o E.
  induction xs as [|x xs IH]; intros index F o E;
    cbn [map Store.forEachP_from forEach_from].
  - unfold Store.runs, Store.ret. repeat f_equal.
    clear -E. revert i E. induction F as [|c F IH]; intros [|i] E;
      cbn [nth_error Store.upd] in *; try discriminate.
    + congruence.
    + rewrite <- IH by exact E. reflexivity.
  - eapply runs_bind; [apply Hb; exact E|].
    pose proof (IH (index + 1) _ _
                  (nth_error_upd_same i
                     (Store.CObj (Obj.set (keyf x index) (Store.VStr x) o)) F
                     (nth_error_lt _ _ _ E))) as IH'.
    rewrite upd_upd in IH'. exact IH'.
Qed.

(** *** The serialiser on the store *)

Lemma reify_props_mono (r r' : Store.value -> option json) o oj :
  (forall v j, r v = Some j -> r' v = Some j) ->
  Store.reify_props r o = Some oj -> Store.reify_props r' o = Some oj.
Proof.
  intros Hr. revert oj. induction o as [|[k v] o IH]; intros oj;
    cbn [Store.reify_props fold_right fst snd]; [trivial|].
  fold (Store.reify_props r o). fold (Store.reify_props r' o).
  destruct (r v) as [j|] eqn:Ev; [|discriminate].
  destruct (Store.reify_props r o) as [oj'|]; [|discriminate].
  rewrite (Hr _ _ Ev), (IH _ eq_refl). trivial.
Qed.

Lemma reify_items_mono (r r' : Store.value -> option json) l lj :
  (forall v j, r v = Some j -> r' v = Some j) ->
  Store.reify_items r l = Some lj -> Store.reify_items r' l = Some lj.
Proof.
  intros Hr. revert lj. induction l as [|v l IH]; intros lj;
    cbn [Store.reify_items fold_right]; [trivial|].
  fold (Store.reify_items r l). fold (Store.reify_items r' l).
  destruct (r v) as [j|] eqn:Ev; [|discriminate].
  destruct (Store.reify_items r l) as [lj'|]; [|discriminate].
  rewrite (Hr _ _ Ev), (IH _ eq_refl). trivial.
Qed.

Lemma reify_mono n m h v j :
  (n <= m)%nat -> Store.reify n h v = Some j -> Store.reify m h v = Some j.
Proof.
  revert m v j. induction n as [|n IH]; intros m v j Hm.
  - destruct v; cbn [Store.reify]; [|discriminate].
    destruct m; trivial.
  - destruct m as [|m]; [lia|]. destruct v as [s|a]; cbn [Store.reify]; [trivial|].
    destruct (nth_error h a) as [[o|items]|]; [| |discriminate].
    + destruct (Store.reify_props (Store.reify n h) o) as [oj|] eqn:E;
        [|discriminate].
      rewrite (reify_props_mono _ (Store.reify m h) _ _
                 (fun v j => IH m v j ltac:(lia)) E). trivial.
    + destruct (Store.reify_items (Store.reify n h) items) as [lj|] eqn:E;
        [|discriminate].
      rewrite (reify_items_mono _ (Store.reify m h) _ _
                 (fun v j => IH m v j ltac:(lia)) E). trivial.
Qed.

Lemma runs_stringify n h v j :
  Store.reify n h v = Some j -> (n <= List.length h)%nat ->
  Store.runs (Store.stringify v) h (JSON.stringify j) h.
Proof.
  intros E Hn. unfold Store.runs, Store.stringify.
  rewrite (reify_mono n (S (List.length h)) h v j ltac:(lia) E). reflexivity.
Qed.

Lemma reify_str n h s : Store.reify n h (Store.VStr s) = Some (JString s).
Proof. destruct n; reflexivity. Qed.

Lemma reify_new_obj n (H F : Store.store) i o oj :
  nth_error F i = Some (Store.CObj o) ->
  Store.reify_props (Store.reify n (H ++ F)) o = Some oj ->
  Store.reify (S n) (H ++ F) (Store.VRef (i + List.length H)) = Some (JObject oj).
Proof.
  intros E Ho. cbn [Store.reify]. rewrite nth_error_new, E, Ho. reflexivity.
Qed.

Lemma reify_new_arr n (H F : Store.store) i l lj :
  nth_error F i = Some (Store.CArr l) ->
  Store.reify_items (Store.reify n (H ++ F)) l = Some lj ->
  Store.reify (S n) (H ++ F) (Store.VRef (i + List.length H)) = Some (JArray lj).
Proof.
  intros E Ho. cbn [Store.reify]. rewrite nth_error_new, E, Ho. reflexivity.
Qed.

Lemma reify_old_obj n (H F : Store.store) a o oj :
  nth_error H a = Some (Store.CObj o) ->
  Store.reify_props (Store.reify n (H ++ F)) o = Some oj ->
  Store.reify (S n) (H ++ F) (Store.VRef a) = Some (JObject oj).
Proof.
  intros E Ho. cbn [Store.reify]. rewrite (nth_error_old _ _ _ _ E), Ho.
  reflexivity.
Qed.

Lemma reify_props_nil r : Store.reify_props r [] = Some [].
Proof. reflexivity. Qed.

Lemma reify_props_cons r k v o j oj :
  r v = Some j -> Store.reify_props r o = Some oj ->
  Store.reify_props r ((k, v) :: o) = Some ((k, j) :: oj).
Proof.
  intros Ev Eo. cbn [Store.reify_props fold_right fst snd].
  fold (Store.reify_props r o). rewrite Ev, Eo. reflexivity.
Qed.

Lemma reify_items_nil r : Store.reify_items r [] = Some [].
Proof. reflexivity. Qed.

Lemma reify_items_cons r v l j lj :
  r v = Some j -> Store.reify_items r l = Some lj ->
  Store.reify_items r (v :: l) = Some (j :: lj).
Proof.
  intros Ev Eo. cbn [Store.reify_items fold_right].
  fold (Store.reify_items r l). rewrite Ev, Eo. reflexivity.
Qed.

Lemma reify_props_inv r k v o oj :
  Store.reify_props r ((k, v) :: o) = Some oj ->
  exists j oj', r v = Some j /\ Store.reify_props r o = Some oj'
                /\ oj = (k, j) :: oj'.
Proof.
  cbn [Store.reify_props fold_right fst snd]. fold (Store.reify_props r o).
  destruct (r v) as [j|]; [|discriminate].
  destruct (Store.reify_props r o) as [oj'|]; [|discriminate].
  intros [= <-]. eauto.
Qed.

Lemma reify_props_get r k o oj :
  Store.reify_props r o = Some oj ->
  Obj.has k oj = Obj.has k o.
Proof.
  unfold Obj.has. revert oj. induction o as [|[k' v] o IH]; intros oj E.
  - injection E as <-. reflexivity.
  - apply reify_props_inv in E. destruct E as (j & oj' & Ev & Eo & ->).
    cbn [Obj.get]. destruct (String.eqb k k'); [reflexivity|]. apply IH, Eo.
Qed.

Lemma reify_props_update r k v j o oj :
  r v = Some j -> Store.reify_props r o = Some oj ->
  Store.reify_props r (Obj.update k v o) = Some (Obj.update k j oj).
Proof.
  intros Ev. revert oj. induction o as [|[k' v'] o IH]; intros oj E.
  - injection E as <-. reflexivity.
  - apply reify_props_inv in E. destruct E as (j' & oj' & Ev' & Eo & ->).
    cbn [Obj.update]. destruct (String.eqb k k').
    + apply reify_props_cons; assumption.
    + apply reify_props_cons; [assumption | apply IH, Eo].
Qed.

Lemma reify_props_insert_index r n k v j o oj :
  r v = Some j -> Store.reify_props r o = Some oj ->
  Store.reify_props r (Obj.insert_index n k v o)
  = Some (Obj.insert_index n k j oj).
Proof.
  intros Ev. revert oj. induction o as [|[k' v'] o IH]; intros oj E.
  - injection E as <-. cbn [Obj.insert_index].
    apply reify_props_cons; [assumption | reflexivity].
  - pose proof E as E0.
    apply reify_props_inv in E. destruct E as (j' & oj' & Ev' & Eo & ->).
    cbn [Obj.insert_index]. destruct (Obj.array_index k') as [m|].
    + destruct (m <? n)%N.
      * apply reify_props_cons; [assumption | apply IH, Eo].
      * apply reify_props_cons; assumption.
    + apply reify_props_cons; assumption.
Qed.

Lemma reify_props_app r k v j o oj :
  r v = Some j -> Store.reify_props r o = Some oj ->
  Store.reify_props r (o ++ [(k, v)]) = Some (oj ++ [(k, j)]).
Proof.
  intros Ev. revert oj. induction o as [|[k' v'] o IH]; intros oj E.
  - injection E as <-. apply reify_props_cons; [assumption | reflexivity].
  - apply reify_props_inv in E. destruct E as (j' & oj' & Ev' & Eo & ->).
    cbn [app]. apply reify_props_cons; [assumption | apply IH, Eo].
Qed.

(** Assignment commutes with serialisation. *)
Lemma reify_props_set r k v j o oj :
  r v = Some j -> Store.reify_props r o = Some oj ->
  Store.reify_props r (Obj.set k v o) = Some (Obj.set k j oj).
Proof.
  intros Ev Eo. unfold Obj.set. rewrite (reify_props_get _ k _ _ Eo).
  destruct (Obj.has k o).
  - apply reify_props_update; assumption.
  - destruct (Obj.array_index k).
    + apply reify_props_insert_index; assumption.
    + apply reify_props_app; assumption.
Qed.

Lemma reify_props_forEach_from {A} r (xs : list A) index
    (keyf : A -> Z -> string) (valf : A -> Z -> Store.value) (jf : A -> Z -> json)
    o oj :
  (forall k x, nth_error xs k = Some x ->
               r (valf x (index + Z.of_nat k)) = Some (jf x (index + Z.of_nat k))) ->
  Store.reify_props r o = Some oj ->
  Store.reify_props r
    (forEach_from index xs (fun o x idx => Obj.set (keyf x idx) (valf x idx) o) o)
  = Some (forEach_from index xs
            (fun o x idx => Obj.set (keyf x idx) (jf x idx) o) oj).
Proof.
  revert index o oj. induction xs as [|x xs IH]; intros index o oj Hv Eo;
    cbn [forEach_from]; [exact Eo|].
  apply IH.
  - intros k y Hy. specialize (Hv (S k) y Hy).
    replace (index + 1 + Z.of_nat k) with (index + Z.of_nat (S k)) by lia.
    exact Hv.
  - apply reify_props_set; [|exact Eo].
    specialize (Hv 0%nat x eq_refl). rewrite Z.add_0_r in Hv. exact Hv.
Qed.

Lemma forEach_from_ext_ge {A S} index (xs : list A) (f g : S -> A -> Z -> S) s :
  (forall s x j, index <= j -> f s x j = g s x j) ->
  forEach_from index xs f s = forEach_from index xs g s.
Proof.
  revert index s. induction xs as [|x xs IH]; intros index s Hfg;
    cbn [forEach_from]; [reflexivity|].
  rewrite Hfg by lia. apply IH. intros. apply Hfg. lia.
Qed.

(** A loop that files each element, wrapped in a new token object, under a
    key of one namespace of [tokens.global]. *)
Lemma runs_loop_tokens (H F : Store.store) (xs : list string) index ns typ
    (keyf : Z -> string) it ig i ot og o :
  nth_error F it = Some (Store.CObj ot) ->
  Obj.get "global" ot = Some (Store.VRef (ig + List.length H)) ->
  nth_error F ig = Some (Store.CObj og) ->
  Obj.get ns og = Some (Store.VRef (i + List.length H)) ->
  nth_error F i = Some (Store.CObj o) ->
  i <> it -> i <> ig ->
  Store.runs
    (Store.forEachP_from index (map Store.VStr xs)
       (fun _ x idx =>
          Store.bind (Store.get_prop (Store.VRef (it + List.length H)) "global")
            (fun global =>
               Store.bind (Store.get_prop global ns)
                 (fun target =>
                    Store.bind
                      (Store.alloc
                         (Store.CObj [("value", x); ("type", Store.VStr typ)]))
                      (fun token =>
                         Store.set_prop target (keyf idx) (Store.VRef token)))))
       tt)
    (H ++ F) tt
    (H ++ (Store.upd i
             (Store.CObj
                (forEach_from index xs
                   (fun o x idx =>
                      Obj.set (keyf idx)
                        (Store.VRef (List.length F + Z.to_nat (idx - index)
                                     + List.length H)) o) o)) F
           ++ map (fun x => Store.CObj [("value", Store.VStr x);
                                        ("type", Store.VStr typ)]) xs)).
Proof.
  revert index F o. induction xs as [|x xs IH];
    intros index F o Et Gt Eg Gg Eo Hit Hig;
    cbn [map Store.forEachP_from forEach_from].
  - unfold Store.runs, Store.ret. rewrite app_nil_r. repeat f_equal.
    clear -Eo. revert i Eo. induction F as [|c F IH]; intros [|i] E;
      cbn [nth_error Store.upd] in *; try discriminate.
    + congruence.
    + rewrite <- IH by exact E. reflexivity.
  - pose proof (nth_error_lt _ _ _ Et) as Lt.
    pose proof (nth_error_lt _ _ _ Eg) as Lg.
    pose proof (nth_error_lt _ _ _ Eo) as Lo.
    eapply runs_bind.
    { eapply runs_bind; [eapply runs_get_new; eassumption|].
      eapply runs_bind; [eapply runs_get_new; eassumption|].
      eapply runs_bind; [eapply runs_alloc|].
      eapply runs_set_new. rewrite nth_error_app1 by exact Lo. exact Eo. }
    rewrite upd_app_l by exact Lo.
    set (o1 := Obj.set (keyf index)
                 (Store.VRef (List.length F + List.length H)) o).
    set (leaf := Store.CObj [("value", Store.VStr x); ("type", Store.VStr typ)]).
    assert (E1 : forall j c, j <> i -> nth_error F j = Some c ->
                 nth_error (Store.upd i (Store.CObj o1) F ++ [leaf]) j = Some c).
    { intros j c Hj Ej. rewrite nth_error_app1
        by (rewrite length_upd; eapply nth_error_lt; exact Ej).
      rewrite nth_error_upd_other by congruence. exact Ej. }
    assert (E2 : nth_error (Store.upd i (Store.CObj o1) F ++ [leaf]) i
                 = Some (Store.CObj o1)).
    { rewrite nth_error_app1 by (rewrite length_upd; exact Lo).
      apply nth_error_upd_same. exact Lo. }
    pose proof (IH (index + 1) _ o1 (E1 _ _ (not_eq_sym Hit) Et) Gt
                  (E1 _ _ (not_eq_sym Hig) Eg) Gg E2 Hit Hig) as IH'.
    rewrite upd_app_l in IH' by (rewrite length_upd; exact Lo).
    rewrite upd_upd, <- app_assoc in IH'. cbn [app] in IH'.
    rewrite length_app, length_upd in IH'. cbn [List.length] in IH'.
    replace (Z.to_nat (index - index)) with 0%nat by lia.
    rewrite Nat.add_0_r. fold o1.
    erewrite forEach_from_ext_ge; [exact IH'|].
    intros s y j Hj. cbv beta. do 2 f_equal. lia.
Qed.

Lemma reify_props_tokens n (H F : Store.store) pre (xs : list string) typ
    (keyf : Z -> string) index o oj :
  (forall k x, nth_error xs k = Some x ->
               nth_error F (pre + k)
               = Some (Store.CObj [("value", Store.VStr x);
                                   ("type", Store.VStr typ)])) ->
  Store.reify_props (Store.reify (S n) (H ++ F)) o = Some oj ->
  Store.reify_props (Store.reify (S n) (H ++ F))
    (forEach_from index xs
       (fun o x idx =>
          Obj.set (keyf idx)
            (Store.VRef (pre + Z.to_nat (idx - index) + List.length H)) o) o)
  = Some (forEach_from index xs
            (fun o x idx =>
               Obj.set (keyf idx)
                 (JObject [("value", JString x); ("type", JString typ)]) o) oj).
Proof.
  intros Hl Eo.
  apply (reify_props_forEach_from _ xs index (fun _ idx => keyf idx)
           (fun _ idx => Store.VRef (pre + Z.to_nat (idx - index)
                                     + List.length H))
           (fun x _ => JObject [("value", JString x); ("type", JString typ)]));
    [|exact Eo].
  intros k x Hx. cbv beta.
  replace (Z.to_nat (index + Z.of_nat k - index)) with k by lia.
  eapply reify_new_obj; [apply Hl, Hx|].
  apply reify_props_cons; [apply reify_str|].
  apply reify_props_cons; [apply reify_str|]. reflexivity.
Qed.

Lemma reify_props_loop_str n h (xs : list string) index
    (keyf : string -> Z -> string) o oj :
  Store.reify_props (Store.reify n h) o = Some oj ->
  Store.reify_props (Store.reify n h)
    (forEach_from index xs
       (fun o x idx => Obj.set (keyf x idx) (Store.VStr x) o) o)
  = Some (forEach_from index xs
            (fun o x idx => Obj.set (keyf x idx) (JString x) o) oj).
Proof.
  intros Eo.
  apply (reify_props_forEach_from _ xs index keyf (fun x _ => Store.VStr x)
           (fun x _ => JString x)); [|exact Eo].
  intros. apply reify_str.
Qed.

Ltac cells R :=
  let rec go j :=
    lazymatch j with
    | 21%nat => idtac
    | _ =>
        let Rj := fresh "R" in
        pose proof (R j _ eq_refl) as Rj;
        cbv beta delta [Store.store_shades Store.store_entry ColorShade_entries]
          in Rj;
        cbn [map fst snd] in Rj;
        let j' := eval cbv in (S j) in go j'
    end in
  go 0%nat.

Ltac norm :=
  cbv beta delta [Store.forEachIndexedP Store.reduceP];
  cbn [Store.forEachP fst snd List.length app Store.upd Store.to_string].

Ltac leaves :=
  let k := fresh "k" in
  let x := fresh "x" in
  let Hx := fresh "Hx" in
  intros k x Hx; cbn [Nat.add nth_error];
  first [ rewrite nth_error_app1
            by (rewrite length_map; eapply nth_error_lt; exact Hx)
        | rewrite nth_error_app2 by lia;
          match goal with
          | |- nth_error _ ?a = _ => replace a with k by lia
          end ];
  rewrite nth_error_map, Hx; reflexivity.

Ltac reif :=
  lazymatch goal with
  | |- Store.reify _ _ (Store.VStr _) = _ => apply reify_str
  | |- Store.reify _ _ (Store.VRef _) = _ =>
      first [ eapply reify_new_obj; [reflexivity | reifp]
            | eapply reify_new_arr; [reflexivity | reifi]
            | eapply reify_old_obj; [eassumption | reifp] ]
  end
with reifp :=
  lazymatch goal with
  | |- Store.reify_props _ [] = _ => apply reify_props_nil
  | |- Store.reify_props _ (_ :: _) = _ =>
      eapply reify_props_cons; [reif | reifp]
  | |- Store.reify_props _ (Obj.set _ _ _) = _ =>
      eapply reify_props_set; [reif | reifp]
  | |- Store.reify_props _ (forEach_from _ _ _ _) = _ =>
      first [ eapply reify_props_loop_str; reifp
            | eapply reify_props_tokens; [leaves | reifp] ]
  end
with reifi :=
  lazymatch goal with
  | |- Store.reify_items _ [] = _ => apply reify_items_nil
  | |- Store.reify_items _ (_ :: _) = _ =>
      eapply reify_items_cons; [reif | reifi]
  end.

Ltac prim :=
  lazymatch goal with
  | |- Store.runs (Store.ret _) _ _ _ => eapply runs_ret
  | |- Store.runs (Store.alloc _) _ _ _ => eapply runs_alloc
  | |- Store.runs (Store.get_prop _ _) _ _ _ =>
      first [ eapply runs_get_old; [eassumption | reflexivity]
            | eapply runs_get_new;
              [first [reflexivity | eassumption] | reflexivity] ]
  | |- Store.runs (Store.entries _) _ _ _ =>
      eapply runs_entries_old; eassumption
  | |- Store.runs (Store.elements _) _ _ _ =>
      eapply runs_elements_old; eassumption
  | |- Store.runs (Store.set_prop _ _ _) _ _ _ =>
      eapply runs_set_new; first [reflexivity | eassumption]
  | |- Store.runs (Store.stringify _) _ _ _ =>
      first [ eapply (runs_stringify 1);
              [reif | rewrite length_app; cbn [List.length]; lia]
            | eapply (runs_stringify 6);
              [reif | rewrite length_app; cbn [List.length]; lia] ]
  end.

Ltac run :=
  norm;
  lazymatch goal with
  | |- Store.runs (Store.bind _ _) _ _ _ => eapply runs_bind; [run | run]
  | |- Store.runs (Store.forEachP_from _ (map Store.VStr _) _ _) (_ ++ _) _ _ =>
      first [ eapply runs_forEachP_from_pure; intros; reflexivity
            | eapply runs_loop_sets; [ | intros; run]; reflexivity
            | eapply runs_loop_tokens;
              [reflexivity | reflexivity | reflexivity | reflexivity
              | reflexivity | discriminate | discriminate] ]
  | |- Store.runs (let _ := _ in _) _ _ _ => cbv zeta; run
  | |- _ => prim
  end.

Lemma generateCSS_runs (H F : Store.store) place ds :
  Store.represents H place ds ->
  Store.runs (Store.generateCSS (Store.VRef (place 0%nat))) (H ++ F) (generateCSS ds) (H ++ F).
Proof.
  intros R. cells R.
  unfold Store.generateCSS.
  run.
Qed.

Lemma generateSCSSVariables_runs (H F : Store.store) place ds :
  Store.represents H place ds ->
  Store.runs (Store.generateSCSSVariables (Store.VRef (place 0%nat))) (H ++ F)
    (ExportModal.generateSCSSVariables ds) (H ++ F).
Proof.
  intros R. cells R.
  unfold Store.generateSCSSVariables.
  run.
Qed.

Lemma generateFigmaVariables_runs (H : Store.store) place ds :
  Store.represents H place ds ->
  exists F,
    Store.runs (Store.generateFigmaVariables (Store.VRef (place 0%nat))) H
      (generateFigmaVariables ds) (H ++ F).
Proof.
  intros R. cells R.
  eexists. apply runs_from_nil.
  unfold Store.generateFigmaVariables.
  eapply runs_eq.
  - run.
  - reflexivity.
Qed.

Lemma generateTailwindConfig_runs (H : Store.store) place ds :
  Store.represents H place ds ->
  exists F,
    Store.runs (Store.generateTailwindConfig (Store.VRef (place 0%nat))) H
      (ExportModal.generateTailwindConfig ds) (H ++ F).
Proof.
  intros R. cells R.
  eexists. apply runs_from_nil.
  unfold Store.generateTailwindConfig.
  eapply runs_eq.
  - run.
  - unfold ExportModal.generateTailwindConfig. f_equal.
Qed.

Lemma generateTokensStudio_runs (H : Store.store) place ds :
  Store.represents H place ds ->
  exists F,
    Store.runs (Store.generateTokensStudio (Store.VRef (place 0%nat))) H
      (ExportModal.generateTokensStudio ds) (H ++ F).
Proof.
  intros R. cells R.
  eexists. apply runs_from_nil.
  unfold Store.generateTokensStudio.
  eapply runs_eq.
  - run.
  - unfold ExportModal.generateTokensStudio. f_equal.
Qed.

Lemma represents_app H F place ds :
  Store.represents H place ds -> Store.represents (H ++ F) place ds.
Proof. intros R j c Hj. apply nth_error_old, R, Hj. Qed.

(** The record laid out after any other objects is held by the store. *)
Lemma represents_store_designSystem (junk : Store.store) ds :
  let place := fun j => (j + List.length junk)%nat in
  Store.represents (junk ++ Store.store_designSystem place ds) place ds.
Proof. intros place j c Hj. unfold place. rewrite nth_error_new. exact Hj. Qed.

(** One call: the text of the pure exporter, and new objects only. *)
Lemma exporter_runs f (H : Store.store) place ds :
  Store.represents H place ds ->
  exists F,
    Store.runs (Store.exporter f (Store.VRef (place 0%nat))) H (exporter f ds)
      (H ++ F).
Proof.
  intros R. destruct f; cbn [Store.exporter exporter].
  - apply generateFigmaVariables_runs, R.
  - exists []. apply runs_from_nil, generateCSS_runs, R.
  - apply generateTailwindConfig_runs, R.
  - exists []. apply runs_from_nil, generateSCSSVariables_runs, R.
  - apply generateTokensStudio_runs, R.
Qed.

(** C8.  Every exporter is deterministic.  On a store that holds the objects
    of the design system at some addresses, whatever else it holds, a call of
    any of the five exporters returns the text the record alone determines,
    and only adds objects to the store.  A second call, on the store the first
    one left, therefore finds the record as it was and returns the same
    text. *)
Theorem exporter_twice (f : format) (ds : DesignSystem) (h : Store.store)
    (place : nat -> nat) :
  Store.represents h place ds ->
  exists F1 F2,
    Store.exporter f (Store.VRef (place 0%nat)) h
    = Some (exporter f ds, h ++ F1)
    /\ Store.exporter f (Store.VRef (place 0%nat)) (h ++ F1)
       = Some (exporter f ds, (h ++ F1) ++ F2)
    /\ Store.represents ((h ++ F1) ++ F2) place ds.
Proof.
  intros R.
  destruct (exporter_runs f h place ds R) as (F1 & H1).
  pose proof (represents_app h F1 place ds R) as R1.
  destruct (exporter_runs f (h ++ F1) place ds R1) as (F2 & H2).
  exists F1, F2. split; [exact H1|]. split; [exact H2|].
  apply represents_app, R1.
Qed.

Lemma exporter_twice_witness :
  Store.represents (Store.store_designSystem (fun j => j) testDesignSystem)
    (fun j => j) testDesignSystem
  /\ exists F1 F2,
       Store.exporter Tokens (Store.VRef 0)
         (Store.store_designSystem (fun j => j) testDesignSystem)
       = Some (ExportModal.generateTokensStudio testDesignSystem,
               Store.store_designSystem (fun j => j) testDesignSystem ++ F1)
       /\ Store.exporter Tokens (Store.VRef 0)
            (Store.store_designSystem (fun j => j) testDesignSystem ++ F1)
          = Some (ExportModal.generateTokensStudio testDesignSystem,
                  (Store.store_designSystem (fun j => j) testDesignSystem
                   ++ F1) ++ F2)
       /\ Store.represents
            ((Store.store_designSystem (fun j => j) testDesignSystem ++ F1)
             ++ F2) (fun j => j) testDesignSystem.
Proof.
  assert (R : Store.represents
                (Store.store_designSystem (fun j => j) testDesignSystem)
                (fun j => j) testDesignSystem)
    by (intros j c Hj; exact Hj).
  split; [exact R|].
  exact (exporter_twice Tokens testDesignSystem _ (fun j => j) R).
Defined.

End StoreFacts.
